(** * goodlinks2insta: a shallow embedding of the sync engine

    The program mirrors the links saved in GoodLinks into Instapaper.
    This development embeds [src/goodlinks2insta.py] in Rocq and checks the
    behaviour of the publisher ([add_to_instapaper]) and of the orchestrator
    ([cmd_sync]) against the written specification.

    Modelling conventions.
    - Python [int] is [Z]; a Python [str] is a [string] whose characters are
      read as code points below 256.
    - The [set] of synced ids is a [gset string]; the state file holds such
      a set (the JSON list it is serialised to is not modelled).
    - Everything outside the process (the HTTP service, the subprocesses
      [pgrep], [open] and [osascript]) is an oracle that may answer
      differently depending on everything the program did so far.
    - Effects are recorded, in order, in a trace carried by the world;
      functions that perform effects live in a state-and-exception monad. *)

From Stdlib Require Import ZArith String Ascii List Lia.
From stdpp Require Import base gmap strings list.
Import ListNotations.

#[local] Set Warnings "-clear-no-such-hyp".

Local Open Scope string_scope.
Local Open Scope list_scope.

(** ** Data model *)

(** One saved link: the dictionary built at line 139. *)
Record Link := { id : string; url : string; title : string }.

(** The namespace returned by argparse for the [sync] command. *)
Record Args := { dry_run : bool; quiet : bool; max_retries : Z }.

(** A path in the form the script stores it, as a string.  The string of
    [Path("~/...").expanduser()] begins with the home directory of the
    user, which is not part of the world: [UnderHome rel] stands for the
    path [rel] below that directory, whatever it is, and [Literal s] for
    the string [s] as written. *)
Inductive PathStr :=
| UnderHome (rel : string)
| Literal (s : string).

(** [config.json]; the two optional keys get defaults in [load_config]. *)
Record Config := {
  username : string;
  password : string;
  launch_goodlinks_key : option bool;
  log_file_key : option PathStr
}.

(** What one call of [requests.post] yields: a response with a status code,
    or one of the exceptions the code distinguishes, in the order of its
    [except] clauses. *)
Inductive Response :=
| Resp (status_code : Z)
| Timeout
| ConnectionError
| RequestException.

(** The four subprocess invocations of the script. *)
Inductive Cmd :=
| Pgrep          (* pgrep -x GoodLinks *)
| OpenApp        (* open -a GoodLinks *)
| OsaQuit        (* osascript -e 'tell application "GoodLinks" to quit' *)
| OsaLinks.      (* osascript -e <the enumeration script> *)

(** The [CompletedProcess] a call of [subprocess.run] returns.  For the one
    call made with [text=True] (line 124), [stdout] and [stderr] are the
    decoded text the script reads, in which text mode has already turned
    every carriage return into a newline ([PyStr.universal_newlines]
    below). *)
Record Completed := { returncode : Z; stdout : string; stderr : string }.

Inductive Level := DEBUG | INFO | WARNING | ERROR.

(** Log records; the text of each message is kept as its arguments. *)
Inductive Msg :=
| MsgServerRetry (status wait_time : Z)
| MsgServerMax (status : Z)
| MsgStatusSkip (status : Z)
| MsgTimeoutRetry (wait_time : Z)
| MsgTimeoutMax
| MsgConnRetry (wait_time : Z)
| MsgConnMax
| MsgNetworkError (u : string)
| MsgLaunching
| MsgFailedToStart
| MsgNotRunningDisabled
| MsgQuitFailed
| MsgStarting
| MsgNotRunningSkip
| MsgFound (pending total : nat)
| MsgWouldSync (title70 : string)
| MsgWouldSyncN (pending : nat)
| MsgNothing
| MsgItemOk (i n : nat) (title_short : string)
| MsgItemFailed (i n : nat) (title_short : string)
| MsgDone (new_count failed_count : nat)
| MsgClosing
| MsgCloseFailed.

(** Observable effects, in the order they happen.  [EPublish] is not an
    effect of the script: it marks, with the id of the link being
    processed, each point where the sync loop calls the publisher, so that
    publish calls can be counted per id. *)
Inductive Event :=
| EPost (u t user pw : string)
| ESleep (secs : Z)
| ERun (c : Cmd)
| ESave (ids : gset string)
| ELog (lvl : Level) (m : Msg)
| EPublish (i : string).

(** The exceptions that leave a function of the script. *)
Inductive Exn :=
| AuthenticationFailed        (* RuntimeError raised at line 213 *)
| CannotConnect               (* RuntimeError raised at line 127 *)
| AppleScriptFailed (err : string)  (* RuntimeError raised at line 132 *)
| FileNotFoundError
| CalledProcessError.

Inductive Result (A : Type) :=
| Return (a : A)
| Raise (e : Exn).
Arguments Return {A} a.
Arguments Raise {A} e.

(** The world: the two files of the application directory and the trace.
    [state_file = None] means that [synced.json] does not exist. *)
Record World := {
  state_file : option (gset string);
  config_file : option Config;
  trace : list Event
}.

Definition emit (e : Event) (w : World) : World :=
  {| state_file := state_file w;
     config_file := config_file w;
     trace := trace w ++ [e] |}.

Definition write_state (ids : gset string) (w : World) : World :=
  {| state_file := Some ids;
     config_file := config_file w;
     trace := trace w |}.

(** ** The monad of effectful functions *)

Definition M (A : Type) : Type := World -> Result A * World.

Definition ret {A} (a : A) : M A := fun w => (Return a, w).

Definition raise {A} (e : Exn) : M A := fun w => (Raise e, w).

Definition bind {A B} (m : M A) (k : A -> M B) : M B :=
  fun w =>
    match m w with
    | (Return a, w') => k a w'
    | (Raise e, w') => (Raise e, w')
    end.

(** [try: body finally: cleanup]. *)
Definition try_finally {A} (body : M A) (cleanup : M unit) : M A :=
  fun w =>
    let '(r, w1) := body w in
    match cleanup w1 with
    | (Return _, w2) => (r, w2)
    | (Raise e, w2) => (Raise e, w2)
    end.

(** [try: body except Exception: handler]. *)
Definition try_except {A} (body : M A) (handler : Exn -> M A) : M A :=
  fun w =>
    match body w with
    | (Return a, w') => (Return a, w')
    | (Raise e, w') => handler e w'
    end.

Declare Scope m_scope.
Delimit Scope m_scope with M.
Notation "x <- c1 ;; c2" := (bind c1 (fun x => c2))
  (at level 100, c1 at next level, right associativity) : m_scope.
Notation "c1 ;; c2" := (bind c1 (fun _ => c2))
  (at level 100, right associativity) : m_scope.
Local Open Scope m_scope.

(** ** Strings the way Python treats them *)

Module PyStr.

(** [str.isspace] on one code point below 256. *)
Definition isspace (c : ascii) : bool :=
  let n := nat_of_ascii c in
  (Nat.leb 9 n && Nat.leb n 13) || (Nat.leb 28 n && Nat.leb n 32)
  || Nat.eqb n 133 || Nat.eqb n 160.

Fixpoint lstrip (s : string) : string :=
  match s with
  | EmptyString => EmptyString
  | String c s' => if isspace c then lstrip s' else s
  end.

Fixpoint rstrip (s : string) : string :=
  match s with
  | EmptyString => EmptyString
  | String c s' =>
      match rstrip s' with
      | EmptyString => if isspace c then EmptyString else String c EmptyString
      | r => String c r
      end
  end.

Definition strip (s : string) : string := rstrip (lstrip s).

(** [s.split(sep)] for a separator of one character. *)
Fixpoint split (sep : ascii) (s : string) : list string :=
  match s with
  | EmptyString => [EmptyString]
  | String c s' =>
      if Ascii.eqb c sep then EmptyString :: split sep s'
      else match split sep s' with
           | [] => [String c EmptyString]
           | h :: t => String c h :: t
           end
  end.

(** [s[:n]]. *)
Definition slice_to (n : nat) (s : string) : string := substring 0 n s.

Fixpoint startswith (p s : string) : bool :=
  match p, s with
  | EmptyString, _ => true
  | String a p', String b s' => Ascii.eqb a b && startswith p' s'
  | String _ _, EmptyString => false
  end.

(** [p in s]. *)
Fixpoint contains (p s : string) : bool :=
  startswith p s ||
  match s with
  | EmptyString => false
  | String _ s' => contains p s'
  end.

Definition tab : ascii := ascii_of_nat 9.
Definition newline : ascii := ascii_of_nat 10.
Definition cr : ascii := ascii_of_nat 13.

(** What reading in text mode does to the bytes a subprocess writes
    ([subprocess.run(..., text=True)], universal newlines): a carriage
    return followed by a newline, and a carriage return on its own, both
    become one newline. *)
Fixpoint universal_newlines (s : string) : string :=
  match s with
  | EmptyString => EmptyString
  | String c s' =>
      if Ascii.eqb c cr then
        String newline
          match s' with
          | String c' s'' =>
              if Ascii.eqb c' newline then universal_newlines s''
              else universal_newlines s'
          | EmptyString => EmptyString
          end
      else String c (universal_newlines s')
  end.

End PyStr.

(** ** The script *)

Section Script.

(** The outside world.  Each oracle receives the trace up to and including
    the request it answers (the [EPost] or [ERun] event just recorded), so
    an answer may depend on the request and on all that preceded it. *)
Variable net : list Event -> Response.
Variable proc : list Event -> Completed.

(** *** Primitive effects *)

Definition log (lvl : Level) (m : Msg) : M unit :=
  fun w => (Return tt, emit (ELog lvl m) w).

(** [time.sleep(secs)]. *)
Definition sleep (secs : Z) : M unit :=
  fun w => (Return tt, emit (ESleep secs) w).

(** [requests.post(..., auth=(username, password),
    data={"url": url, "title": title}, timeout=30)]. *)
Definition post (u t user pw : string) : M Response :=
  fun w => let w' := emit (EPost u t user pw) w in (Return (net (trace w')), w').

(** [subprocess.run(cmd, ...)], and the same with [check=True]. *)
Definition run (c : Cmd) : M Completed :=
  fun w => let w' := emit (ERun c) w in (Return (proc (trace w')), w').

Definition run_checked (c : Cmd) : M Completed :=
  result <- run c ;;
  if (returncode result =? 0)%Z then ret result else raise CalledProcessError.

(** Marks a call of the publisher (see [EPublish]). *)
Definition mark_publish (i : string) : M unit :=
  fun w => (Return tt, emit (EPublish i) w).

(** *** Lifecycle of the GoodLinks application (lines 70-109) *)

Definition is_goodlinks_running : M bool :=
  result <- run Pgrep ;;
  ret (returncode result =? 0)%Z.

Definition launch_goodlinks : M unit :=
  run_checked OpenApp ;;
  sleep 2.

Definition quit_goodlinks : M unit :=
  try_except (run_checked OsaQuit ;; ret tt)
    (fun e => match e with
              | CalledProcessError => log DEBUG MsgQuitFailed
              | _ => raise e
              end).

Definition ensure_goodlinks_running (launch_if_needed : bool) : M bool :=
  running <- is_goodlinks_running ;;
  if running then ret true
  else if launch_if_needed then
    log INFO MsgLaunching ;;
    launch_goodlinks ;;
    running' <- is_goodlinks_running ;;
    if running' then ret true
    else (log ERROR MsgFailedToStart ;; ret false)
  else
    (log WARNING MsgNotRunningDisabled ;; ret false).

(** *** The link source (lines 112-140) *)

(** The loop of lines 135-139 over the lines of the output. *)
Fixpoint parse_lines (lines : list string) : list Link :=
  match lines with
  | [] => []
  | line :: rest =>
      match line with
      | EmptyString => parse_lines rest
      | _ =>
          match PyStr.split PyStr.tab line with
          | p0 :: p1 :: p2 :: _ =>
              {| id := p0; url := p1; title := p2 |} :: parse_lines rest
          | _ => parse_lines rest
          end
      end
  end.

Definition get_goodlinks : M (list Link) :=
  result <- run OsaLinks ;;
  if negb (returncode result =? 0)%Z then
    if PyStr.contains "No such process" (stderr result)
       || PyStr.contains "not running" (stderr result)
    then raise CannotConnect
    else raise (AppleScriptFailed (stderr result))
  else
    ret (parse_lines (PyStr.split PyStr.newline (PyStr.strip (stdout result)))).

(** *** The state store and the configuration (lines 143-164) *)

(** A file that exists holds JSON of the shape the script itself writes: a
    list of ids in [synced.json], an object with the two credentials in
    [config.json].  What [json.loads] raises on a corrupt file (lines 145
    and 160) and the [KeyError] of a configuration without credentials
    (lines 288-289) are outside the model: here [load_synced_ids] never
    raises, and [load_config] raises for a missing file only. *)

Definition load_synced_ids : M (gset string) :=
  fun w => match state_file w with
           | Some ids => (Return ids, w)
           | None => (Return ∅, w)
           end.

Definition save_synced_ids (ids : gset string) : M unit :=
  fun w => (Return tt, emit (ESave ids) (write_state ids w)).

(** Line 43: [Path("~/Library/Logs/goodlinks2insta.log").expanduser()], the
    log file below the home directory; lines 163 and 190 store its string. *)
Definition DEFAULT_LOG_FILE : PathStr := UnderHome "Library/Logs/goodlinks2insta.log".

Definition setdefault {A} (o : option A) (d : A) : option A :=
  match o with Some a => Some a | None => Some d end.

Definition load_config : M Config :=
  fun w => match config_file w with
           | None => (Raise FileNotFoundError, w)
           | Some config =>
               (Return {| username := username config;
                          password := password config;
                          launch_goodlinks_key :=
                            setdefault (launch_goodlinks_key config) true;
                          log_file_key :=
                            setdefault (log_file_key config) DEFAULT_LOG_FILE |},
                w)
           end.

(** *** The publisher (lines 197-266) *)

(** [range(n)]. *)
Definition range (n : Z) : list Z := map Z.of_nat (seq 0 (Z.to_nat n)).

Section Publisher.

Variables (url_ title_ username_ password_ : string) (max_retries_ : Z).

(** The body of the [for attempt in ...] loop, by recursion over the
    attempts still to make; [continue] is the recursive call and the
    empty list falls through to the [return False] of line 266. *)
Fixpoint attempt_loop (attempts : list Z) : M bool :=
  match attempts with
  | [] => ret false
  | attempt :: rest =>
      resp <- post url_ title_ username_ password_ ;;
      match resp with
      | Resp status_code =>
          if (status_code =? 201)%Z then ret true
          else if (status_code =? 403)%Z then raise AuthenticationFailed
          else if (status_code =? 400)%Z then ret false
          else if (status_code >=? 500)%Z then
            if (attempt <? max_retries_)%Z then
              let wait_time := (2 ^ attempt)%Z in
              log WARNING (MsgServerRetry status_code wait_time) ;;
              sleep wait_time ;;
              attempt_loop rest
            else
              (log ERROR (MsgServerMax status_code) ;; ret false)
          else
            (log WARNING (MsgStatusSkip status_code) ;; ret false)
      | Timeout =>
          if (attempt <? max_retries_)%Z then
            let wait_time := (2 ^ attempt)%Z in
            log WARNING (MsgTimeoutRetry wait_time) ;;
            sleep wait_time ;;
            attempt_loop rest
          else
            (log ERROR MsgTimeoutMax ;; ret false)
      | ConnectionError =>
          if (attempt <? max_retries_)%Z then
            let wait_time := (2 ^ attempt)%Z in
            log WARNING (MsgConnRetry wait_time) ;;
            sleep wait_time ;;
            attempt_loop rest
          else
            (log ERROR MsgConnMax ;; ret false)
      | RequestException =>
          log ERROR (MsgNetworkError url_) ;; ret false
      end
  end.

Definition add_to_instapaper : M bool :=
  attempt_loop (range (max_retries_ + 1)).

End Publisher.

(** *** The orchestrator (lines 269-334) *)

(** [enumerate(l, 1)]. *)
Definition enumerate1 {A} (l : list A) : list (nat * A) :=
  combine (seq 1 (length l)) l.

(** Line 293. *)
Definition to_sync_of (links : list Link) (synced : gset string) : list Link :=
  filter (fun l => id l ∉ synced) links.

Section Sync.

Variables (config : Config) (args : Args).

(** The loop of lines 309-322; [n] is [len(to_sync)]. *)
Fixpoint sync_loop (n : nat) (items : list (nat * Link))
    (synced : gset string) (new_count failed_count : nat)
    : M (gset string * nat * nat) :=
  match items with
  | [] => ret (synced, new_count, failed_count)
  | (i, link) :: rest =>
      let title_short := PyStr.slice_to 60 (title link) in
      mark_publish (id link) ;;
      ok <- add_to_instapaper (url link) (title link)
              (username config) (password config) (max_retries args) ;;
      st <- (if ok : bool then
               log INFO (MsgItemOk i n title_short) ;;
               ret ({[ id link ]} ∪ synced, S new_count, failed_count)
             else
               log WARNING (MsgItemFailed i n title_short) ;;
               ret (synced, new_count, S failed_count)) ;;
      let '(synced', new_count', failed_count') := st in
      (if Nat.eqb (i mod 10) 0 then save_synced_ids synced' else ret tt) ;;
      sync_loop n rest synced' new_count' failed_count'
  end.

(** Lines 298-299. *)
Fixpoint log_would_sync (to_sync : list Link) : M unit :=
  match to_sync with
  | [] => ret tt
  | link :: rest =>
      log INFO (MsgWouldSync (PyStr.slice_to 70 (title link))) ;;
      log_would_sync rest
  end.

(** The body of the [try] statement, lines 288-325. *)
Definition sync_body : M unit :=
  links <- get_goodlinks ;;
  synced <- load_synced_ids ;;
  let to_sync := to_sync_of links synced in
  log INFO (MsgFound (length to_sync) (length links)) ;;
  if dry_run args then
    log_would_sync to_sync ;;
    log INFO (MsgWouldSyncN (length to_sync))
  else
    match to_sync with
    | [] => log INFO MsgNothing
    | _ =>
        st <- sync_loop (length to_sync) (enumerate1 to_sync) synced 0 0 ;;
        let '(synced', new_count, failed_count) := st in
        save_synced_ids synced' ;;
        log INFO (MsgDone new_count failed_count)
    end.

End Sync.

(** The [finally] clause, lines 329-334. *)
Definition close_goodlinks (was_running : bool) : M unit :=
  if negb was_running then
    log INFO MsgClosing ;;
    try_except quit_goodlinks (fun _ => log WARNING MsgCloseFailed)
  else ret tt.

(** [setup_logging] only installs handlers; it leaves no event here. *)
Definition cmd_sync (args : Args) : M unit :=
  config <- load_config ;;
  log INFO MsgStarting ;;
  was_running <- is_goodlinks_running ;;
  ready <- ensure_goodlinks_running
             (match launch_goodlinks_key config with
              | Some b => b
              | None => true
              end) ;;
  if negb ready then
    log ERROR MsgNotRunningSkip
  else
    try_finally (sync_body config args) (close_goodlinks was_running).

End Script.

(** ** Reading a trace *)

(** The ids of the publish calls, in order. *)
Definition published (evs : list Event) : list string :=
  omap (fun e => match e with EPublish i => Some i | _ => None end) evs.

(** The sets written to the state file, in order. *)
Definition saves (evs : list Event) : list (gset string) :=
  omap (fun e => match e with ESave ids => Some ids | _ => None end) evs.

(** The [(url, title)] pairs of the HTTP requests, in order. *)
Definition posts (evs : list Event) : list (string * string) :=
  omap (fun e => match e with EPost u t _ _ => Some (u, t) | _ => None end) evs.

(** The lengths of the pauses, in order. *)
Definition sleeps (evs : list Event) : list Z :=
  omap (fun e => match e with ESleep s => Some s | _ => None end) evs.

(** Publish calls and flushes only, interleaved as they happened. *)
Definition is_mark (e : Event) : bool :=
  match e with EPublish _ | ESave _ => true | _ => false end.

Definition marks (evs : list Event) : list Event := List.filter is_mark evs.

(** The final report of a run, [Done: n synced, m failed]. *)
Definition reports (evs : list Event) : list (nat * nat) :=
  omap (fun e => match e with
                 | ELog _ (MsgDone a b) => Some (a, b)
                 | _ => None
                 end) evs.

(** What the publisher may do: requests, pauses and its own log records. *)
Definition is_net (e : Event) : bool :=
  match e with
  | EPost _ _ _ _ | ESleep _ => true
  | ELog _ (MsgServerRetry _ _ | MsgServerMax _ | MsgStatusSkip _
            | MsgTimeoutRetry _ | MsgTimeoutMax | MsgConnRetry _ | MsgConnMax
            | MsgNetworkError _) => true
  | _ => false
  end.

(** Events that touch neither the service nor the state file: subprocesses,
    pauses and log records other than the final report. *)
Definition is_quiet (e : Event) : bool :=
  match e with
  | ERun _ | ESleep _ => true
  | ELog _ (MsgDone _ _) => false
  | ELog _ _ => true
  | _ => false
  end.

(** Events of the sync loop outside its marks: the publisher's events and
    the per-item log records. *)
Definition is_item (e : Event) : bool :=
  match e with
  | ELog _ (MsgItemOk _ _ _ | MsgItemFailed _ _ _) => true
  | _ => is_net e
  end.

(** The synced set a run would load from a world. *)
Definition synced_of (w : World) : gset string :=
  match state_file w with Some ids => ids | None => ∅ end.

(** The state file after some events: the last set saved, if any. *)
Definition final_state (sf : option (gset string)) (evs : list Event)
    : option (gset string) :=
  match last (saves evs) with Some ids => Some ids | None => sf end.

Definition world_after (w : World) (evs : list Event) : World :=
  {| state_file := final_state (state_file w) evs;
     config_file := config_file w;
     trace := trace w ++ evs |}.

(** [spec m w P]: run from [w], [m] appends some events [evs] to the world
    and yields a result [r] with [P r evs]. *)
Definition spec {A} (m : M A) (w : World) (P : Result A -> list Event -> Prop)
    : Prop :=
  exists r evs, m w = (r, world_after w evs) /\ P r evs.

(** [m] only produces events of the class [Q]. *)
Definition emits {A} (Q : Event -> bool) (m : M A) : Prop :=
  forall w, spec m w (fun _ evs => forallb Q evs = true).

(** ** Vocabulary of the specification *)

(** The source enumeration is [L] whenever it is queried. *)
Definition source_yields (proc : list Event -> Completed) (L : list Link) : Prop :=
  forall tr, last tr = Some (ERun OsaLinks) ->
    returncode (proc tr) = 0%Z /\
    parse_lines (PyStr.split PyStr.newline (PyStr.strip (stdout (proc tr)))) = L.

(** GoodLinks is found running whenever [pgrep] looks for it. *)
Definition goodlinks_up (proc : list Event -> Completed) : Prop :=
  forall tr, last tr = Some (ERun Pgrep) -> returncode (proc tr) = 0%Z.

(** The configuration [load_config] returns for a stored one. *)
Definition with_defaults (c : Config) : Config :=
  {| username := username c;
     password := password c;
     launch_goodlinks_key := setdefault (launch_goodlinks_key c) true;
     log_file_key := setdefault (log_file_key c) DEFAULT_LOG_FILE |}.

(** The pending list in the words of the specification: the records of [L],
    in order, keeping those whose id is not in [S]. *)
Inductive pending_of (S : gset string) : list Link -> list Link -> Prop :=
| pending_nil : pending_of S [] []
| pending_keep l L P :
    id l ∉ S -> pending_of S L P -> pending_of S (l :: L) (l :: P)
| pending_skip l L P :
    id l ∈ S -> pending_of S L P -> pending_of S (l :: L) P.

(** [ok] is an answer the publisher can give for [link]. *)
Definition possible_outcome (net : list Event -> Response)
    (config : Config) (args : Args) (item : nat * Link) (ok : bool) : Prop :=
  exists w,
    fst (add_to_instapaper net (url (snd item)) (title (snd item))
           (username config) (password config) (max_retries args) w)
    = Return ok.

(** The publisher can raise its exception for [link]. *)
Definition possible_abort (net : list Event -> Response)
    (config : Config) (args : Args) (item : nat * Link) : Prop :=
  exists w,
    fst (add_to_instapaper net (url (snd item)) (title (snd item))
           (username config) (password config) (max_retries args) w)
    = Raise AuthenticationFailed.

(** The in-memory synced set after the loop has processed the items whose
    outcomes are listed in [oks]. *)
Fixpoint loop_synced (items : list (nat * Link)) (oks : list bool)
    (synced : gset string) : gset string :=
  match items, oks with
  | (_, l) :: items', ok :: oks' =>
      loop_synced items' oks' (if ok then {[ id l ]} ∪ synced else synced)
  | _, _ => synced
  end.

(** The publish calls and flushes the loop is specified to make, given the
    outcome of each call: one publish call per item, and a flush of the
    in-memory set after each item whose position (from 1) is a multiple of
    10, whatever the outcome.  A list [oks] shorter than [items] stands for
    a run whose next call raised: that call is the last mark. *)
Fixpoint loop_marks (items : list (nat * Link)) (oks : list bool)
    (synced : gset string) : list Event :=
  match items with
  | [] => []
  | (i, l) :: items' =>
      EPublish (id l) ::
      match oks with
      | [] => []
      | ok :: oks' =>
          let synced' := if ok then {[ id l ]} ∪ synced else synced in
          (if Nat.eqb (i mod 10) 0 then [ESave synced'] else [])
          ++ loop_marks items' oks' synced'
      end
  end.


Definition count_true (oks : list bool) : nat := length (List.filter (fun b => b) oks).
Definition count_false (oks : list bool) : nat := length (List.filter negb oks).

(** The query of the source made after the events [tr] succeeds with the
    records [L]. *)
Definition fetched (proc : list Event -> Completed) (tr : list Event)
    (L : list Link) : Prop :=
  let result := proc (tr ++ [ERun OsaLinks]) in
  returncode result = 0%Z /\
  L = parse_lines (PyStr.split PyStr.newline (PyStr.strip (stdout result))).

(** The marks of a whole run over the pending list [P]: those of the loop
    and, when no call raised, the flush that follows the loop. *)
Definition run_marks (P : list Link) (oks : list bool) (S : gset string)
    : list Event :=
  loop_marks (enumerate1 P) oks S
  ++ (if Nat.eqb (length oks) (length P)
      then [ESave (loop_synced (enumerate1 P) oks S)]
      else []).

(** What the body of a run does once the source answered with [L] and the
    state store with [S]: nothing but log records in a dry run or when
    nothing is pending; otherwise the marks of [run_marks] for some list of
    publisher answers, ending with the report and a normal return when all
    calls returned, and with the exception of the publisher otherwise. *)
Definition run_outcome (net : list Event -> Response) (config : Config)
    (args : Args) (L : list Link) (S : gset string)
    (r : Result unit) (evs : list Event) : Prop :=
  let P := to_sync_of L S in
  if dry_run args then forallb is_quiet evs = true /\ r = Return tt
  else
    match P with
    | [] => forallb is_quiet evs = true /\ r = Return tt
    | _ :: _ =>
        exists oks,
          length oks <= length P /\
          Forall2 (possible_outcome net config args)
                  (take (length oks) (enumerate1 P)) oks /\
          marks evs = run_marks P oks S /\
          if Nat.eqb (length oks) (length P)
          then reports evs = [(count_true oks, count_false oks)] /\ r = Return tt
          else reports evs = [] /\ r = Raise AuthenticationFailed /\
               exists item, enumerate1 P !! length oks = Some item /\
                            possible_abort net config args item
    end.

(** The events a computation added when it took [w] to [w']. *)
Definition events_since (w w' : World) : list Event :=
  drop (length (trace w)) (trace w').

(** A success status in the sense of HTTP: 2xx. *)
Definition is_success_status (code : Z) : bool :=
  ((200 <=? code) && (code <? 300))%Z.

(** The events of one attempt that is answered with the status [code], for
    a status below 500 other than 403. *)
Definition attempt_events (u t user pw : string) (code : Z) : list Event :=
  EPost u t user pw ::
  (if ((code =? 201) || (code =? 400))%Z then []
   else [ELog WARNING (MsgStatusSkip code)]).

(** One invocation of [sync]: the service and the system it meets, and its
    arguments. *)
Record Run := {
  run_net : list Event -> Response;
  run_proc : list Event -> Completed;
  run_args : Args
}.

Definition sync_run (run : Run) (w : World) : World :=
  snd (cmd_sync (run_net run) (run_proc run) (run_args run) w).

(** Successive invocations, each starting from the world the previous one
    left. *)
Fixpoint sync_runs (runs : list Run) (w : World) : World :=
  match runs with
  | [] => w
  | run :: rest => sync_runs rest (sync_run run w)
  end.

(** ** Concrete worlds *)

(** A service that gives the same answer to every request. *)
Definition always (resp : Response) : list Event -> Response := fun _ => resp.

(** A service whose answer depends on the url of the request. *)
Definition by_url (f : string -> Response) : list Event -> Response :=
  fun tr => match last tr with
            | Some (EPost u _ _ _) => f u
            | _ => RequestException
            end.

(** What the enumeration script of lines 115-122 writes for the records
    [L]: each record as id, tab, url, tab, title, newline.  The script reads
    it in text mode, as [PyStr.universal_newlines (script_output L)]. *)
Fixpoint script_output (L : list Link) : string :=
  match L with
  | [] => ""
  | l :: L' =>
      id l ++ String PyStr.tab (url l ++ String PyStr.tab
        (title l ++ String PyStr.newline (script_output L')))
  end.

(** A system in which GoodLinks is running and holds the records [L]. *)
Definition goodlinks_with (L : list Link) : list Event -> Completed :=
  fun tr => match last tr with
            | Some (ERun OsaLinks) =>
                {| returncode := 0;
                   stdout := PyStr.universal_newlines (script_output L);
                   stderr := "" |}
            | _ => {| returncode := 0; stdout := ""; stderr := "" |}
            end.

(** A fresh installation after [init]: credentials stored, nothing synced. *)
Definition fresh : World :=
  {| state_file := None;
     config_file := Some {| username := "reader@example.com";
                            password := "secret";
                            launch_goodlinks_key := None;
                            log_file_key := None |};
     trace := [] |}.

Definition default_args : Args :=
  {| dry_run := false; quiet := false; max_retries := 3 |}.

Definition dry_args : Args :=
  {| dry_run := true; quiet := false; max_retries := 3 |}.

(** The [k]-th of a series of distinct records: ids [A], [B], ... *)
Definition sample (k : nat) : Link :=
  let c := String (ascii_of_nat (64 + k)) "" in
  {| id := c; url := "https://example.com/" ++ c; title := "Article " ++ c |}.

Definition samples (n : nat) : list Link := map sample (seq 1 n).

(** Two records of the source that carry the same id. *)
Definition twice : list Link := [sample 1; sample 1].

(** Two runs on a source of three records: one in which the service accepts
    everything, one in which it rejects everything with HTTP 400. *)
Definition accepting_run : Run :=
  {| run_net := always (Resp 201);
     run_proc := goodlinks_with (samples 3);
     run_args := default_args |}.

Definition rejecting_run : Run :=
  {| run_net := always (Resp 400);
     run_proc := goodlinks_with (samples 3);
     run_args := default_args |}.

(** A world in which the record [A] was synced by an earlier run. *)
Definition synced_A : World :=
  {| state_file := Some {[ "A" ]};
     config_file := config_file fresh;
     trace := [] |}.

(** ** Further vocabulary *)

Definition is_post (e : Event) : bool :=
  match e with EPost _ _ _ _ => true | _ => false end.

(** The number of requests sent so far. *)
Definition count_posts (tr : list Event) : nat := length (List.filter is_post tr).

(** The answers the publisher retries: HTTP 5xx and above, a timeout, a
    refused connection. *)
Definition is_transient (resp : Response) : bool :=
  match resp with
  | Resp code => (code >=? 500)%Z
  | Timeout | ConnectionError => true
  | RequestException => false
  end.

(** The pauses before the first [k] retries: [2 ** 0], [2 ** 1], ... *)
Definition pauses (k : nat) : list Z := map (fun a => 2 ^ Z.of_nat a)%Z (seq 0 k).

(** A service that answers the first [k] requests it ever receives with
    [fault] and accepts the following ones. *)
Definition recovering (k : nat) (fault : Response) : list Event -> Response :=
  fun tr => if Nat.leb (count_posts tr) k then fault else Resp 201.

(** [c in s], for one character. *)
Fixpoint has_char (c : ascii) (s : string) : bool :=
  match s with
  | EmptyString => false
  | String a s' => Ascii.eqb a c || has_char c s'
  end.

(** [s.count(c)], for one character. *)
Fixpoint count_char (c : ascii) (s : string) : nat :=
  match s with
  | EmptyString => 0
  | String a s' => (if Ascii.eqb a c then 1 else 0) + count_char c s'
  end.

(** A field that holds neither of the two separators of the transport. *)
Definition clean (s : string) : bool :=
  negb (has_char PyStr.tab s) && negb (has_char PyStr.newline s).

(** The links [get_goodlinks] builds from a standard output. *)
Definition links_of_output (out : string) : list Link :=
  parse_lines (PyStr.split PyStr.newline (PyStr.strip out)).

(** A field that in addition holds no carriage return, which text mode
    would turn into a newline. *)
Definition plain (s : string) : bool :=
  clean s && negb (has_char PyStr.cr s).

(** Records that survive the transport unchanged: no separator and no
    carriage return inside a field, an id at the very start of the output
    that is not eaten by [strip] (not empty, no leading whitespace) and a
    title at its very end that is not eaten either (not empty, no trailing
    whitespace). *)
Definition first_id_kept (L : list Link) : Prop :=
  match L with
  | [] => True
  | l :: _ =>
      match id l with
      | EmptyString => False
      | String c _ => PyStr.isspace c = false
      end
  end.

Definition last_title_kept (L : list Link) : Prop :=
  match last L with
  | None => True
  | Some l => PyStr.rstrip (title l) = title l /\ title l <> ""
  end.

Definition transportable (L : list Link) : Prop :=
  Forall (fun l => plain (id l) = true /\ plain (url l) = true /\
                   plain (title l) = true) L /\
  first_id_kept L /\ last_title_kept L.

(** One line of the transport, without its newline. *)
Definition line_of (l : Link) : string :=
  id l ++ String PyStr.tab (url l ++ String PyStr.tab (title l)).

(** The lines of several records, with a newline between two of them. *)
Fixpoint joined (L : list Link) : string :=
  match L with
  | [] => ""
  | [l] => line_of l
  | l :: L' => line_of l ++ String PyStr.newline (joined L')
  end.

(** The query of the source fails whenever it is made. *)
Definition source_fails (proc : list Event -> Completed) : Prop :=
  forall tr, last tr = Some (ERun OsaLinks) -> returncode (proc tr) <> 0%Z.


(** GoodLinks runs from the moment it is opened: [open] succeeds, and
    [pgrep] finds the application exactly when [open] was run before. *)
Definition opens_on_request (proc : list Event -> Completed) : Prop :=
  forall tr,
    (last tr = Some (ERun OpenApp) -> returncode (proc tr) = 0%Z) /\
    (last tr = Some (ERun Pgrep) ->
     (returncode (proc tr) = 0%Z <-> In (ERun OpenApp) tr)).

(** GoodLinks is ready for a run that starts from [w] with the stored
    configuration [c]: it is found running; or it is not, the configuration
    allows launching it, and it runs from the moment it is opened. *)
Definition goodlinks_ready (proc : list Event -> Completed) (w : World)
    (c : Config) : Prop :=
  goodlinks_up proc \/
  (launch_goodlinks_key c <> Some false /\ opens_on_request proc /\
   ~ In (ERun OpenApp) (trace w)).

(** The events of the body of a run: no subprocess but the query of the
    source. *)
Definition is_body (e : Event) : bool :=
  match e with
  | ERun OsaLinks => true
  | ERun _ => false
  | _ => true
  end.

Definition is_open (e : Event) : bool :=
  match e with ERun OpenApp => true | _ => false end.

(** A system in which GoodLinks holds the records [L] but is not running
    until it is opened. *)
Definition goodlinks_closed_with (L : list Link) : list Event -> Completed :=
  fun tr =>
    match last tr with
    | Some (ERun OsaLinks) =>
        {| returncode := 0;
           stdout := PyStr.universal_newlines (script_output L);
           stderr := "" |}
    | Some (ERun Pgrep) =>
        {| returncode := if existsb is_open tr then 0 else 1;
           stdout := ""; stderr := "" |}
    | _ => {| returncode := 0; stdout := ""; stderr := "" |}
    end.


(** A system in which GoodLinks runs but does not answer the script. *)
Definition goodlinks_mute : list Event -> Completed :=
  fun tr =>
    match last tr with
    | Some (ERun OsaLinks) =>
        {| returncode := 1; stdout := "";
           stderr := "execution error: GoodLinks got an error" |}
    | _ => {| returncode := 0; stdout := ""; stderr := "" |}
    end.


(** What precedes the body of a run that had to open GoodLinks. *)
Definition launch_events : list Event :=
  [ELog INFO MsgStarting; ERun Pgrep; ERun Pgrep; ELog INFO MsgLaunching;
   ERun OpenApp; ESleep 2; ERun Pgrep].

(** ** The other commands *)

(** The lines [cmd_status] prints, kept as their arguments. *)
Inductive Line :=
| LineLinks (n : nat)          (* GoodLinks: n links *)
| LineSynced (n : nat)         (* Synced:    n *)
| LinePending (n : nat)        (* Pending:   n *)
| LineHeader                   (* Pending links: *)
| LineTitle (t : string)       (*   - title *)
| LineMore (n : nat).          (*   ... and n more *)

(** [cmd_status], lines 337-352; its result is what it prints. *)
Definition cmd_status (proc : list Event -> Completed) : M (list Line) :=
  links <- get_goodlinks proc ;;
  synced <- load_synced_ids ;;
  let unsynced := to_sync_of links synced in
  ret ([LineLinks (length links); LineSynced (size synced);
        LinePending (length unsynced)]
       ++ match unsynced with
          | [] => []
          | _ =>
              LineHeader
              :: map (fun link => LineTitle (PyStr.slice_to 60 (title link)))
                   (take 10 unsynced)
              ++ (if Nat.ltb 10 (length unsynced)
                  then [LineMore (length unsynced - 10)]
                  else [])
          end).

(** The line [cmd_reset] prints. *)
Inductive ResetLine := SyncStateReset | NoSyncStateToReset.

(** [cmd_reset], lines 355-361. *)
Definition cmd_reset : M ResetLine :=
  fun w =>
    match state_file w with
    | Some _ =>
        (Return SyncStateReset,
         {| state_file := None;
            config_file := config_file w;
            trace := trace w |})
    | None => (Return NoSyncStateToReset, w)
    end.

(** How [cmd_init] ends: it refuses to overwrite, it exits with status 1
    for want of credentials, or it saves the configuration. *)
Inductive InitOutcome := ConfigExists | CredentialsRequired | ConfigSaved.

(** [cmd_init], lines 167-194, given what the user types at the two
    prompts.  The mode of the file (line 193) is not part of the world. *)
Definition cmd_init (force : bool) (typed_email typed_password : string)
    : World -> InitOutcome * World :=
  fun w =>
    if (match config_file w with Some _ => true | None => false end)
       && negb force
    then (ConfigExists, w)
    else
      let username := PyStr.strip typed_email in
      let password := PyStr.strip typed_password in
      if (match username with EmptyString => true | _ => false end)
         || (match password with EmptyString => true | _ => false end)
      then (CredentialsRequired, w)
      else
        (ConfigSaved,
         {| state_file := state_file w;
            config_file :=
              Some {| username := username;
                      password := password;
                      launch_goodlinks_key := Some true;
                      log_file_key := Some DEFAULT_LOG_FILE |};
            trace := trace w |}).

Definition is_title (ln : Line) : bool :=
  match ln with LineTitle _ => true | _ => false end.

(** A world before [init]: no configuration, nothing synced. *)
Definition blank : World :=
  {| state_file := None; config_file := None; trace := [] |}.

(** ** The answers of the service, read off a trace *)

(** The answers to the requests among the events [evs], which follow the
    events [tr]: what the service said, request by request. *)
Fixpoint answers (net : list Event -> Response) (tr evs : list Event)
    : list Response :=
  match evs with
  | [] => []
  | e :: rest =>
      (if is_post e then [net (tr ++ [e])] else [])
      ++ answers net (tr ++ [e]) rest
  end.

(** The publish calls among [evs], each with the id it was made for and
    the answers to its requests: a call lasts from its mark to the next
    mark.  The first component holds the answers to the requests that
    precede the first mark. *)
Fixpoint calls_from (net : list Event -> Response) (tr evs : list Event)
    : list Response * list (string * list Response) :=
  match evs with
  | [] => ([], [])
  | e :: rest =>
      let '(rs, cs) := calls_from net (tr ++ [e]) rest in
      match e with
      | EPublish x => ([], (x, rs) :: cs)
      | EPost _ _ _ _ => (net (tr ++ [e]) :: rs, cs)
      | _ => (rs, cs)
      end
  end.

Definition calls (net : list Event -> Response) (tr evs : list Event)
    : list (string * list Response) :=
  snd (calls_from net tr evs).

(** How a call ended, judged by the last answer it got: it raised when the
    service said 403, it returned [True] when the service said 201, and it
    returned [False] otherwise, also when it sent no request at all. *)
Definition call_result (rs : list Response) : option bool :=
  match last rs with
  | Some (Resp code) => if (code =? 403)%Z then None else Some (code =? 201)%Z
  | _ => Some false
  end.

(** The calls of a run with the way each ended. *)
Definition results (net : list Event -> Response) (tr evs : list Event)
    : list (string * option bool) :=
  map (fun c => (fst c, call_result (snd c))) (calls net tr evs).

(** The outcomes of the calls that returned, in order. *)
Definition outcomes (net : list Event -> Response) (tr evs : list Event)
    : list bool :=
  omap snd (results net tr evs).

Definition accepted (r : string * option bool) : option string :=
  match snd r with Some true => Some (fst r) | _ => None end.

(** The ids of the calls the service accepted, in order. *)
Definition accepted_ids (net : list Event -> Response) (tr evs : list Event)
    : list string :=
  omap accepted (results net tr evs).

(** The calls the loop is specified to make, given the outcome of each
    call that returns: one call per item, in order; a list [oks] shorter
    than [items] stands for a loop whose next call raised. *)
Fixpoint loop_results (items : list (nat * Link)) (oks : list bool)
    : list (string * option bool) :=
  match items with
  | [] => []
  | (_, l) :: items' =>
      match oks with
      | [] => [(id l, None)]
      | ok :: oks' => (id l, Some ok) :: loop_results items' oks'
      end
  end.

(** Status 403 among the answers of a computation: nowhere when it did not
    raise the authentication failure, and as the last answer only when it
    did. *)
Definition answers_fit (raised : bool) (rs : list Response) : Prop :=
  if raised
  then exists pre, rs = pre ++ [Resp 403] /\ Forall (fun a => a <> Resp 403) pre
  else Forall (fun a => a <> Resp 403) rs.

(** What the loop does over [items] when it starts after the events [tr]
    with the set [synced] and the two counts: the calls of [loop_results]
    and the marks of [loop_marks] for the outcomes [oks] of its calls, read
    off the answers of the service; it completes with the bookkeeping of
    those outcomes when every call returned, and stops with the exception
    of the publisher otherwise. *)
Definition loop_shape (net : list Event -> Response)
    (items : list (nat * Link)) (synced : gset string)
    (new_count failed_count : nat) (tr : list Event)
    (r : Result (gset string * nat * nat)) (evs : list Event) : Prop :=
  exists oks,
    length oks <= length items /\
    calls_from net tr evs = ([], calls net tr evs) /\
    results net tr evs = loop_results items oks /\
    marks evs = loop_marks items oks synced /\
    reports evs = [] /\
    if Nat.eqb (length oks) (length items)
    then r = Return (loop_synced items oks synced,
                     new_count + count_true oks,
                     failed_count + count_false oks) /\
         answers_fit false (answers net tr evs)
    else r = Raise AuthenticationFailed /\
         answers_fit true (answers net tr evs).

(** The log records of a dry run, lines 298-300. *)
Definition previews (P : list Link) : list Event :=
  map (fun link => ELog INFO (MsgWouldSync (PyStr.slice_to 70 (title link)))) P
  ++ [ELog INFO (MsgWouldSyncN (length P))].

(** The titles a dry run lists. *)
Definition previewed (evs : list Event) : list string :=
  omap (fun e => match e with
                 | ELog _ (MsgWouldSync t) => Some t
                 | _ => None
                 end) evs.

(** Events around the body of a run: the checks for GoodLinks, its
    launching and closing, and their log records. *)
Definition is_around (e : Event) : bool :=
  match e with
  | ERun (Pgrep | OpenApp | OsaQuit) | ESleep _ => true
  | ELog _ (MsgStarting | MsgLaunching | MsgFailedToStart
            | MsgNotRunningDisabled | MsgNotRunningSkip | MsgClosing
            | MsgQuitFailed | MsgCloseFailed) => true
  | _ => false
  end.

(** What the body of a run does once the source answered with [L] and the
    state store with [S], when it starts after the events [tr]: it queries
    the source and logs the two counts; then a dry run logs its preview, a
    run with nothing pending says so, and any other run makes the calls of
    [loop_results] and the marks of [run_marks] for the outcomes [oks] of
    its calls, and ends with the report when every call returned and with
    the exception of the publisher otherwise. *)
Definition body_shape (net : list Event -> Response) (args : Args)
    (L : list Link) (S : gset string) (tr : list Event)
    (r : Result unit) (body : list Event) : Prop :=
  let P := to_sync_of L S in
  exists rest,
    body = ERun OsaLinks :: ELog INFO (MsgFound (length P) (length L)) :: rest /\
    if dry_run args then rest = previews P /\ r = Return tt
    else
      match P with
      | [] => rest = [ELog INFO MsgNothing] /\ r = Return tt
      | _ :: _ =>
          exists oks,
            length oks <= length P /\
            calls_from net tr body = ([], calls net tr body) /\
            results net tr body = loop_results (enumerate1 P) oks /\
            marks body = run_marks P oks S /\
            if Nat.eqb (length oks) (length P)
            then reports body = [(count_true oks, count_false oks)] /\
                 r = Return tt /\
                 answers_fit false (answers net tr body)
            else reports body = [] /\
                 r = Raise AuthenticationFailed /\
                 answers_fit true (answers net tr body)
      end.

(** A run from [w] that fetched the records [L], seen from outside: it
    queried the source and logged the number of pending and of fetched
    records; a dry run then listed the pending titles and did nothing
    else; a run with nothing pending did nothing else; any other run made
    the calls of [loop_results] and the marks of [run_marks] for the
    outcomes [oks] of its calls, and ended with the report when every call
    returned and with the exception of the publisher otherwise. *)
Definition run_shape (net : list Event -> Response) (args : Args)
    (L : list Link) (w : World) (r : Result unit) (evs : list Event) : Prop :=
  let S := synced_of w in
  let P := to_sync_of L S in
  In (ERun OsaLinks) evs /\
  In (ELog INFO (MsgFound (length P) (length L))) evs /\
  if dry_run args
  then forallb is_quiet evs = true /\
       previewed evs = map (fun l => PyStr.slice_to 70 (title l)) P /\
       r = Return tt
  else
    match P with
    | [] => forallb is_quiet evs = true /\ r = Return tt
    | _ :: _ =>
        exists oks,
          length oks <= length P /\
          results net (trace w) evs = loop_results (enumerate1 P) oks /\
          marks evs = run_marks P oks S /\
          if Nat.eqb (length oks) (length P)
          then reports evs = [(count_true oks, count_false oks)] /\
               r = Return tt /\
               answers_fit false (answers net (trace w) evs)
          else reports evs = [] /\
               r = Raise AuthenticationFailed /\
               answers_fit true (answers net (trace w) evs)
    end.

(** In none of these successive runs, started from [w], does the service
    accept a call made for the id [x]. *)
Fixpoint never_accepted_in (x : string) (runs : list Run) (w : World) : Prop :=
  match runs with
  | [] => True
  | run :: rest =>
      (x ∉ accepted_ids (run_net run) (trace w)
             (events_since w (sync_run run w)))
      /\ never_accepted_in x rest (sync_run run w)
  end.

(** ** Reasoning about traces and worlds *)

Lemma published_app a b : published (a ++ b) = published a ++ published b.
Proof. apply omap_app. Qed.

Lemma saves_app a b : saves (a ++ b) = saves a ++ saves b.
Proof. apply omap_app. Qed.

Lemma posts_app a b : posts (a ++ b) = posts a ++ posts b.
Proof. apply omap_app. Qed.

Lemma marks_app a b : marks (a ++ b) = marks a ++ marks b.
Proof. apply List.filter_app. Qed.

Lemma final_state_app sf a b :
  final_state (final_state sf a) b = final_state sf (a ++ b).
Proof.
  unfold final_state. rewrite saves_app.
  destruct (saves b) as [|x l] using rev_ind.
  - rewrite app_nil_r. reflexivity.
  - rewrite app_assoc, !last_snoc. reflexivity.
Qed.

Lemma world_after_nil w : world_after w [] = w.
Proof. destruct w. unfold world_after. simpl. rewrite app_nil_r. reflexivity. Qed.

Lemma world_after_app w a b :
  world_after (world_after w a) b = world_after w (a ++ b).
Proof.
  unfold world_after. simpl. rewrite final_state_app, app_assoc. reflexivity.
Qed.

Section Rules.

Context {A B : Type}.

Lemma spec_mono (m : M A) w (P Q : Result A -> list Event -> Prop) :
  spec m w P -> (forall r evs, P r evs -> Q r evs) -> spec m w Q.
Proof. intros (r & evs & E & HP) H. exists r, evs. auto. Qed.

Lemma spec_ret (a : A) w (P : Result A -> list Event -> Prop) :
  P (Return a) [] -> spec (ret a) w P.
Proof.
  intros HP. exists (Return a), []. rewrite world_after_nil. auto.
Qed.

Lemma spec_raise e w (P : Result A -> list Event -> Prop) :
  P (Raise e) [] -> spec (raise e) w P.
Proof.
  intros HP. exists (Raise e), []. rewrite world_after_nil. auto.
Qed.

Lemma spec_bind (m : M A) (k : A -> M B) w
    (P : Result B -> list Event -> Prop) :
  spec m w (fun r evs =>
    match r with
    | Return a =>
        spec (k a) (world_after w evs) (fun r' evs' => P r' (evs ++ evs'))
    | Raise e => P (Raise e) evs
    end) ->
  spec (bind m k) w P.
Proof.
  intros (r & evs & E & H). unfold spec, bind. rewrite E.
  destruct r as [a|e].
  - destruct H as (r' & evs' & E' & HP).
    exists r', (evs ++ evs'). rewrite E', world_after_app. auto.
  - exists (Raise e), evs. auto.
Qed.

Lemma spec_try_finally (body : M A) (cleanup : M unit) w
    (P : Result A -> list Event -> Prop) :
  spec body w (fun r evs =>
    spec cleanup (world_after w evs) (fun c evs' =>
      match c with
      | Return _ => P r (evs ++ evs')
      | Raise e => P (Raise e) (evs ++ evs')
      end)) ->
  spec (try_finally body cleanup) w P.
Proof.
  intros (r & evs & E & (c & evs' & E' & HP)).
  unfold spec, try_finally. rewrite E, E', world_after_app.
  destruct c; eexists _, _; eauto.
Qed.

Lemma spec_try_except (body : M A) (handler : Exn -> M A) w
    (P : Result A -> list Event -> Prop) :
  spec body w (fun r evs =>
    match r with
    | Return a => P (Return a) evs
    | Raise e =>
        spec (handler e) (world_after w evs) (fun r' evs' => P r' (evs ++ evs'))
    end) ->
  spec (try_except body handler) w P.
Proof.
  intros (r & evs & E & H). unfold spec, try_except. rewrite E.
  destruct r as [a|e].
  - exists (Return a), evs. auto.
  - destruct H as (r' & evs' & E' & HP).
    exists r', (evs ++ evs'). rewrite E', world_after_app. auto.
Qed.

End Rules.

Section PrimitiveRules.

Variable net : list Event -> Response.
Variable proc : list Event -> Completed.

Lemma spec_log lvl m w (P : Result unit -> list Event -> Prop) :
  P (Return tt) [ELog lvl m] -> spec (log lvl m) w P.
Proof. intros HP. exists (Return tt), [ELog lvl m]. auto. Qed.

Lemma spec_sleep s w (P : Result unit -> list Event -> Prop) :
  P (Return tt) [ESleep s] -> spec (sleep s) w P.
Proof. intros HP. exists (Return tt), [ESleep s]. auto. Qed.

Lemma spec_mark_publish i w (P : Result unit -> list Event -> Prop) :
  P (Return tt) [EPublish i] -> spec (mark_publish i) w P.
Proof. intros HP. exists (Return tt), [EPublish i]. auto. Qed.

Lemma spec_post u t user pw w (P : Result Response -> list Event -> Prop) :
  P (Return (net (trace w ++ [EPost u t user pw]))) [EPost u t user pw] ->
  spec (post net u t user pw) w P.
Proof. intros HP. eexists _, [EPost u t user pw]. split; [reflexivity|auto]. Qed.

Lemma spec_run c w (P : Result Completed -> list Event -> Prop) :
  P (Return (proc (trace w ++ [ERun c]))) [ERun c] ->
  spec (run proc c) w P.
Proof. intros HP. eexists _, [ERun c]. split; [reflexivity|auto]. Qed.

Lemma spec_save ids w (P : Result unit -> list Event -> Prop) :
  P (Return tt) [ESave ids] -> spec (save_synced_ids ids) w P.
Proof. intros HP. exists (Return tt), [ESave ids]. auto. Qed.

Lemma spec_load w (P : Result (gset string) -> list Event -> Prop) :
  P (Return (synced_of w)) [] -> spec load_synced_ids w P.
Proof.
  intros HP. exists (Return (synced_of w)), []. rewrite world_after_nil.
  split; [|assumption].
  unfold load_synced_ids, synced_of. destruct (state_file w); reflexivity.
Qed.

End PrimitiveRules.

(** ** Classes of events *)

Section Emits.

Context {A B : Type} (Q : Event -> bool).

Lemma emits_ret (a : A) : emits Q (ret a).
Proof. intros w. apply spec_ret. reflexivity. Qed.

Lemma emits_raise e : emits Q (@raise A e).
Proof. intros w. apply spec_raise. reflexivity. Qed.

Lemma emits_bind (m : M A) (k : A -> M B) :
  emits Q m -> (forall a, emits Q (k a)) -> emits Q (bind m k).
Proof.
  intros Hm Hk w. apply spec_bind.
  eapply spec_mono; [apply Hm|]. intros [a|e] evs H; [|exact H].
  eapply spec_mono; [apply Hk|]. cbv beta. intros _ evs' H'.
  rewrite forallb_app, H, H'. reflexivity.
Qed.

Lemma emits_try_except (body : M A) (handler : Exn -> M A) :
  emits Q body -> (forall e, emits Q (handler e)) ->
  emits Q (try_except body handler).
Proof.
  intros Hm Hk w. apply spec_try_except.
  eapply spec_mono; [apply Hm|]. intros [a|e] evs H; [exact H|].
  eapply spec_mono; [apply Hk|]. cbv beta. intros _ evs' H'.
  rewrite forallb_app, H, H'. reflexivity.
Qed.

Lemma emits_try_finally (body : M A) (cleanup : M unit) :
  emits Q body -> emits Q cleanup -> emits Q (try_finally body cleanup).
Proof.
  intros Hm Hk w. apply spec_try_finally.
  eapply spec_mono; [apply Hm|]. intros r evs H.
  eapply spec_mono; [apply Hk|]. cbv beta. intros c evs' H'.
  destruct c; rewrite forallb_app, H, H'; reflexivity.
Qed.

Lemma emits_event (m : M A) (e : Event) (a : A) :
  (forall w P, P (Return a) [e] -> spec m w P) ->
  Q e = true -> emits Q m.
Proof. intros Hm He w. apply Hm. simpl. rewrite He. reflexivity. Qed.

End Emits.

(** Breaks a program down to its primitive effects; side conditions on the
    class of an event are settled by evaluation. *)
Ltac emits_step :=
  match goal with
  | |- emits _ (bind _ _) => apply emits_bind; [|intros ?]
  | |- emits _ (ret _) => apply emits_ret
  | |- emits _ (raise _) => apply emits_raise
  | |- emits _ (try_except _ _) => apply emits_try_except; [|intros ?]
  | |- emits _ (try_finally _ _) => apply emits_try_finally
  | |- emits _ (log ?l ?m) =>
      apply (emits_event _ _ (ELog l m) tt); [intros; now apply spec_log|]
  | |- emits _ (sleep ?s) =>
      apply (emits_event _ _ (ESleep s) tt); [intros; now apply spec_sleep|]
  | |- emits _ (if ?b then _ else _) => destruct b
  | |- emits _ (match ?x with _ => _ end) => destruct x
  end.

Section EmitsScript.

Variable net : list Event -> Response.
Variable proc : list Event -> Completed.

Lemma emits_run Q c :
  Q (ERun c) = true -> emits Q (run proc c).
Proof.
  intros H w. apply spec_run. simpl. rewrite H. reflexivity.
Qed.

Lemma emits_post Q u t user pw :
  Q (EPost u t user pw) = true -> emits Q (post net u t user pw).
Proof.
  intros H w. apply spec_post. simpl. rewrite H. reflexivity.
Qed.

Lemma emits_run_checked c : emits is_quiet (run_checked proc c).
Proof.
  unfold run_checked. apply emits_bind; [now apply emits_run|intros r].
  repeat emits_step; reflexivity.
Qed.

Lemma emits_is_goodlinks_running : emits is_quiet (is_goodlinks_running proc).
Proof.
  unfold is_goodlinks_running.
  apply emits_bind; [now apply emits_run|intros r]. apply emits_ret.
Qed.

Lemma emits_launch_goodlinks : emits is_quiet (launch_goodlinks proc).
Proof.
  unfold launch_goodlinks.
  apply emits_bind; [apply emits_run_checked|intros r].
  emits_step. reflexivity.
Qed.

Lemma emits_quit_goodlinks : emits is_quiet (quit_goodlinks proc).
Proof.
  unfold quit_goodlinks. apply emits_try_except.
  - apply emits_bind; [apply emits_run_checked|intros r]. apply emits_ret.
  - intros e. repeat emits_step; reflexivity.
Qed.

Lemma emits_ensure_goodlinks_running b :
  emits is_quiet (ensure_goodlinks_running proc b).
Proof.
  unfold ensure_goodlinks_running.
  apply emits_bind; [apply emits_is_goodlinks_running|intros running].
  destruct running; [apply emits_ret|]. destruct b.
  - apply emits_bind; [emits_step; reflexivity|intros _].
    apply emits_bind; [apply emits_launch_goodlinks|intros _].
    apply emits_bind; [apply emits_is_goodlinks_running|intros r'].
    repeat emits_step; reflexivity.
  - repeat emits_step; reflexivity.
Qed.

Lemma emits_attempt_loop u t user pw mr attempts :
  emits is_net (attempt_loop net u t user pw mr attempts).
Proof.
  induction attempts as [|attempt rest IH]; simpl.
  - apply emits_ret.
  - apply emits_bind; [now apply emits_post|intros resp].
    destruct resp as [status_code| | |];
      repeat first [ exact IH | emits_step ]; reflexivity.
Qed.

Lemma emits_add_to_instapaper u t user pw mr :
  emits is_net (add_to_instapaper net u t user pw mr).
Proof. apply emits_attempt_loop. Qed.

End EmitsScript.

(** What a class of events leaves out. *)

Lemma omap_none_forallb {X} (f : Event -> option X) (Q : Event -> bool) evs :
  (forall e, Q e = true -> f e = None) ->
  forallb Q evs = true -> omap f evs = [].
Proof.
  intros HQ H. induction evs as [|e evs IH]; [reflexivity|].
  simpl in H. apply andb_prop in H as [He H]. simpl.
  rewrite (HQ e He). auto.
Qed.

Lemma marks_none_forallb (Q : Event -> bool) evs :
  (forall e, Q e = true -> is_mark e = false) ->
  forallb Q evs = true -> marks evs = [].
Proof.
  intros HQ H. induction evs as [|e evs IH]; [reflexivity|].
  simpl in H. apply andb_prop in H as [He H]. unfold marks. simpl.
  rewrite (HQ e He). auto.
Qed.

Ltac by_class :=
  let e := fresh "e" in
  intros e; destruct e as [| | | |? []|]; simpl; congruence.

Lemma quiet_published evs : forallb is_quiet evs = true -> published evs = [].
Proof. apply omap_none_forallb. by_class. Qed.

Lemma quiet_saves evs : forallb is_quiet evs = true -> saves evs = [].
Proof. apply omap_none_forallb. by_class. Qed.

Lemma quiet_posts evs : forallb is_quiet evs = true -> posts evs = [].
Proof. apply omap_none_forallb. by_class. Qed.

Lemma quiet_reports evs : forallb is_quiet evs = true -> reports evs = [].
Proof. apply omap_none_forallb. by_class. Qed.

Lemma quiet_marks evs : forallb is_quiet evs = true -> marks evs = [].
Proof. apply marks_none_forallb. by_class. Qed.

Lemma item_reports evs : forallb is_item evs = true -> reports evs = [].
Proof. apply omap_none_forallb. by_class. Qed.

Lemma item_marks evs : forallb is_item evs = true -> marks evs = [].
Proof. apply marks_none_forallb. by_class. Qed.

Lemma net_item e : is_net e = true -> is_item e = true.
Proof. destruct e as [| | | |? []|]; simpl; congruence. Qed.

Lemma quiet_state sf evs :
  forallb is_quiet evs = true -> final_state sf evs = sf.
Proof. intros H. unfold final_state. rewrite quiet_saves; auto. Qed.

Lemma saves_marks evs : saves (marks evs) = saves evs.
Proof.
  induction evs as [|e evs IH]; [reflexivity|].
  unfold marks in *. destruct e; simpl; rewrite ?IH; reflexivity.
Qed.

Lemma published_marks evs : published (marks evs) = published evs.
Proof.
  induction evs as [|e evs IH]; [reflexivity|].
  unfold marks in *. destruct e; simpl; rewrite ?IH; reflexivity.
Qed.

(** ** The publisher *)

Section PublisherFacts.

Variable net : list Event -> Response.

(** The only exception that leaves the publisher is the one of line 213. *)
Lemma attempt_loop_result u t user pw mr attempts w :
  fst (attempt_loop net u t user pw mr attempts w) = Raise AuthenticationFailed
  \/ exists b, fst (attempt_loop net u t user pw mr attempts w) = Return b.
Proof.
  revert w. induction attempts as [|attempt rest IH]; intros w; simpl.
  - right. exists false. reflexivity.
  - unfold bind, post. cbv zeta.
    destruct (net _) as [status_code| | |].
    + destruct (status_code =? 201)%Z; [right; exists true; reflexivity|].
      destruct (status_code =? 403)%Z; [left; reflexivity|].
      destruct (status_code =? 400)%Z; [right; exists false; reflexivity|].
      destruct (status_code >=? 500)%Z; [|right; exists false; reflexivity].
      destruct (attempt <? mr)%Z; [|right; exists false; reflexivity].
      simpl. apply IH.
    + destruct (attempt <? mr)%Z; [|right; exists false; reflexivity].
      simpl. apply IH.
    + destruct (attempt <? mr)%Z; [|right; exists false; reflexivity].
      simpl. apply IH.
    + right; exists false; reflexivity.
Qed.

Lemma add_to_instapaper_spec u t user pw mr w :
  spec (add_to_instapaper net u t user pw mr) w (fun r evs =>
    forallb is_net evs = true /\
    fst (add_to_instapaper net u t user pw mr w) = r /\
    (r = Raise AuthenticationFailed \/ exists b, r = Return b)).
Proof.
  destruct (emits_add_to_instapaper net u t user pw mr w) as (r & evs & E & H).
  exists r, evs. split; [exact E|]. split; [exact H|].
  pose proof (attempt_loop_result u t user pw mr (range (mr + 1)) w) as R.
  fold (add_to_instapaper net u t user pw mr) in R.
  rewrite E in *. simpl in *. auto.
Qed.

End PublisherFacts.

(** ** The sync loop *)

Lemma reports_app a b : reports (a ++ b) = reports a ++ reports b.
Proof. apply omap_app. Qed.

Lemma forallb_weaken (Q Q' : Event -> bool) evs :
  (forall e, Q e = true -> Q' e = true) ->
  forallb Q evs = true -> forallb Q' evs = true.
Proof. intros H. rewrite !forallb_forall. auto. Qed.

Lemma net_marks evs : forallb is_net evs = true -> marks evs = [].
Proof. intros H. apply item_marks. revert H. apply forallb_weaken, net_item. Qed.

Lemma net_reports evs : forallb is_net evs = true -> reports evs = [].
Proof. intros H. apply item_reports. revert H. apply forallb_weaken, net_item. Qed.

Section LoopFacts.

Variable net : list Event -> Response.
Variables (config : Config) (args : Args).

Lemma count_true_cons b oks :
  count_true (b :: oks) = (if b then 1 else 0) + count_true oks.
Proof. unfold count_true. destruct b; reflexivity. Qed.

Lemma count_false_cons b oks :
  count_false (b :: oks) = (if b then 0 else 1) + count_false oks.
Proof. unfold count_false. destruct b; reflexivity. Qed.

(** The loop against its specification: it makes the marks of
    [loop_marks] for some list of outcomes, each of them an answer of the
    publisher, and either completes with the bookkeeping of those
    outcomes or stops at the first call that raises. *)
Lemma sync_loop_spec n items : forall synced new_count failed_count w,
  spec (sync_loop net config args n items synced new_count failed_count) w
    (fun r evs =>
       exists oks,
         length oks <= length items /\
         Forall2 (possible_outcome net config args)
                 (take (length oks) items) oks /\
         marks evs = loop_marks items oks synced /\
         reports evs = [] /\
         if Nat.eqb (length oks) (length items)
         then r = Return (loop_synced items oks synced,
                          new_count + count_true oks,
                          failed_count + count_false oks)
         else r = Raise AuthenticationFailed /\
              exists item, items !! length oks = Some item /\
                           possible_abort net config args item).
Proof.
  induction items as [|[i link] rest IH]; intros synced new_count failed_count w.
  - simpl. apply spec_ret. exists []. simpl.
    rewrite !Nat.add_0_r. repeat split; auto.
  - cbn [sync_loop]. apply spec_bind, spec_mark_publish.
    apply spec_bind.
    eapply spec_mono; [apply add_to_instapaper_spec|]. cbv beta.
    intros r evs (Hnet & Hfst & Hr).
    destruct Hr as [->|[ok ->]].
    + exists []. simpl. repeat split; auto.
      * lia.
      * rewrite net_marks; auto.
      * rewrite net_reports; auto.
      * exists (i, link). split; [reflexivity|]. eexists; exact Hfst.
    + assert (Hpo : possible_outcome net config args (i, link) ok)
        by (eexists; exact Hfst).
      apply spec_bind.
      remember ok as b eqn:Hb in Hpo |- *.
      destruct ok; subst b; apply spec_bind, spec_log; cbv beta iota;
        apply spec_ret; cbv beta iota zeta;
        apply spec_bind;
        (destruct (Nat.eqb (i mod 10) 0) eqn:Hi;
         [apply spec_save|apply spec_ret]); cbv beta iota;
        (eapply spec_mono; [apply IH|]); cbv beta;
        intros r' evs' (oks & Hlen & Hposs & Hmarks & Hrep & Hr');
        [exists (true :: oks)|exists (true :: oks)
        |exists (false :: oks)|exists (false :: oks)].
      all: cbn [length take loop_marks loop_synced].
      all: rewrite ?Hi, ?count_true_cons, ?count_false_cons.
      all: rewrite ?marks_app, ?reports_app, ?(net_marks evs), ?(net_reports evs) by assumption.
      all: cbn [marks reports List.filter omap is_mark app].
      all: repeat split; [lia|constructor; assumption|..].
      all: rewrite ?Hmarks, ?Hrep; try reflexivity.
      all: cbn [Nat.eqb];
        destruct (Nat.eqb (length oks) (length rest)); [|exact Hr'].
      all: rewrite Hr'; f_equal; apply pair_equal_spec; split;
        [apply pair_equal_spec; split; [reflexivity|lia]|lia].
Qed.

End LoopFacts.

(** ** The body of a run *)

Section RunFacts.

Variable net : list Event -> Response.
Variable proc : list Event -> Completed.

Lemma get_goodlinks_spec w :
  spec (get_goodlinks proc) w (fun r evs =>
    evs = [ERun OsaLinks] /\
    match r with
    | Return L => fetched proc (trace w) L
    | Raise _ => returncode (proc (trace w ++ [ERun OsaLinks])) <> 0%Z
    end).
Proof.
  unfold get_goodlinks. apply spec_bind, spec_run.
  unfold fetched. cbv zeta.
  destruct (returncode _ =? 0)%Z eqn:E; simpl.
  - apply spec_ret. apply Z.eqb_eq in E. auto.
  - apply Z.eqb_neq in E. destruct (_ || _); apply spec_raise; auto.
Qed.

Lemma synced_of_quiet w evs :
  forallb is_quiet evs = true -> synced_of (world_after w evs) = synced_of w.
Proof.
  intros H. unfold synced_of, world_after. simpl.
  rewrite quiet_state; auto.
Qed.

Lemma enumerate1_length {X} (l : list X) : length (enumerate1 l) = length l.
Proof.
  unfold enumerate1. rewrite length_combine, length_seq. lia.
Qed.

Lemma log_would_sync_spec to_sync : forall w,
  spec (log_would_sync to_sync) w (fun r evs =>
    r = Return tt /\ forallb is_quiet evs = true).
Proof.
  induction to_sync as [|l rest IH]; intros w; simpl.
  - apply spec_ret. auto.
  - apply spec_bind, spec_log. cbv beta iota.
    eapply spec_mono; [apply IH|]. cbv beta. intros r evs [-> H].
    simpl. auto.
Qed.

Lemma marks_cons e evs : marks (e :: evs) = marks [e] ++ marks evs.
Proof. apply (marks_app [e]). Qed.

Lemma reports_cons e evs : reports (e :: evs) = reports [e] ++ reports evs.
Proof. apply (reports_app [e]). Qed.

Lemma sync_body_spec config args w :
  spec (sync_body net proc config args) w (fun r evs =>
    (evs = [ERun OsaLinks] /\
     returncode (proc (trace w ++ [ERun OsaLinks])) <> 0%Z /\
     exists e, r = Raise e) \/
    exists L body,
      evs = ERun OsaLinks :: body /\
      fetched proc (trace w) L /\
      run_outcome net config args L (synced_of w) r body).
Proof.
  unfold sync_body. apply spec_bind.
  eapply spec_mono; [apply get_goodlinks_spec|]. cbv beta.
  intros [L|e] evs [-> HL]; [|left; eauto].
  apply spec_bind, spec_load. rewrite synced_of_quiet by reflexivity.
  cbv zeta. apply spec_bind, spec_log. cbv beta iota.
  unfold run_outcome. cbv zeta.
  remember (to_sync_of L (synced_of w)) as P eqn:EP.
  destruct (dry_run args).
  - apply spec_bind.
    eapply spec_mono; [apply log_would_sync_spec|]. cbv beta.
    intros r evs1 [-> Hq].
    apply spec_log. right. eexists L, _.
    split; [reflexivity|]. split; [exact HL|]. split; [|reflexivity].
    simpl. rewrite forallb_app, Hq. reflexivity.
  - destruct P as [|l0 P'].
    + apply spec_log. right. eexists L, _.
      split; [reflexivity|]. split; [exact HL|]. rewrite <- EP. auto.
    + apply spec_bind.
      eapply spec_mono; [apply sync_loop_spec|]. cbv beta.
      intros r evs (oks & Hlen & Hposs & Hmarks & Hrep & Hr).
      rewrite enumerate1_length in *.
      destruct (Nat.eqb (length oks) (length (l0 :: P'))) eqn:E.
      * subst r. apply spec_bind, spec_save. apply spec_log.
        right. eexists L, _.
        split; [reflexivity|]. split; [exact HL|]. rewrite <- EP.
        exists oks. split; [exact Hlen|]. split; [exact Hposs|].
        rewrite E. unfold run_marks. rewrite E.
        cbn [app].
        rewrite marks_cons, reports_cons, !marks_app,
          !reports_app, Hmarks, Hrep.
        auto.
      * destruct Hr as [-> Hab]. right. eexists L, _.
        split; [reflexivity|]. split; [exact HL|]. rewrite <- EP.
        exists oks. split; [exact Hlen|]. split; [exact Hposs|].
        rewrite E. unfold run_marks. rewrite E, app_nil_r.
        cbn [app].
        rewrite marks_cons, reports_cons, Hmarks, Hrep.
        auto.
Qed.

Lemma load_config_spec w :
  spec load_config w (fun r evs =>
    evs = [] /\
    match config_file w with
    | Some c => r = Return (with_defaults c)
    | None => r = Raise FileNotFoundError
    end).
Proof.
  unfold spec, load_config. destruct (config_file w) as [c|];
    eexists _, []; rewrite world_after_nil; auto.
Qed.

Lemma close_goodlinks_spec was_running w :
  spec (close_goodlinks proc was_running) w (fun r evs =>
    r = Return tt /\ forallb is_quiet evs = true).
Proof.
  unfold close_goodlinks. destruct was_running; simpl.
  - apply spec_ret. auto.
  - apply spec_bind, spec_log. cbv beta iota.
    apply spec_try_except.
    eapply spec_mono; [apply emits_quit_goodlinks|]. cbv beta.
    intros [[]|e] evs H.
    + simpl. auto.
    + apply spec_log. simpl. rewrite forallb_app, H. auto.
Qed.

(** A run either stays quiet (no configuration, GoodLinks not ready, the
    source failing) or is the body of a run between quiet events. *)
Lemma cmd_sync_spec args w :
  spec (cmd_sync net proc args) w (fun r evs =>
    forallb is_quiet evs = true \/
    exists c pre L body post,
      config_file w = Some c /\
      evs = pre ++ ERun OsaLinks :: body ++ post /\
      forallb is_quiet pre = true /\
      forallb is_quiet post = true /\
      fetched proc (trace w ++ pre) L /\
      run_outcome net (with_defaults c) args L (synced_of w) r body).
Proof.
  unfold cmd_sync. apply spec_bind.
  eapply spec_mono; [apply load_config_spec|]. cbv beta.
  intros r evs [-> Hc]. destruct (config_file w) as [c|] eqn:Ec; subst r;
    [|left; reflexivity].
  apply spec_bind, spec_log. cbv beta iota.
  apply spec_bind.
  eapply spec_mono; [apply emits_is_goodlinks_running|]. cbv beta.
  intros [was_running|e] evs1 H1; [|left; simpl; exact H1].
  apply spec_bind.
  eapply spec_mono; [apply emits_ensure_goodlinks_running|]. cbv beta.
  intros [ready|e] evs2 H2; [|left; simpl; rewrite forallb_app, H1, H2; reflexivity].
  destruct ready; simpl negb; cbv iota.
  - apply spec_try_finally.
    eapply spec_mono; [apply sync_body_spec|]. cbv beta.
    intros r evs3 H3.
    eapply spec_mono; [apply close_goodlinks_spec|]. cbv beta.
    intros ? evs4 [-> H4].
    destruct H3 as [[-> _]|(L & body & -> & HL & Hout)].
    + left. simpl. rewrite !forallb_app, H1, H2. simpl. exact H4.
    + right. exists c, ([ELog INFO MsgStarting] ++ evs1 ++ evs2), L, body, evs4.
      split; [reflexivity|].
      split; [simpl; rewrite <- !app_assoc; reflexivity|].
      split; [simpl; rewrite forallb_app, H1, H2; reflexivity|].
      split; [exact H4|].
      rewrite !world_after_app in *. simpl in HL.
      rewrite synced_of_quiet in Hout
        by (simpl; rewrite forallb_app, H1, H2; reflexivity).
      split; [exact HL|exact Hout].
  - apply spec_log. left. simpl. rewrite !forallb_app, H1, H2. reflexivity.
Qed.

End RunFacts.

(** ** From specifications to worlds *)

Lemma events_since_world_after w evs : events_since w (world_after w evs) = evs.
Proof.
  unfold events_since, world_after. simpl. apply drop_app_length.
Qed.

Lemma spec_events {A} (m : M A) w (P : Result A -> list Event -> Prop) :
  spec m w P ->
  snd (m w) = world_after w (events_since w (snd (m w))) /\
  P (fst (m w)) (events_since w (snd (m w))).
Proof.
  intros (r & evs & E & HP). rewrite E. simpl.
  rewrite events_since_world_after. auto.
Qed.

(** ** Claims about the publisher *)

(** Claim C1, evaluated on the code.  The claim asks for pauses of 2, 4 and
    8 seconds before the three retries, as the comment of line 223 does.
    With [max_retries = 3] and a service that answers every request with
    HTTP 503, or lets every request time out, or refuses every connection,
    the publisher makes four requests and returns [False], but it pauses
    1, 2 and 4 seconds: [attempt] starts at 0 and the pause is
    [2 ** attempt]. *)
Theorem retry_pauses_are_1_2_4 :
  Forall (fun fault =>
    forall u t user pw w,
      let out := add_to_instapaper (always fault) u t user pw 3 w in
      let evs := events_since w (snd out) in
      fst out = Return false /\
      posts evs = [(u, t); (u, t); (u, t); (u, t)] /\
      sleeps evs = [1; 2; 4]%Z)
    [Resp 503; Timeout; ConnectionError].
Proof.
  apply Forall_cons_2; [|apply Forall_cons_2; [|apply Forall_cons_2;
    [|apply Forall_nil_2]]].
  all: intros u t user pw w out evs; subst out evs.
  all: match goal with
       | |- context [add_to_instapaper ?n _ _ _ _ _ _] =>
           assert (H : spec (add_to_instapaper n u t user pw 3) w
                         (fun r evs => r = Return false /\
                            posts evs = [(u, t); (u, t); (u, t); (u, t)] /\
                            sleeps evs = [1; 2; 4]%Z))
       end.
  all: try (apply spec_events in H; tauto).
  all: unfold add_to_instapaper; simpl.
  all: repeat (first [ apply spec_bind, spec_post
                     | apply spec_bind, spec_log
                     | apply spec_bind, spec_sleep
                     | apply spec_log
                     | apply spec_ret ]; unfold always; cbv beta iota; simpl).
  all: auto.
Qed.

(** Claim C10.  With a negative [max_retries], [range(max_retries + 1)] is
    empty: the loop body never runs, nothing is sent or logged, and the
    publisher returns [False]. *)
Theorem negative_max_retries_fails_without_request
    (net : list Event -> Response) (u t user pw : string) (mr : Z) (w : World) :
  (mr < 0)%Z ->
  range (mr + 1) = [] /\
  add_to_instapaper net u t user pw mr w = (Return false, w).
Proof.
  intros H. assert (E : range (mr + 1) = []).
  { unfold range. replace (Z.to_nat (mr + 1)) with 0 by lia. reflexivity. }
  split; [exact E|]. unfold add_to_instapaper. rewrite E. reflexivity.
Qed.

Lemma negative_max_retries_witness :
  range (-1 + 1) = [] /\
  add_to_instapaper (always (Resp 201)) "https://example.com/A" "Article A"
    "reader@example.com" "secret" (-1) fresh = (Return false, fresh).
Proof.
  apply negative_max_retries_fails_without_request. lia.
Defined.

Lemma spec_exact {A} (m : M A) w r0 evs0 :
  spec m w (fun r evs => r = r0 /\ evs = evs0) ->
  m w = (r0, world_after w evs0).
Proof. intros (r & evs & E & -> & ->). exact E. Qed.

(** Claim C4, as amended.  One attempt that is answered with a status below
    500 other than 403 ends the call at once, whatever attempts remain:
    with [True] for 201 and with [False] for every other such status, 400
    and the success statuses other than 201 included.  Nothing is sent
    again and there is no pause; statuses other than 201 and 400 are logged
    as a warning. *)
Theorem status_below_500_is_final
    (net : list Event -> Response) (u t user pw : string) (mr attempt : Z)
    (rest : list Z) (w : World) (code : Z) :
  net (trace w ++ [EPost u t user pw]) = Resp code ->
  code <> 403%Z ->
  (code < 500)%Z ->
  attempt_loop net u t user pw mr (attempt :: rest) w
  = (Return (code =? 201)%Z, world_after w (attempt_events u t user pw code)).
Proof.
  intros Hnet H403 H500. apply spec_exact.
  cbn [attempt_loop]. apply spec_bind, spec_post. rewrite Hnet.
  cbv beta iota. unfold attempt_events.
  destruct (code =? 201)%Z eqn:E201; [apply spec_ret; auto|].
  destruct (code =? 403)%Z eqn:E403; [lia|].
  destruct (code =? 400)%Z eqn:E400; [apply spec_ret; auto|].
  destruct (code >=? 500)%Z eqn:E500; [lia|].
  apply spec_bind, spec_log. apply spec_ret. auto.
Qed.

Lemma status_below_500_is_final_witness :
  attempt_loop (always (Resp 200)) "https://example.com/A" "Article A"
    "reader@example.com" "secret" 3 (0 :: [1; 2; 3])%Z fresh
  = (Return (200 =? 201)%Z,
     world_after fresh
       (attempt_events "https://example.com/A" "Article A"
          "reader@example.com" "secret" 200)).
Proof.
  apply status_below_500_is_final; [reflexivity|lia|lia].
Defined.

(** Claim C4 as stated fails: 200 is a success status, and a service that
    answers 200 makes the publisher return [False]. *)
Lemma status_200_is_a_failure :
  is_success_status 200 = true /\
  fst (add_to_instapaper (always (Resp 200)) "https://example.com/A"
         "Article A" "reader@example.com" "secret" 3 fresh)
  = Return false.
Proof. split; reflexivity. Qed.

(** ** The bookkeeping of the loop *)

Lemma snd_enumerate1 {X} (l : list X) : map snd (enumerate1 l) = l.
Proof.
  unfold enumerate1. generalize 1. induction l as [|x l IH]; intros k.
  - reflexivity.
  - simpl. f_equal. apply IH.
Qed.

Lemma published_loop_marks items : forall oks S,
  published (loop_marks items oks S)
  = map (fun item => id (snd item)) (take (Datatypes.S (length oks)) items).
Proof.
  induction items as [|[i l] items IH]; intros oks S; [reflexivity|].
  cbn [loop_marks]. destruct oks as [|ok oks].
  - reflexivity.
  - change (EPublish (id l) :: ?x) with ([EPublish (id l)] ++ x).
    rewrite !published_app, IH.
    destruct (Nat.eqb (i mod 10) 0); reflexivity.
Qed.

Lemma loop_synced_bounds items (B : gset string) : forall oks S,
  S ⊆ B ->
  (forall item, item ∈ items -> id (snd item) ∈ B) ->
  S ⊆ loop_synced items oks S /\
  loop_synced items oks S ⊆ B /\
  Forall (fun ids => S ⊆ ids /\ ids ⊆ B) (saves (loop_marks items oks S)).
Proof.
  induction items as [|[i l] items IH]; intros oks S HS HB.
  - simpl. destruct oks; auto.
  - assert (Hl : id l ∈ B) by (apply (HB (i, l)); left).
    assert (HB' : forall item, item ∈ items -> id (snd item) ∈ B)
      by (intros item Hin; apply HB; now right).
    destruct oks as [|ok oks]; [simpl; auto|].
    cbn [loop_synced loop_marks].
    set (S' := if ok then {[id l]} ∪ S else S).
    assert (HS' : S ⊆ S' /\ S' ⊆ B) by (subst S'; destruct ok; set_solver).
    destruct (IH oks S' (proj2 HS') HB') as (H1 & H2 & H3).
    split; [set_solver|]. split; [exact H2|].
    change (EPublish (id l) :: ?x) with ([EPublish (id l)] ++ x).
    rewrite !saves_app.
    assert (H3' : Forall (fun ids => S ⊆ ids /\ ids ⊆ B)
                    (saves (loop_marks items oks S'))).
    { eapply Forall_impl; [exact H3|]. simpl. intros ids [? ?]. set_solver. }
    destruct (Nat.eqb (i mod 10) 0); simpl; [constructor|]; tauto.
Qed.

Lemma count_false_zero oks : count_false oks = 0 -> oks = repeat true (length oks).
Proof.
  induction oks as [|[] oks IH]; intros H; [reflexivity| |].
  - rewrite count_false_cons in H. simpl in *. f_equal. auto.
  - rewrite count_false_cons in H. simpl in H. discriminate.
Qed.

Lemma loop_synced_all_true items : forall S,
  loop_synced items (repeat true (length items)) S
  = list_to_set (map (fun item => id (snd item)) items) ∪ S.
Proof.
  induction items as [|[i l] items IH]; intros S; simpl.
  - set_solver.
  - rewrite IH. set_solver.
Qed.

(** ** Whole runs *)

Lemma run_outcome_quiet net config args L S r body :
  dry_run args = true \/ to_sync_of L S = [] ->
  run_outcome net config args L S r body ->
  forallb is_quiet body = true.
Proof.
  unfold run_outcome. cbv zeta. intros [H|H] Hout.
  - rewrite H in Hout. tauto.
  - rewrite H in Hout. destruct (dry_run args); tauto.
Qed.

(** The marks of the body, whatever the arguments. *)
Lemma run_outcome_marks net config args L S r body :
  run_outcome net config args L S r body ->
  let P := to_sync_of L S in
  (marks body = [] /\ reports body = []) \/
  exists oks,
    length oks <= length P /\
    Forall2 (possible_outcome net config args)
            (take (length oks) (enumerate1 P)) oks /\
    marks body = run_marks P oks S /\
    reports body
    = (if Nat.eqb (length oks) (length P)
       then [(count_true oks, count_false oks)] else []) /\
    (if Nat.eqb (length oks) (length P)
     then r = Return tt
     else r = Raise AuthenticationFailed /\
          exists item, enumerate1 P !! length oks = Some item /\
                       possible_abort net config args item).
Proof.
  unfold run_outcome. cbv zeta. intros Hout.
  destruct (dry_run args);
    [left; split; [apply quiet_marks|apply quiet_reports]; tauto|].
  destruct (to_sync_of L S) as [|l0 P'];
    [left; split; [apply quiet_marks|apply quiet_reports]; tauto|].
  destruct Hout as (oks & Hlen & Hposs & Hmarks & Hrest).
  right. exists oks. split; [exact Hlen|]. split; [exact Hposs|].
  split; [exact Hmarks|].
  destruct (Nat.eqb (length oks) (length (l0 :: P'))); tauto.
Qed.

Section WholeRuns.

Variable net : list Event -> Response.
Variable proc : list Event -> Completed.

Lemma source_yields_fetched L tr L' :
  source_yields proc L -> fetched proc tr L' -> L' = L.
Proof.
  intros HL [_ ->]. apply (HL (tr ++ [ERun OsaLinks])). apply last_snoc.
Qed.

(** A run seen from outside: the world it leaves, and either only quiet
    events or the outcome of the body for the records it fetched. *)
Lemma cmd_sync_run args w :
  let out := cmd_sync net proc args w in
  let evs := events_since w (snd out) in
  snd out = world_after w evs /\
  (forallb is_quiet evs = true \/
   exists c tr L body,
     config_file w = Some c /\
     fetched proc tr L /\
     marks evs = marks body /\
     reports evs = reports body /\
     posts evs = posts body /\
     run_outcome net (with_defaults c) args L (synced_of w) (fst out) body).
Proof.
  cbv zeta.
  destruct (spec_events _ _ _ (cmd_sync_spec net proc args w)) as [Hw H].
  split; [exact Hw|].
  destruct H as [H|(c & pre & L & body & post & Hc & -> & Hpre & Hpost & HL & Hout)];
    [left; exact H|].
  right. exists c, (trace w ++ pre), L, body.
  split; [exact Hc|]. split; [exact HL|].
  change (ERun OsaLinks :: body ++ post)
    with ([ERun OsaLinks] ++ body ++ post).
  rewrite !marks_app, !reports_app, !posts_app.
  rewrite (quiet_marks pre), (quiet_marks post), (quiet_reports pre),
    (quiet_reports post), (quiet_posts pre), (quiet_posts post) by assumption.
  simpl. rewrite !app_nil_r. auto.
Qed.

End WholeRuns.

Lemma published_run_marks P oks S :
  published (run_marks P oks S)
  = take (Datatypes.S (length oks)) (map id P).
Proof.
  unfold run_marks. rewrite published_app, published_loop_marks.
  replace (published (if Nat.eqb (length oks) (length P) then _ else _))
    with (@nil string) by (destruct (Nat.eqb _ _); reflexivity).
  rewrite app_nil_r.
  replace (map id P) with (map id (map snd (enumerate1 P)))
    by (now rewrite snd_enumerate1).
  rewrite List.map_map, firstn_map. reflexivity.
Qed.

Lemma saves_run_marks P oks S :
  saves (run_marks P oks S)
  = saves (loop_marks (enumerate1 P) oks S)
    ++ (if Nat.eqb (length oks) (length P)
        then [loop_synced (enumerate1 P) oks S] else []).
Proof.
  unfold run_marks. rewrite saves_app.
  destruct (Nat.eqb _ _); reflexivity.
Qed.

Lemma enumerate1_ids P item :
  item ∈ enumerate1 P -> id (snd item) ∈ (list_to_set (map id P) : gset string).
Proof.
  intros H. apply elem_of_list_to_set, list_elem_of_In, in_map.
  rewrite <- (snd_enumerate1 P). apply in_map, list_elem_of_In, H.
Qed.

Lemma synced_of_after w evs :
  synced_of (world_after w evs)
  = match last (saves evs) with Some ids => ids | None => synced_of w end.
Proof.
  unfold synced_of, world_after, final_state. simpl.
  destruct (last (saves evs)); reflexivity.
Qed.

Lemma to_sync_ids L S x :
  x ∈ (list_to_set (map id (to_sync_of L S)) : gset string) ->
  (x ∉ S) /\ exists l, l ∈ L /\ id l = x.
Proof.
  rewrite elem_of_list_to_set, list_elem_of_In, in_map_iff.
  intros (l & <- & Hl). apply list_elem_of_In in Hl.
  unfold to_sync_of in Hl. apply list_elem_of_filter in Hl as [H1 H2].
  eauto.
Qed.

Section RunHelpers.

Variable net : list Event -> Response.
Variable proc : list Event -> Completed.

(** The publish calls of a run are an initial part of the pending list,
    and all of it when the run reaches its report. *)
Lemma run_published args w L :
  source_yields proc L ->
  let evs := events_since w (snd (cmd_sync net proc args w)) in
  let P := to_sync_of L (synced_of w) in
  exists k, published evs = take k (map id P) /\
            (reports evs <> [] -> length P <= k).
Proof.
  intros HL. cbv zeta.
  destruct (cmd_sync_run net proc args w) as [_ H]. cbv zeta in H.
  destruct H as [H|(c & tr & L' & body & Hc & HL' & Hm & Hr & _ & Hout)].
  - exists 0. rewrite quiet_published, quiet_reports by exact H. simpl.
    split; [reflexivity|congruence].
  - rewrite (source_yields_fetched proc L tr L' HL HL') in Hout.
    apply run_outcome_marks in Hout. cbv zeta in Hout.
    rewrite <- published_marks, Hm, Hr.
    destruct Hout as [[-> ->]|(oks & Hlen & _ & -> & -> & _)].
    + exists 0. split; [reflexivity|congruence].
    + exists (Datatypes.S (length oks)).
      split; [apply published_run_marks|].
      destruct (Nat.eqb (length oks) _) eqn:E; [|congruence].
      apply Nat.eqb_eq in E. lia.
Qed.

(** Every set a run writes lies between the set it loaded and that set
    extended with the ids of the pending records. *)
Lemma run_saves args w :
  let evs := events_since w (snd (cmd_sync net proc args w)) in
  let S := synced_of w in
  saves evs = [] \/
  exists tr L,
    fetched proc tr L /\
    Forall (fun ids => S ⊆ ids /\
                       ids ⊆ S ∪ list_to_set (map id (to_sync_of L S)))
           (saves evs).
Proof.
  cbv zeta.
  destruct (cmd_sync_run net proc args w) as [_ H]. cbv zeta in H.
  destruct H as [H|(c & tr & L' & body & Hc & HL' & Hm & Hr & _ & Hout)].
  - left. apply quiet_saves, H.
  - apply run_outcome_marks in Hout. cbv zeta in Hout.
    rewrite <- saves_marks, Hm.
    destruct Hout as [[-> _]|(oks & Hlen & _ & -> & _)]; [left; reflexivity|].
    right. exists tr, L'. split; [exact HL'|].
    rewrite saves_run_marks.
    set (S := synced_of w). set (P := to_sync_of L' S).
    destruct (loop_synced_bounds (enumerate1 P)
                (S ∪ list_to_set (map id P)) oks S) as (H1 & H2 & H3).
    { set_solver. }
    { intros item Hin. apply elem_of_union_r.
      apply enumerate1_ids, Hin. }
    apply Forall_app. split; [exact H3|].
    destruct (Nat.eqb _ _); constructor; auto.
Qed.

End RunHelpers.

(** ** Claims about the orchestrator *)

(** Claim C8.  A dry run sends no request, makes no publish call, writes
    nothing to the state file and leaves it as it was, whatever the source
    holds, whatever was synced before and however the service and the
    system behave. *)
Theorem dry_run_has_no_effects
    (net : list Event -> Response) (proc : list Event -> Completed)
    (args : Args) (w : World) :
  dry_run args = true ->
  let w' := snd (cmd_sync net proc args w) in
  let evs := events_since w w' in
  trace w' = trace w ++ evs /\
  posts evs = [] /\
  published evs = [] /\
  saves evs = [] /\
  state_file w' = state_file w.
Proof.
  intros Hdry. cbv zeta.
  destruct (cmd_sync_run net proc args w) as [Hw H]. cbv zeta in H.
  set (evs := events_since w (snd (cmd_sync net proc args w))) in *.
  assert (Hq : posts evs = [] /\ marks evs = []).
  { destruct H as [H|(c & tr & L & body & _ & _ & Hm & _ & Hp & Hout)].
    - split; [apply quiet_posts|apply quiet_marks]; exact H.
    - apply run_outcome_quiet in Hout; [|left; exact Hdry].
      rewrite Hm, Hp. split; [apply quiet_posts|apply quiet_marks]; exact Hout. }
  destruct Hq as [Hp Hm].
  assert (Hs : saves evs = []) by (rewrite <- saves_marks, Hm; reflexivity).
  rewrite Hw. simpl. unfold final_state. rewrite Hs.
  rewrite <- published_marks, Hm. auto.
Qed.

Lemma dry_run_has_no_effects_witness :
  let w' := snd (cmd_sync (always (Resp 201)) (goodlinks_with (samples 3))
                   dry_args fresh) in
  let evs := events_since fresh w' in
  trace w' = trace fresh ++ evs /\
  posts evs = [] /\
  published evs = [] /\
  saves evs = [] /\
  state_file w' = state_file fresh.
Proof.
  apply (dry_run_has_no_effects (always (Resp 201))
           (goodlinks_with (samples 3)) dry_args fresh).
  reflexivity.
Defined.

(** Claim C3, as amended.  The orchestrator does not merge records that
    carry the same id: each fetched record whose id is not in the loaded
    set is a pending item of its own, and the publish calls of a run are,
    in order, those of an initial part of the pending list, and of the
    whole list when the run reaches its final report.  An id carried by
    several pending records is published once per record. *)
Theorem one_publish_call_per_pending_record
    (net : list Event -> Response) (proc : list Event -> Completed)
    (args : Args) (w : World) (L : list Link) :
  source_yields proc L ->
  let evs := events_since w (snd (cmd_sync net proc args w)) in
  let P := to_sync_of L (synced_of w) in
  published evs `prefix_of` map id P /\
  (reports evs <> [] -> published evs = map id P).
Proof.
  intros HL. cbv zeta.
  destruct (run_published net proc args w L HL) as (k & Hk & Hrep).
  cbv zeta in Hk, Hrep. rewrite Hk. split; [apply prefix_take|].
  intros Hne. apply take_ge. rewrite length_map. auto.
Qed.

Lemma one_publish_call_per_pending_record_witness :
  let evs := events_since fresh
               (snd (cmd_sync (always (Resp 201)) (goodlinks_with twice)
                       default_args fresh)) in
  let P := to_sync_of twice (synced_of fresh) in
  published evs `prefix_of` map id P /\
  (reports evs <> [] -> published evs = map id P).
Proof.
  apply (one_publish_call_per_pending_record (always (Resp 201))
           (goodlinks_with twice) default_args fresh twice).
  intros tr Htr. unfold goodlinks_with. rewrite Htr.
  split; vm_compute; reflexivity.
Defined.

(** Claim C3 as stated fails: when the source lists the same id twice, the
    run makes two publish calls for that id. *)
Lemma duplicate_id_is_published_twice :
  map id twice = ["A"; "A"] /\
  published
    (events_since fresh
       (snd (cmd_sync (always (Resp 201)) (goodlinks_with twice)
               default_args fresh)))
  = ["A"; "A"].
Proof. split; vm_compute; reflexivity. Qed.

Lemma to_sync_of_pending S L : pending_of S L (to_sync_of L S).
Proof.
  unfold to_sync_of. induction L as [|l L IH]; [constructor|].
  rewrite filter_cons. destruct (decide (id l ∉ S)) as [H|H].
  - now constructor.
  - apply pending_skip; [|exact IH].
    destruct (decide (id l ∈ S)); [assumption|contradiction].
Qed.

Lemma pending_of_to_sync S L P : pending_of S L P -> P = to_sync_of L S.
Proof.
  unfold to_sync_of. induction 1 as [|l L P Hl _ IH|l L P Hl _ IH].
  - reflexivity.
  - rewrite filter_cons_True by exact Hl. now f_equal.
  - rewrite filter_cons_False by (intros Hn; now apply Hn). exact IH.
Qed.

(** ** Runs that reach the loop *)

Lemma try_finally_ret {A} (body : M A) w :
  try_finally body (ret tt) w = body w.
Proof. unfold try_finally, ret. destruct (body w). reflexivity. Qed.

Lemma bind_assoc {A B C} (m : M A) (f : A -> M B) (k : B -> M C) w :
  bind (bind m f) k w = bind m (fun a => bind (f a) k) w.
Proof. unfold bind. destruct (m w) as [[a|e] w']; reflexivity. Qed.

Lemma bind_ret {A B} (a : A) (k : A -> M B) w : bind (ret a) k w = k a w.
Proof. reflexivity. Qed.

Lemma bind_log {B} lvl m (k : unit -> M B) w :
  bind (log lvl m) k w = k tt (world_after w [ELog lvl m]).
Proof. reflexivity. Qed.

Lemma bind_run {B} proc c (k : Completed -> M B) w :
  bind (run proc c) k w
  = k (proc (trace w ++ [ERun c])) (world_after w [ERun c]).
Proof. reflexivity. Qed.

Lemma bind_raise {A B} e (k : A -> M B) w : bind (raise e) k w = (Raise e, w).
Proof. reflexivity. Qed.

Lemma bind_sleep {B} secs (k : unit -> M B) w :
  bind (sleep secs) k w = k tt (world_after w [ESleep secs]).
Proof. reflexivity. Qed.

Lemma bind_load_config {B} (k : Config -> M B) w c :
  config_file w = Some c -> bind load_config k w = k (with_defaults c) w.
Proof. intros Hc. unfold bind, load_config. rewrite Hc. reflexivity. Qed.

Lemma bind_load {B} (k : gset string -> M B) w :
  bind load_synced_ids k w = k (synced_of w) w.
Proof.
  unfold bind, load_synced_ids, synced_of. destruct (state_file w); reflexivity.
Qed.

(** With a configuration in place and GoodLinks running, a run is its body
    after the two checks of lines 280 and 283. *)
Lemma cmd_sync_up net proc args w c :
  config_file w = Some c ->
  goodlinks_up proc ->
  cmd_sync net proc args w
  = sync_body net proc (with_defaults c) args
      (world_after w [ELog INFO MsgStarting; ERun Pgrep; ERun Pgrep]).
Proof.
  intros Hc Hup.
  assert (Hrun : forall tr, (returncode (proc (tr ++ [ERun Pgrep])) =? 0)%Z = true)
    by (intros tr; apply Z.eqb_eq, Hup, last_snoc).
  unfold cmd_sync.
  assert (E0 : forall B (k : Config -> M B),
             bind load_config k w = k (with_defaults c) w).
  { intros B k. unfold bind, load_config. rewrite Hc. reflexivity. }
  rewrite E0, bind_log.
  unfold is_goodlinks_running at 1. rewrite bind_assoc, bind_run, bind_ret, Hrun.
  unfold ensure_goodlinks_running, is_goodlinks_running.
  rewrite !bind_assoc, bind_run, bind_ret, Hrun, bind_ret.
  unfold close_goodlinks. cbn [negb].
  rewrite try_finally_ret, !world_after_app. reflexivity.
Qed.

(** With a configuration that allows launching, and GoodLinks not running
    until it is opened, a run is its body, and the [finally] clause that
    closes GoodLinks, after the events of the launch. *)
Lemma cmd_sync_launched net proc args w c :
  config_file w = Some c ->
  launch_goodlinks_key c <> Some false ->
  opens_on_request proc ->
  ~ In (ERun OpenApp) (trace w) ->
  cmd_sync net proc args w
  = try_finally (sync_body net proc (with_defaults c) args)
      (close_goodlinks proc false) (world_after w launch_events).
Proof.
  intros Hc Hkey Hproc Hfresh.
  assert (Hno : forall l, ~ In (ERun OpenApp) l ->
            (returncode (proc (trace (world_after w l) ++ [ERun Pgrep])) =? 0)%Z
            = false).
  { intros l Hl. apply Z.eqb_neq. intros E.
    apply (proj2 (Hproc _)) in E; [|apply last_snoc].
    simpl in E. rewrite !in_app_iff in E. simpl in E. intuition discriminate. }
  assert (Hyes : forall l, In (ERun OpenApp) l ->
            (returncode (proc (trace (world_after w l) ++ [ERun Pgrep])) =? 0)%Z
            = true).
  { intros l Hl. apply Z.eqb_eq. apply (proj2 (Hproc _)); [apply last_snoc|].
    simpl. rewrite !in_app_iff. auto. }
  assert (Hopen : forall l,
            (returncode (proc (trace (world_after w l) ++ [ERun OpenApp])) =? 0)%Z
            = true).
  { intros l. apply Z.eqb_eq. apply (proj1 (Hproc _)), last_snoc. }
  assert (Hflag : match launch_goodlinks_key (with_defaults c) with
                  | Some b => b | None => true end = true).
  { unfold with_defaults. cbn [launch_goodlinks_key].
    destruct (launch_goodlinks_key c) as [[|]|]; [reflexivity|congruence|reflexivity]. }
  unfold cmd_sync. rewrite (bind_load_config _ w c Hc), bind_log.
  unfold is_goodlinks_running at 1.
  rewrite bind_assoc, bind_run, bind_ret, Hno by (simpl; intuition discriminate).
  rewrite world_after_app.
  unfold ensure_goodlinks_running, is_goodlinks_running at 1.
  rewrite !bind_assoc, bind_run, bind_ret, Hno by (simpl; intuition discriminate).
  rewrite world_after_app. cbv iota. rewrite Hflag.
  rewrite bind_assoc, bind_log, world_after_app.
  unfold launch_goodlinks, run_checked.
  rewrite !bind_assoc, bind_run, Hopen, bind_ret, world_after_app.
  rewrite bind_sleep, world_after_app.
  unfold is_goodlinks_running.
  rewrite !bind_assoc, bind_run, bind_ret, Hyes by (simpl; tauto).
  rewrite world_after_app, bind_ret. reflexivity.
Qed.

Lemma goodlinks_closed_with_opens L : opens_on_request (goodlinks_closed_with L).
Proof.
  intros tr. unfold goodlinks_closed_with. split; intros Htr; rewrite Htr.
  - reflexivity.
  - simpl. destruct (existsb is_open tr) eqn:E.
    + apply existsb_exists in E as (e & Hin & He).
      destruct e as [| |[]| | |]; try discriminate. tauto.
    + split; [discriminate|]. intros Hin.
      assert (existsb is_open tr = true)
        by (apply existsb_exists; exists (ERun OpenApp); auto).
      congruence.
Qed.

(** The [finally] clause after a run that opened GoodLinks: whatever the
    body did, GoodLinks is asked to quit, a failure to quit is only logged,
    and the result of the body stands. *)
Lemma finally_closes_goodlinks {A} proc (body : M A) w0 :
  exists tail,
    try_finally body (close_goodlinks proc false) w0
    = (fst (body w0),
       world_after (snd (body w0))
         (ELog INFO MsgClosing :: ERun OsaQuit :: tail)) /\
    (tail = [] \/ tail = [ELog DEBUG MsgQuitFailed]).
Proof.
  unfold try_finally. destruct (body w0) as [r w1]. cbn [fst snd].
  unfold close_goodlinks. cbn [negb]. rewrite bind_log.
  unfold try_except at 1, quit_goodlinks, try_except, run_checked.
  rewrite !bind_assoc, bind_run.
  destruct (returncode _ =? 0)%Z.
  - rewrite !bind_ret. unfold ret. rewrite world_after_app.
    exists []. split; [reflexivity|auto].
  - rewrite bind_raise.
    change (log DEBUG MsgQuitFailed ?x)
      with (Return tt, world_after x [ELog DEBUG MsgQuitFailed]).
    cbv iota. rewrite !world_after_app.
    exists [ELog DEBUG MsgQuitFailed]. split; [reflexivity|auto].
Qed.

(** The flushes of a loop in which every call succeeds, when the loop
    resumes after the records [pre]. *)
Lemma saves_all_true (S : gset string) P : forall pre,
  saves (loop_marks (combine (seq (Datatypes.S (length pre)) (length P)) P)
           (repeat true (length P)) (list_to_set (map id pre) ∪ S))
  = map (fun i => list_to_set (map id (take i (pre ++ P))) ∪ S)
      (List.filter (fun i => Nat.eqb (i mod 10) 0)
         (seq (Datatypes.S (length pre)) (length P))).
Proof.
  induction P as [|l P IH]; intros pre; [reflexivity|].
  cbn [length seq combine repeat loop_marks].
  change (EPublish (id l) :: ?x) with ([EPublish (id l)] ++ x).
  rewrite !saves_app.
  assert (Eset : {[id l]} ∪ (list_to_set (map id pre) ∪ S)
                 = list_to_set (map id (pre ++ [l])) ∪ S :> gset string).
  { rewrite map_app, list_to_set_app_L. simpl. set_solver. }
  assert (Etake : take (Datatypes.S (length pre)) (pre ++ l :: P) = pre ++ [l]).
  { change (pre ++ l :: P) with (pre ++ [l] ++ P). rewrite app_assoc.
    apply take_app_length'. rewrite length_app. simpl. lia. }
  rewrite Eset. specialize (IH (pre ++ [l])).
  rewrite length_app in IH. simpl length in IH.
  rewrite Nat.add_1_r, <- app_assoc in IH. simpl app in IH.
  rewrite IH. cbn [List.filter].
  destruct (Nat.eqb (Datatypes.S (length pre) mod 10) 0).
  - cbn [map]. rewrite Etake. reflexivity.
  - reflexivity.
Qed.

Lemma ids_enumerate1 P :
  map (fun item : nat * Link => id (snd item)) (enumerate1 P) = map id P.
Proof. rewrite <- (List.map_map snd id), snd_enumerate1. reflexivity. Qed.

Lemma saves_run_all_true P (S : gset string) :
  saves (run_marks P (repeat true (length P)) S)
  = map (fun i => list_to_set (map id (take i P)) ∪ S)
      (List.filter (fun i => Nat.eqb (i mod 10) 0) (seq 1 (length P)))
    ++ [list_to_set (map id P) ∪ S].
Proof.
  rewrite saves_run_marks, repeat_length, Nat.eqb_refl.
  pose proof (saves_all_true S P []) as H. simpl in H.
  rewrite (union_empty_l_L S) in H. unfold enumerate1. rewrite H.
  f_equal. f_equal.
  pose proof (loop_synced_all_true (enumerate1 P) S) as H'.
  rewrite enumerate1_length, ids_enumerate1 in H'. exact H'.
Qed.

(** The case spelled out in claim C7: 25 pending records that all succeed.
    The marks of the run, with each flush shown as the number of ids it
    holds: a flush of 10 ids after the 10th call, of 20 ids after the 20th
    and of 25 ids after the last. *)
Example flushes_of_25_items :
  map (fun e => match e with
                | EPublish i => inl i
                | ESave ids => inr (size ids)
                | _ => inl ""
                end)
      (marks (events_since fresh
                (snd (cmd_sync (always (Resp 201))
                        (goodlinks_with (samples 25)) default_args fresh))))
  = [inl "A"; inl "B"; inl "C"; inl "D"; inl "E";
     inl "F"; inl "G"; inl "H"; inl "I"; inl "J"; inr 10;
     inl "K"; inl "L"; inl "M"; inl "N"; inl "O";
     inl "P"; inl "Q"; inl "R"; inl "S"; inl "T"; inr 20;
     inl "U"; inl "V"; inl "W"; inl "X"; inl "Y"; inr 25].
Proof. vm_compute. reflexivity. Qed.

(** ** Successive runs *)

Lemma events_since_app w w1 w2 evs1 evs2 :
  trace w1 = trace w ++ evs1 ->
  trace w2 = trace w1 ++ evs2 ->
  events_since w w2 = evs1 ++ evs2.
Proof.
  intros H1 H2. unfold events_since. rewrite H2, H1, <- app_assoc.
  apply drop_app_length.
Qed.

Lemma sync_run_extends run w :
  sync_run run w = world_after w (events_since w (sync_run run w)).
Proof.
  unfold sync_run.
  destruct (cmd_sync_run (run_net run) (run_proc run) (run_args run) w)
    as [Hw _]. exact Hw.
Qed.

Lemma sync_runs_extends runs : forall w,
  trace (sync_runs runs w) = trace w ++ events_since w (sync_runs runs w).
Proof.
  induction runs as [|run rest IH]; intros w; simpl.
  - unfold events_since. rewrite drop_all, app_nil_r. reflexivity.
  - pose proof (sync_run_extends run w) as H1.
    pose proof (IH (sync_run run w)) as H2.
    set (w1 := sync_run run w) in *.
    assert (T1 : trace w1 = trace w ++ events_since w w1)
      by (rewrite H1 at 1; reflexivity).
    rewrite (events_since_app w w1 _ _ _ T1 H2).
    rewrite H2, T1 at 1. rewrite <- app_assoc. reflexivity.
Qed.

(** A run makes no publish call for an id it finds in the state file, and
    keeps that id in the state file. *)
Lemma run_skips_synced net proc args w x :
  x ∈ synced_of w ->
  let w' := snd (cmd_sync net proc args w) in
  x ∈ synced_of w' /\ x ∉ published (events_since w w').
Proof.
  intros Hx. cbv zeta.
  destruct (cmd_sync_run net proc args w) as [Hw H]. cbv zeta in H.
  split.
  - rewrite Hw, synced_of_after.
    destruct (last (saves _)) as [ids|] eqn:El; [|exact Hx].
    apply last_Some_elem_of in El.
    destruct (run_saves net proc args w) as [E|(tr & L & _ & HF)];
      cbv zeta in *; [rewrite E in El; inversion El|].
    rewrite List.Forall_forall in HF.
    apply (HF ids); [apply list_elem_of_In, El|exact Hx].
  - destruct H as [H|(c & tr & L & body & _ & _ & Hm & _ & _ & Hout)].
    + rewrite quiet_published by exact H. apply not_elem_of_nil.
    + apply run_outcome_marks in Hout. cbv zeta in Hout.
      rewrite <- published_marks, Hm.
      destruct Hout as [[-> _]|(oks & _ & _ & -> & _)];
        [apply not_elem_of_nil|].
      rewrite published_run_marks. intros Hin.
      apply (subseteq_take _ _ x) in Hin.
      assert (Hset : x ∈ (list_to_set (map id (to_sync_of L (synced_of w)))
                          : gset string))
        by (apply elem_of_list_to_set, Hin).
      apply to_sync_ids in Hset. tauto.
Qed.

Lemma to_sync_of_covered L (T : gset string) :
  (forall l, l ∈ L -> id l ∈ T) -> to_sync_of L T = [].
Proof.
  unfold to_sync_of. induction L as [|l L IH]; intros H; [reflexivity|].
  rewrite filter_cons_False by (intros Hn; apply Hn, H; left).
  apply IH. intros l' Hl'. apply H. now right.
Qed.

Lemma to_sync_of_done L (S : gset string) :
  to_sync_of L (list_to_set (map id (to_sync_of L S)) ∪ S) = [].
Proof.
  apply to_sync_of_covered. intros l Hl.
  destruct (decide (id l ∈ S)) as [HS|HS]; [set_solver|].
  apply elem_of_union_l, elem_of_list_to_set, list_elem_of_In, in_map.
  apply list_elem_of_In. unfold to_sync_of. apply list_elem_of_filter. auto.
Qed.

(** After a run that reports no failed item, the state file holds the
    loaded set and the id of every pending record. *)
Lemma run_without_failure net proc args w L n :
  source_yields proc L ->
  let w1 := snd (cmd_sync net proc args w) in
  reports (events_since w w1) = [(n, 0)] ->
  synced_of w1 = list_to_set (map id (to_sync_of L (synced_of w))) ∪ synced_of w.
Proof.
  intros HL. cbv zeta. intros Hrep.
  destruct (cmd_sync_run net proc args w) as [Hw H]. cbv zeta in H.
  destruct H as [H|(c & tr & L' & body & _ & HL' & Hm & Hr & _ & Hout)].
  { rewrite quiet_reports in Hrep by exact H. discriminate. }
  rewrite (source_yields_fetched proc L tr L' HL HL') in Hout.
  apply run_outcome_marks in Hout. cbv zeta in Hout.
  rewrite Hr in Hrep.
  destruct Hout as [[_ E]|(oks & _ & _ & Hmarks & Hreports & _)];
    [rewrite E in Hrep; discriminate|].
  rewrite Hreports in Hrep.
  destruct (Nat.eqb (length oks) _) eqn:E; [|discriminate].
  apply Nat.eqb_eq in E. injection Hrep as _ Hcf.
  apply count_false_zero in Hcf. rewrite E in Hcf.
  rewrite Hw, synced_of_after, <- saves_marks, Hm, Hmarks, Hcf.
  rewrite saves_run_all_true, last_snoc. reflexivity.
Qed.

(** A run that finds nothing pending makes no publish call and sends no
    request. *)
Lemma run_with_nothing_pending net proc args w L :
  source_yields proc L ->
  to_sync_of L (synced_of w) = [] ->
  let evs := events_since w (snd (cmd_sync net proc args w)) in
  published evs = [] /\ posts evs = [].
Proof.
  intros HL HP. cbv zeta.
  destruct (cmd_sync_run net proc args w) as [_ H]. cbv zeta in H.
  destruct H as [H|(c & tr & L' & body & _ & HL' & Hm & _ & Hp & Hout)].
  - split; [apply quiet_published|apply quiet_posts]; exact H.
  - rewrite (source_yields_fetched proc L tr L' HL HL') in Hout.
    apply run_outcome_quiet in Hout; [|right; exact HP].
    rewrite <- published_marks, Hm, Hp, quiet_marks, quiet_posts by exact Hout.
    auto.
Qed.

(** Claim C5, as amended.  A run that finds the id of every fetched record
    in the state file makes no publish call and sends no request.  This is
    what a second run finds, on the same source and from the world the
    first run left, when the first run reported no failed item.  And over
    any sequence of runs, an id that is in the state file stays there and
    is never published again. *)
Theorem synced_ids_are_not_published_again :
  (forall net proc args w L,
     source_yields proc L ->
     (forall l, l ∈ L -> id l ∈ synced_of w) ->
     let evs := events_since w (snd (cmd_sync net proc args w)) in
     published evs = [] /\ posts evs = []) /\
  (forall net proc args w L n,
     source_yields proc L ->
     let w1 := snd (cmd_sync net proc args w) in
     reports (events_since w w1) = [(n, 0)] ->
     forall net' args',
       let evs2 := events_since w1 (snd (cmd_sync net' proc args' w1)) in
       published evs2 = [] /\ posts evs2 = []) /\
  (forall runs w x,
     x ∈ synced_of w ->
     x ∈ synced_of (sync_runs runs w) /\
     x ∉ published (events_since w (sync_runs runs w))).
Proof.
  split; [|split].
  - intros net proc args w L HL Hall.
    apply (run_with_nothing_pending net proc args w L HL).
    apply to_sync_of_covered, Hall.
  - intros net proc args w L n HL w1 Hrep net' args'.
    apply (run_with_nothing_pending net' proc args' w1 L HL).
    subst w1. rewrite (run_without_failure net proc args w L n HL Hrep).
    apply to_sync_of_done.
  - induction runs as [|run rest IH]; intros w x Hx; simpl.
    + split; [exact Hx|]. unfold events_since. rewrite drop_all.
      apply not_elem_of_nil.
    + destruct (run_skips_synced (run_net run) (run_proc run) (run_args run)
                  w x Hx) as [H1 H2].
      fold (sync_run run w) in H1, H2.
      destruct (IH (sync_run run w) x H1) as [H3 H4].
      split; [exact H3|].
      pose proof (sync_run_extends run w) as T1.
      pose proof (sync_runs_extends rest (sync_run run w)) as T2.
      set (w1 := sync_run run w) in *.
      assert (T1' : trace w1 = trace w ++ events_since w w1)
        by (rewrite T1 at 1; reflexivity).
      rewrite (events_since_app w w1 _ _ _ T1' T2), published_app.
      rewrite elem_of_app. tauto.
Qed.

Lemma synced_ids_are_not_published_again_witness :
  (let evs := events_since synced_A
                (snd (cmd_sync (always (Resp 201)) (goodlinks_with (samples 1))
                        default_args synced_A)) in
   published evs = [] /\ posts evs = []) /\
  (let w1 := snd (cmd_sync (always (Resp 201)) (goodlinks_with (samples 3))
                    default_args fresh) in
   let evs2 := events_since w1
                 (snd (cmd_sync (always (Resp 201))
                         (goodlinks_with (samples 3)) default_args w1)) in
   published evs2 = [] /\ posts evs2 = []) /\
  ("A" ∈ synced_of (sync_runs [accepting_run; rejecting_run] synced_A) /\
   "A" ∉ published (events_since synced_A
                      (sync_runs [accepting_run; rejecting_run] synced_A))).
Proof.
  destruct synced_ids_are_not_published_again as (H1 & H2 & H3).
  split; [|split].
  - apply (H1 (always (Resp 201)) (goodlinks_with (samples 1)) default_args
              synced_A (samples 1)).
    + intros tr Htr. unfold goodlinks_with. rewrite Htr.
      split; vm_compute; reflexivity.
    + intros l Hl. apply list_elem_of_singleton in Hl. subst l.
      vm_compute. reflexivity.
  - apply (H2 (always (Resp 201)) (goodlinks_with (samples 3)) default_args
              fresh (samples 3) 3).
    + intros tr Htr. unfold goodlinks_with. rewrite Htr.
      split; vm_compute; reflexivity.
    + vm_compute. reflexivity.
  - apply (H3 [accepting_run; rejecting_run] synced_A "A").
    vm_compute. reflexivity.
Defined.

(** Claim C5 as stated fails: a record the service rejects with HTTP 400 is
    published again by a second run, although neither the source nor the
    state changed in between. *)
Lemma rejected_item_is_published_by_the_second_run :
  let net := always (Resp 400) in
  let proc := goodlinks_with (samples 1) in
  let w1 := snd (cmd_sync net proc default_args fresh) in
  let w2 := snd (cmd_sync net proc default_args w1) in
  fst (cmd_sync net proc default_args fresh) = Return tt /\
  published (events_since w1 w2) = ["A"] /\
  posts (events_since w1 w2) = [("https://example.com/A", "Article A")].
Proof. vm_compute. auto. Qed.

(** Claim C2, evaluated on the code.  Five records are pending; the service
    accepts the first and answers the second with HTTP 403.  The run stops
    there with the exception of line 213 and the remaining three records
    are never tried, as the claim says.  But nothing is written to the
    state file: the exception leaves [cmd_sync] before the flush of line
    324, and the [finally] clause only closes GoodLinks.  The record that
    was accepted is not recorded, and the next run publishes it again. *)
Theorem abort_on_403_skips_the_final_flush :
  let net := by_url (fun u => if String.eqb u "https://example.com/B"
                              then Resp 403 else Resp 201) in
  let proc := goodlinks_with (samples 5) in
  let out := cmd_sync net proc default_args fresh in
  let evs := events_since fresh (snd out) in
  fst out = Raise AuthenticationFailed /\
  published evs = ["A"; "B"] /\
  posts evs = [("https://example.com/A", "Article A");
               ("https://example.com/B", "Article B")] /\
  In (ELog INFO (MsgItemOk 1 5 "Article A")) evs /\
  saves evs = [] /\
  state_file (snd out) = None /\
  published (events_since (snd out)
               (snd (cmd_sync (always (Resp 201)) proc default_args (snd out))))
  = ["A"; "B"; "C"; "D"; "E"].
Proof. vm_compute. intuition. Qed.

(** ** The last flush of a loop *)

Lemma loop_synced_nil items S : loop_synced items [] S = S.
Proof. destruct items as [|[i l] items]; reflexivity. Qed.

Lemma saves_loop_marks_nil items S : saves (loop_marks items [] S) = [].
Proof. destruct items as [|[i l] items]; reflexivity. Qed.

Lemma saves_loop_marks_snoc items : forall oks S ok i l,
  items !! length oks = Some (i, l) ->
  saves (loop_marks items (oks ++ [ok]) S)
  = saves (loop_marks items oks S)
    ++ (if Nat.eqb (i mod 10) 0
        then [loop_synced items (oks ++ [ok]) S] else []).
Proof.
  induction items as [|[i0 l0] items IH]; intros oks S ok i l Hlk;
    [discriminate|].
  destruct oks as [|ok0 oks].
  - simpl in Hlk. injection Hlk as -> ->.
    cbn [app loop_marks loop_synced].
    change (EPublish (id l) :: ?x) with ([EPublish (id l)] ++ x).
    rewrite !saves_app, saves_loop_marks_nil, loop_synced_nil, app_nil_r.
    destruct (Nat.eqb (i mod 10) 0); reflexivity.
  - simpl in Hlk. cbn [app loop_marks loop_synced].
    change (EPublish (id l0) :: ?x) with ([EPublish (id l0)] ++ x).
    rewrite !saves_app, (IH oks _ ok i l Hlk), <- !app_assoc. reflexivity.
Qed.

Lemma combine_seq_lookup {X} (P : list X) : forall a k item,
  combine (seq a (length P)) P !! k = Some item -> fst item = a + k.
Proof.
  induction P as [|x P IH]; intros a k item H; [discriminate|].
  destruct k as [|k]; simpl in H.
  - injection H as <-. simpl. lia.
  - apply IH in H. lia.
Qed.

Lemma last_save_enumerate P : forall oks S,
  length oks <= length P ->
  last (saves (loop_marks (enumerate1 P) oks S))
  = if Nat.leb 10 (length oks)
    then Some (loop_synced (enumerate1 P)
                 (take (10 * (length oks / 10)) oks) S)
    else None.
Proof.
  induction oks as [|ok oks IH] using rev_ind; intros S Hlen.
  - rewrite saves_loop_marks_nil. reflexivity.
  - rewrite length_app in *. simpl length in *.
    remember (length oks) as k eqn:Hk.
    destruct (lookup_lt_is_Some_2 (enumerate1 P) k) as [[i l] Hlk];
      [rewrite enumerate1_length; lia|].
    assert (Hi : i = 1 + k) by (apply (combine_seq_lookup P 1 k (i, l) Hlk)).
    rewrite Hk in Hlk. rewrite (saves_loop_marks_snoc _ oks S ok i l Hlk).
    pose proof (Nat.div_mod_eq k 10) as Dk.
    pose proof (Nat.mod_upper_bound k 10 ltac:(lia)) as Mk.
    pose proof (Nat.div_mod_eq (k + 1) 10) as Dk1.
    pose proof (Nat.mod_upper_bound (k + 1) 10 ltac:(lia)) as Mk1.
    subst i. replace (1 + k) with (k + 1) by lia.
    destruct (Nat.eqb_spec ((k + 1) mod 10) 0) as [E|E].
    + rewrite last_snoc.
      destruct (Nat.leb_spec 10 (k + 1)) as [_|H]; [|lia].
      rewrite take_ge by (rewrite length_app; cbn [length]; lia). reflexivity.
    + rewrite app_nil_r, (IH S) by lia.
      assert (Hq : (k + 1) / 10 = k / 10) by lia.
      rewrite Hq.
      destruct (Nat.leb_spec 10 k), (Nat.leb_spec 10 (k + 1)); try lia;
        [|reflexivity].
      rewrite take_app_le by lia. reflexivity.
Qed.

(** ** The calls of a run and their outcomes *)

(** A computation has one result and one list of events: two
    specifications of it hold together. *)
Lemma spec_and {A} (m : M A) w (P Q : Result A -> list Event -> Prop) :
  spec m w P -> spec m w Q -> spec m w (fun r evs => P r evs /\ Q r evs).
Proof.
  intros (r & evs & E & HP) (r' & evs' & E' & HQ).
  rewrite E in E'. assert (Hr : r' = r) by congruence.
  assert (Hw : trace (world_after w evs) = trace (world_after w evs'))
    by congruence.
  simpl in Hw. apply app_inv_head in Hw.
  rewrite <- Hw, Hr in HQ. exists r, evs. auto.
Qed.

Lemma answers_app net a : forall tr b,
  answers net tr (a ++ b) = answers net tr a ++ answers net (tr ++ a) b.
Proof.
  induction a as [|e a IH]; intros tr b; simpl.
  - rewrite app_nil_r. reflexivity.
  - rewrite IH, <- !app_assoc. reflexivity.
Qed.

Lemma answers_silent net q : forall tr,
  posts q = [] -> answers net tr q = [].
Proof.
  induction q as [|e q IH]; intros tr H; [reflexivity|].
  destruct e; simpl in *; try discriminate; now apply IH.
Qed.

Lemma calls_from_cons net tr e rest :
  calls_from net tr (e :: rest)
  = match e with
    | EPublish x =>
        ([], (x, fst (calls_from net (tr ++ [e]) rest))
             :: snd (calls_from net (tr ++ [e]) rest))
    | EPost _ _ _ _ =>
        (net (tr ++ [e]) :: fst (calls_from net (tr ++ [e]) rest),
         snd (calls_from net (tr ++ [e]) rest))
    | _ => calls_from net (tr ++ [e]) rest
    end.
Proof.
  cbn [calls_from]. destruct (calls_from net (tr ++ [e]) rest) as [rs cs].
  destruct e; reflexivity.
Qed.

(** Events of one call come before the mark of the next. *)
Lemma calls_from_app net a : forall tr b,
  published a = [] ->
  calls_from net tr (a ++ b)
  = (answers net tr a ++ fst (calls_from net (tr ++ a) b),
     snd (calls_from net (tr ++ a) b)).
Proof.
  induction a as [|e a IH]; intros tr b Ha.
  - simpl. rewrite app_nil_r. now destruct (calls_from net tr b).
  - assert (Ha' : published a = []) by (destruct e; simpl in Ha; congruence).
    change ((e :: a) ++ b) with (e :: (a ++ b)).
    rewrite calls_from_cons, (IH _ _ Ha'), <- !app_assoc. simpl.
    destruct e; try reflexivity. discriminate.
Qed.

Lemma calls_from_silent net q : forall tr,
  posts q = [] -> published q = [] -> calls_from net tr q = ([], []).
Proof.
  induction q as [|e q IH]; intros tr H1 H2; [reflexivity|].
  rewrite calls_from_cons.
  destruct e; simpl in *; try discriminate; now rewrite IH.
Qed.

(** Events without request and without mark, before and after the calls,
    change nothing. *)
Lemma calls_from_silent_l net q tr b :
  posts q = [] -> published q = [] ->
  calls_from net tr (q ++ b) = calls_from net (tr ++ q) b.
Proof.
  intros H1 H2. rewrite calls_from_app by exact H2.
  rewrite answers_silent by exact H1. now destruct (calls_from net (tr ++ q) b).
Qed.

Lemma calls_from_silent_r net q a : forall tr,
  posts q = [] -> published q = [] ->
  calls_from net tr (a ++ q) = calls_from net tr a.
Proof.
  induction a as [|e a IH]; intros tr H1 H2.
  - simpl. now rewrite calls_from_silent.
  - change ((e :: a) ++ q) with (e :: (a ++ q)).
    rewrite !calls_from_cons, (IH _ H1 H2). reflexivity.
Qed.

Lemma answers_silent_l net q tr b :
  posts q = [] -> answers net tr (q ++ b) = answers net (tr ++ q) b.
Proof. intros H. now rewrite answers_app, answers_silent. Qed.

Lemma answers_silent_r net q tr a :
  posts q = [] -> answers net tr (a ++ q) = answers net tr a.
Proof.
  intros H. now rewrite answers_app, (answers_silent net q), app_nil_r.
Qed.

Lemma calls_from_net net evs tr :
  forallb is_net evs = true ->
  calls_from net tr evs = (answers net tr evs, []).
Proof.
  intros H. rewrite <- (app_nil_r evs) at 1.
  rewrite calls_from_app.
  - simpl. rewrite app_nil_r. reflexivity.
  - rewrite <- published_marks, net_marks by exact H. reflexivity.
Qed.

Lemma call_result_cons a rs :
  call_result [a] = Some false -> call_result (a :: rs) = call_result rs.
Proof.
  intros H. destruct rs as [|b rs]; [exact H|].
  unfold call_result. rewrite last_cons_cons. reflexivity.
Qed.

Lemma answers_fit_app b rs rs' :
  answers_fit false rs -> answers_fit b rs' -> answers_fit b (rs ++ rs').
Proof.
  intros H H'. destruct b; simpl in *.
  - destruct H' as (pre & -> & Hpre). exists (rs ++ pre).
    split; [now rewrite app_assoc|]. now apply Forall_app.
  - now apply Forall_app.
Qed.

(** A call of the publisher against the answers it got: its result is the
    one [call_result] reads off its last answer, and status 403 is the last
    answer of a call that raises and no answer of any other call. *)
Lemma attempt_loop_answers net u t user pw mr attempts : forall w,
  spec (attempt_loop net u t user pw mr attempts) w (fun r evs =>
    let rs := answers net (trace w) evs in
    match r with
    | Return b => call_result rs = Some b /\ answers_fit false rs
    | Raise e =>
        e = AuthenticationFailed /\ call_result rs = None /\ answers_fit true rs
    end).
Proof.
  induction attempts as [|attempt rest IH]; intros w; cbn [attempt_loop].
  - apply spec_ret. simpl. split; [reflexivity|constructor].
  - apply spec_bind, spec_post.
    set (a := net (trace w ++ [EPost u t user pw])).
    assert (Hstop : forall b (m : M bool) tail,
              (forall w', m w' = (Return b, world_after w' tail)) ->
              forallb is_quiet tail = true ->
              call_result [a] = Some b -> a <> Resp 403 ->
              spec m (world_after w [EPost u t user pw])
                (fun r' evs' =>
                   let rs := answers net (trace w) ([EPost u t user pw] ++ evs') in
                   match r' with
                   | Return b => call_result rs = Some b /\ answers_fit false rs
                   | Raise e =>
                       e = AuthenticationFailed /\ call_result rs = None /\
                       answers_fit true rs
                   end)).
    { intros b m tail Hm Hq Hb Ha. exists (Return b), tail.
      split; [apply Hm|]. cbv zeta. simpl. fold a.
      rewrite answers_silent by (now apply quiet_posts).
      split; [exact Hb|]. repeat constructor. exact Ha. }
    assert (Hretry : forall lvl msg,
              call_result [a] = Some false -> a <> Resp 403 ->
              spec (log lvl msg;; sleep (2 ^ attempt);;
                    attempt_loop net u t user pw mr rest)
                (world_after w [EPost u t user pw])
                (fun r' evs' =>
                   let rs := answers net (trace w) ([EPost u t user pw] ++ evs') in
                   match r' with
                   | Return b => call_result rs = Some b /\ answers_fit false rs
                   | Raise e =>
                       e = AuthenticationFailed /\ call_result rs = None /\
                       answers_fit true rs
                   end)).
    { intros lvl msg Hb Ha. apply spec_bind, spec_log. apply spec_bind, spec_sleep.
      eapply spec_mono; [apply IH|]. cbv beta zeta. simpl. fold a.
      intros [b|e] evs'.
      - intros [H1 H2]. rewrite call_result_cons by exact Hb.
        split; [exact H1|]. constructor; assumption.
      - intros (-> & H1 & pre & E & Hpre). rewrite call_result_cons by exact Hb.
        split; [reflexivity|]. split; [exact H1|].
        exists (a :: pre). rewrite E. split; [reflexivity|].
        constructor; assumption. }
    assert (Hlog : forall lvl msg (b : bool) w',
              (log lvl msg;; ret b) w' = (Return b, world_after w' [ELog lvl msg]))
      by reflexivity.
    assert (Hret : forall (b : bool) w', ret b w' = (Return b, world_after w' []))
      by (intros; unfold ret; now rewrite world_after_nil).
    destruct a as [status_code| | |] eqn:Ea.
    + destruct (status_code =? 201)%Z eqn:E201.
      { apply Z.eqb_eq in E201. subst status_code.
        apply (Hstop true _ []); [apply Hret|reflexivity|reflexivity|discriminate]. }
      destruct (status_code =? 403)%Z eqn:E403.
      { apply Z.eqb_eq in E403. subst status_code.
        apply spec_raise. cbv zeta. simpl. fold a. rewrite Ea.
        split; [reflexivity|]. split; [reflexivity|].
        exists []. split; [reflexivity|constructor]. }
      assert (Hb : call_result [Resp status_code] = Some false)
        by (unfold call_result; simpl; rewrite E403, E201; reflexivity).
      assert (Ha : Resp status_code <> Resp 403)
        by (intros E; injection E as ->; discriminate).
      destruct (status_code =? 400)%Z;
        [apply (Hstop false _ []); [apply Hret|reflexivity|exact Hb|exact Ha]|].
      destruct (status_code >=? 500)%Z.
      * destruct (attempt <? mr)%Z; [now apply Hretry|].
        apply (Hstop false _ [ELog ERROR (MsgServerMax status_code)]);
          [apply Hlog|reflexivity|exact Hb|exact Ha].
      * apply (Hstop false _ [ELog WARNING (MsgStatusSkip status_code)]);
          [apply Hlog|reflexivity|exact Hb|exact Ha].
    + destruct (attempt <? mr)%Z; [apply Hretry; [reflexivity|discriminate]|].
      apply (Hstop false _ [ELog ERROR MsgTimeoutMax]);
        [apply Hlog|reflexivity|reflexivity|discriminate].
    + destruct (attempt <? mr)%Z; [apply Hretry; [reflexivity|discriminate]|].
      apply (Hstop false _ [ELog ERROR MsgConnMax]);
        [apply Hlog|reflexivity|reflexivity|discriminate].
    + apply (Hstop false _ [ELog ERROR (MsgNetworkError u)]);
        [apply Hlog|reflexivity|reflexivity|discriminate].
Qed.

Lemma add_to_instapaper_answers net u t user pw mr w :
  spec (add_to_instapaper net u t user pw mr) w (fun r evs =>
    forallb is_net evs = true /\
    let rs := answers net (trace w) evs in
    match r with
    | Return b => call_result rs = Some b /\ answers_fit false rs
    | Raise e =>
        e = AuthenticationFailed /\ call_result rs = None /\ answers_fit true rs
    end).
Proof.
  apply spec_and; [apply emits_add_to_instapaper|apply attempt_loop_answers].
Qed.

(** One call of the loop that raises. *)
Lemma loop_shape_raise net i link rest synced new_count failed_count tr evs :
  forallb is_net evs = true ->
  call_result (answers net (tr ++ [EPublish (id link)]) evs) = None ->
  answers_fit true (answers net (tr ++ [EPublish (id link)]) evs) ->
  loop_shape net ((i, link) :: rest) synced new_count failed_count tr
    (Raise AuthenticationFailed) ([EPublish (id link)] ++ evs).
Proof.
  intros Hnet Hres Hfit. exists []. cbn [length loop_results loop_marks Nat.eqb].
  change ([EPublish (id link)] ++ evs) with (EPublish (id link) :: evs).
  unfold results, calls.
  rewrite calls_from_cons, (calls_from_net net evs _ Hnet).
  cbn [fst snd map]. rewrite Hres.
  split; [lia|]. split; [reflexivity|]. split; [reflexivity|].
  rewrite marks_cons, reports_cons, (net_marks evs), (net_reports evs)
    by exact Hnet.
  split; [reflexivity|]. split; [reflexivity|]. split; [reflexivity|].
  exact Hfit.
Qed.

(** One call of the loop that returns, followed by the rest of the loop. *)
Lemma loop_shape_cons net i link rest synced new_count failed_count tr
    evs (ok : bool) lvl msg nc fc r tail :
  forallb is_net evs = true ->
  call_result (answers net (tr ++ [EPublish (id link)]) evs) = Some ok ->
  answers_fit false (answers net (tr ++ [EPublish (id link)]) evs) ->
  nc = new_count + (if ok then 1 else 0) ->
  fc = failed_count + (if ok then 0 else 1) ->
  reports [ELog lvl msg] = [] ->
  let synced' := if ok then {[ id link ]} ∪ synced else synced in
  let sv := if Nat.eqb (i mod 10) 0 then [ESave synced'] else [] in
  let pre := [EPublish (id link)] ++ evs ++ [ELog lvl msg] ++ sv in
  loop_shape net rest synced' nc fc (tr ++ pre) r tail ->
  loop_shape net ((i, link) :: rest) synced new_count failed_count tr r
    (pre ++ tail).
Proof.
  intros Hnet Hres Hfit -> -> Hmsg synced' sv pre
    (oks & Hlen & Hcalls & Hresults & Hmarks & Hrep & Hr).
  exists (ok :: oks).
  assert (Hsv : published sv = [] /\ reports sv = [] /\ marks sv = sv /\
                forall tr0, answers net tr0 sv = [])
    by (subst sv; destruct (Nat.eqb (i mod 10) 0); repeat split; reflexivity).
  destruct Hsv as (Hsv1 & Hsv2 & Hsv3 & Hsv4).
  assert (Hmid : forall tr0, answers net tr0 ([ELog lvl msg] ++ sv) = [])
    by (intros tr0; simpl; apply Hsv4).
  assert (Hpub : published (evs ++ [ELog lvl msg] ++ sv) = []).
  { rewrite !published_app, Hsv1, <- published_marks, net_marks by exact Hnet.
    reflexivity. }
  subst pre. set (mid := evs ++ [ELog lvl msg] ++ sv) in *.
  set (tr1 := tr ++ [EPublish (id link)]) in *.
  assert (Hassoc : tr ++ [EPublish (id link)] ++ mid = tr1 ++ mid)
    by (subst tr1; now rewrite <- app_assoc).
  rewrite Hassoc in *.
  assert (Hevs : ([EPublish (id link)] ++ mid) ++ tail
                 = EPublish (id link) :: (mid ++ tail))
    by reflexivity.
  assert (Ecalls : calls_from net tr (([EPublish (id link)] ++ mid) ++ tail)
                   = ([], (id link, answers net tr1 evs)
                          :: calls net (tr1 ++ mid) tail)).
  { rewrite Hevs, calls_from_cons. fold tr1.
    rewrite calls_from_app by exact Hpub.
    rewrite Hcalls. cbn [fst snd]. subst mid.
    rewrite answers_app, Hmid, !app_nil_r. reflexivity. }
  assert (Eans : answers net tr (([EPublish (id link)] ++ mid) ++ tail)
                 = answers net tr1 evs ++ answers net (tr1 ++ mid) tail).
  { rewrite Hevs. cbn [answers is_post app]. fold tr1.
    rewrite answers_app. subst mid.
    rewrite (answers_app net evs), Hmid, app_nil_r. reflexivity. }
  cbn [length loop_results loop_marks loop_synced Nat.eqb].
  fold synced'. fold sv.
  split; [lia|].
  split; [unfold calls; rewrite Ecalls; reflexivity|].
  split.
  { unfold results, calls. rewrite Ecalls. cbn [snd map fst]. rewrite Hres.
    f_equal. exact Hresults. }
  split.
  { subst mid. rewrite !marks_app, (net_marks evs) by exact Hnet.
    rewrite Hsv3, Hmarks. reflexivity. }
  split.
  { subst mid. rewrite !reports_app, (net_reports evs) by exact Hnet.
    rewrite Hsv2, Hrep, Hmsg. reflexivity. }
  rewrite Eans, count_true_cons, count_false_cons.
  destruct (Nat.eqb (length oks) (length rest));
    destruct Hr as [-> Hfit']; (split; [|now apply answers_fit_app]);
    [|reflexivity].
  f_equal. apply pair_equal_spec. split; [apply pair_equal_spec; split|];
    [reflexivity|destruct ok; lia|destruct ok; lia].
Qed.

(** The loop against the answers of the service. *)
Lemma sync_loop_shape net config args n items :
  forall synced new_count failed_count w,
    spec (sync_loop net config args n items synced new_count failed_count) w
      (loop_shape net items synced new_count failed_count (trace w)).
Proof.
  induction items as [|[i link] rest IH]; intros synced new_count failed_count w.
  - simpl. apply spec_ret. exists []. simpl.
    rewrite !Nat.add_0_r. repeat split; auto.
  - cbn [sync_loop]. apply spec_bind, spec_mark_publish.
    apply spec_bind.
    eapply spec_mono; [apply add_to_instapaper_answers|]. cbv beta zeta.
    simpl trace. intros [ok|e] evs [Hnet Hr].
    + destruct Hr as [Hres Hfit]. apply spec_bind.
      destruct ok; apply spec_bind, spec_log; cbv beta iota;
        apply spec_ret; cbv beta iota zeta; apply spec_bind;
        (destruct (Nat.eqb (i mod 10) 0) eqn:Hi;
         [apply spec_save|apply spec_ret]); cbv beta iota;
        (eapply spec_mono; [apply IH|]); cbv beta; simpl trace;
        intros r' tail H.
      all: match goal with
           | |- loop_shape _ _ _ _ _ _ _ ([_] ++ _ ++ ([ELog ?lvl ?msg] ++ _) ++ _) =>
               pose proof (loop_shape_cons net i link rest synced new_count
                             failed_count (trace w) evs _ lvl msg _ _ r' tail
                             Hnet Hres Hfit eq_refl eq_refl eq_refl) as Hc
           end.
      all: cbv zeta in Hc; rewrite Hi in Hc.
      all: rewrite <- ?app_assoc in *; simpl app in *; rewrite ?app_nil_r in *.
      all: apply Hc.
      all: replace (S new_count) with (new_count + 1) in H by lia.
      all: replace (S failed_count) with (failed_count + 1) in H by lia.
      all: rewrite ?Nat.add_0_r; exact H.
    + destruct Hr as (-> & Hres & Hfit).
      now apply loop_shape_raise.
Qed.

Lemma log_would_sync_exact P : forall w,
  spec (log_would_sync P) w (fun r evs =>
    r = Return tt /\
    evs = map (fun link =>
                 ELog INFO (MsgWouldSync (PyStr.slice_to 70 (title link)))) P).
Proof.
  induction P as [|l P IH]; intros w; cbn [log_would_sync map].
  - apply spec_ret. auto.
  - apply spec_bind, spec_log. cbv beta iota.
    eapply spec_mono; [apply IH|]. cbv beta. intros r evs [-> ->]. auto.
Qed.

(** The body of a run: either the query of the source fails, and the body
    ends there with the error of [get_goodlinks], or it has the shape of
    [body_shape] for the records fetched. *)
Lemma sync_body_shape net proc config args w :
  spec (sync_body net proc config args) w (fun r evs =>
    (evs = [ERun OsaLinks] /\
     returncode (proc (trace w ++ [ERun OsaLinks])) <> 0%Z /\
     (r = Raise CannotConnect \/ exists err, r = Raise (AppleScriptFailed err)))
    \/
    exists L,
      fetched proc (trace w) L /\
      body_shape net args L (synced_of w) (trace w) r evs).
Proof.
  unfold sync_body. apply spec_bind. unfold get_goodlinks.
  apply spec_bind, spec_run.
  destruct (returncode _ =? 0)%Z eqn:Erc; cbn [negb].
  2:{ apply Z.eqb_neq in Erc.
      destruct (_ || _); apply spec_raise; left; eauto 6. }
  apply Z.eqb_eq in Erc. apply spec_ret.
  set (L := parse_lines _).
  assert (HL : fetched proc (trace w) L) by (split; [exact Erc|reflexivity]).
  apply spec_bind, spec_load. rewrite synced_of_quiet by reflexivity.
  cbv zeta. apply spec_bind, spec_log. cbv beta iota.
  set (S := synced_of w). set (P := to_sync_of L S).
  simpl trace.
  destruct (dry_run args) eqn:Hdry.
  - apply spec_bind.
    eapply spec_mono; [apply log_would_sync_exact|]. cbv beta.
    intros r evs [-> ->]. apply spec_log. right. exists L.
    split; [exact HL|]. unfold body_shape. cbv zeta. fold S P.
    eexists. split; [reflexivity|]. rewrite Hdry. split; reflexivity.
  - destruct P as [|l0 P'] eqn:EP.
    + apply spec_log. right. exists L. split; [exact HL|].
      unfold body_shape. cbv zeta. fold S P. rewrite EP.
      eexists. split; [reflexivity|]. rewrite Hdry. split; reflexivity.
    + rewrite <- EP. apply spec_bind.
      eapply spec_mono; [apply sync_loop_shape|]. cbv beta. simpl trace.
      set (pre := [ERun OsaLinks; ELog INFO (MsgFound (length P) (length L))]).
      replace (((trace w ++ [ERun OsaLinks]) ++ [])
               ++ [ELog INFO (MsgFound (length P) (length L))])
        with (trace w ++ pre)
        by (subst pre; rewrite app_nil_r, <- app_assoc; reflexivity).
      intros r evs (oks & Hlen & Hcalls & Hres & Hmarks & Hrep & Hr).
      rewrite enumerate1_length in *.
      assert (Hshape : forall r' post,
                posts post = [] -> published post = [] ->
                marks post = (if Nat.eqb (length oks) (length P)
                              then [ESave (loop_synced (enumerate1 P) oks S)]
                              else []) ->
                (if Nat.eqb (length oks) (length P)
                 then reports post = [(count_true oks, count_false oks)] /\
                      r' = Return tt /\
                      answers_fit false (answers net (trace w ++ pre) evs)
                 else reports post = [] /\ r' = Raise AuthenticationFailed /\
                      answers_fit true (answers net (trace w ++ pre) evs)) ->
                body_shape net args L S (trace w) r' (pre ++ evs ++ post)).
      { intros r' post Hp1 Hp2 Hp3 Hp4.
        unfold body_shape. cbv zeta. fold P. exists (evs ++ post).
        split; [reflexivity|]. rewrite Hdry, EP, <- EP.
        exists oks. split; [exact Hlen|].
        assert (Ec : calls_from net (trace w) (pre ++ evs ++ post)
                     = ([], calls net (trace w ++ pre) evs)).
        { rewrite calls_from_silent_l by reflexivity.
          rewrite calls_from_silent_r by assumption. exact Hcalls. }
        assert (Ea : answers net (trace w) (pre ++ evs ++ post)
                     = answers net (trace w ++ pre) evs).
        { rewrite answers_silent_l by reflexivity.
          now rewrite answers_silent_r. }
        change (ERun OsaLinks
                :: ELog INFO (MsgFound (length P) (length L)) :: evs ++ post)
          with (pre ++ evs ++ post).
        split; [unfold calls; rewrite Ec; reflexivity|].
        split; [unfold results, calls in *; rewrite Ec; exact Hres|].
        split.
        { rewrite !marks_app, Hmarks, Hp3. unfold run_marks. reflexivity. }
        rewrite Ea, !reports_app, Hrep.
        destruct (Nat.eqb (length oks) (length P));
          destruct Hp4 as (-> & -> & Hfit); auto. }
      destruct (Nat.eqb (length oks) (length P)) eqn:E.
      * destruct Hr as [-> Hfit]. apply spec_bind, spec_save. apply spec_log.
        right. exists L. split; [exact HL|].
        match goal with
        | |- body_shape _ _ _ _ _ _ ?e =>
            replace e with (pre ++ evs
                            ++ [ESave (loop_synced (enumerate1 P) oks S);
                                ELog INFO (MsgDone (0 + count_true oks)
                                             (0 + count_false oks))])
              by (subst pre; simpl; rewrite <- ?app_assoc; reflexivity)
        end.
        apply Hshape; rewrite ?E; auto.
      * destruct Hr as [-> Hfit]. right. exists L. split; [exact HL|].
        match goal with
        | |- body_shape _ _ _ _ _ _ ?e =>
            replace e with (pre ++ evs ++ [])
              by (subst pre; simpl; rewrite ?app_nil_r; reflexivity)
        end.
        apply Hshape; rewrite ?E; auto.
Qed.

Lemma around_quiet evs : forallb is_around evs = true -> forallb is_quiet evs = true.
Proof.
  apply forallb_weaken. intros e. destruct e as [| |[]| |? []|]; auto.
Qed.

Lemma is_goodlinks_running_around proc w :
  spec (is_goodlinks_running proc) w (fun r evs =>
    forallb is_around evs = true /\ exists b, r = Return b).
Proof.
  unfold is_goodlinks_running. apply spec_bind, spec_run. apply spec_ret.
  split; [reflexivity|eauto].
Qed.

Lemma ensure_goodlinks_running_around proc b w :
  spec (ensure_goodlinks_running proc b) w (fun r evs =>
    forallb is_around evs = true /\
    (r = Raise CalledProcessError \/ exists ready, r = Return ready)).
Proof.
  unfold ensure_goodlinks_running, is_goodlinks_running, launch_goodlinks,
    run_checked.
  apply spec_bind, spec_bind, spec_run. apply spec_ret. cbv beta iota.
  destruct (returncode _ =? 0)%Z; [apply spec_ret; split; eauto|].
  destruct b.
  - apply spec_bind, spec_log. cbv beta iota.
    apply spec_bind, spec_bind, spec_bind, spec_run. cbv beta iota.
    destruct (returncode _ =? 0)%Z.
    + apply spec_ret. apply spec_sleep. cbv beta iota.
      apply spec_bind, spec_bind, spec_run. apply spec_ret. cbv beta iota.
      destruct (returncode _ =? 0)%Z; [apply spec_ret; split; eauto|].
      apply spec_bind, spec_log. apply spec_ret. split; eauto.
    + apply spec_raise. split; auto.
  - apply spec_bind, spec_log. apply spec_ret. split; eauto.
Qed.

Lemma close_goodlinks_around proc was_running w :
  spec (close_goodlinks proc was_running) w (fun r evs =>
    r = Return tt /\ forallb is_around evs = true).
Proof.
  unfold close_goodlinks. destruct was_running; cbn [negb].
  - apply spec_ret. auto.
  - apply spec_bind, spec_log. cbv beta iota.
    apply spec_try_except. unfold quit_goodlinks, run_checked.
    apply spec_try_except, spec_bind, spec_bind, spec_run.
    destruct (returncode _ =? 0)%Z.
    + apply spec_ret. apply spec_ret. auto.
    + apply spec_raise. apply spec_log. auto.
Qed.

(** A whole run: it never queries the source; or the query fails; or the
    run is a body of the shape of [body_shape] between the events that
    surround it. *)
Lemma cmd_sync_shape net proc args w :
  spec (cmd_sync net proc args) w (fun r evs =>
    (forallb is_around evs = true /\ r <> Raise AuthenticationFailed)
    \/
    (exists pre post,
       evs = pre ++ ERun OsaLinks :: post /\
       forallb is_around pre = true /\ forallb is_around post = true /\
       returncode (proc (trace w ++ pre ++ [ERun OsaLinks])) <> 0%Z /\
       r <> Raise AuthenticationFailed)
    \/
    (exists L pre body post,
       fetched proc (trace w ++ pre) L /\
       evs = pre ++ body ++ post /\
       forallb is_around pre = true /\ forallb is_around post = true /\
       body_shape net args L (synced_of w) (trace w ++ pre) r body)).
Proof.
  unfold cmd_sync. apply spec_bind.
  eapply spec_mono; [apply load_config_spec|]. cbv beta.
  intros r evs [-> Hc]. destruct (config_file w) as [c|] eqn:Ec; subst r;
    [|left; split; [reflexivity|discriminate]].
  apply spec_bind, spec_log. cbv beta iota.
  apply spec_bind.
  eapply spec_mono; [apply is_goodlinks_running_around|]. cbv beta.
  intros r1 evs1 [H1 [was_running ->]].
  apply spec_bind.
  eapply spec_mono; [apply ensure_goodlinks_running_around|]. cbv beta.
  intros r2 evs2 [H2 [->|[ready ->]]].
  { left. split; [|discriminate].
    simpl. rewrite forallb_app, H1, H2. reflexivity. }
  set (pre := [ELog INFO MsgStarting] ++ evs1 ++ evs2).
  assert (Hpre : forallb is_around pre = true)
    by (subst pre; simpl; rewrite forallb_app, H1, H2; reflexivity).
  destruct ready; cbn [negb].
  2:{ apply spec_log. left. split; [|discriminate].
      change ([] ++ ?x) with x. rewrite !app_assoc, forallb_app.
      rewrite <- !app_assoc. fold pre. rewrite Hpre. reflexivity. }
  apply spec_try_finally.
  eapply spec_mono; [apply sync_body_shape|]. cbv beta.
  intros r3 evs3 H3.
  eapply spec_mono; [apply close_goodlinks_around|]. cbv beta.
  intros ? evs4 [-> H4].
  assert (Etr : trace (world_after
                         (world_after (world_after (world_after w [])
                                         [ELog INFO MsgStarting]) evs1) evs2)
                = trace w ++ pre).
  { subst pre. simpl. rewrite app_nil_r, <- !app_assoc. reflexivity. }
  assert (Esy : synced_of (world_after
                             (world_after (world_after (world_after w [])
                                             [ELog INFO MsgStarting]) evs1) evs2)
                = synced_of w).
  { rewrite !world_after_app. apply synced_of_quiet, around_quiet.
    exact Hpre. }
  rewrite Etr, Esy in H3.
  assert (Eev : [] ++ [ELog INFO MsgStarting] ++ evs1 ++ evs2 ++ evs3 ++ evs4
                = pre ++ evs3 ++ evs4)
    by (subst pre; simpl; rewrite <- !app_assoc; reflexivity).
  rewrite Eev.
  destruct H3 as [(-> & Hrc & Hr)|(L & HL & Hshape)].
  - right. left. exists pre, evs4.
    split; [reflexivity|]. split; [exact Hpre|]. split; [exact H4|].
    split; [rewrite app_assoc; exact Hrc|].
    destruct Hr as [->|[err ->]]; discriminate.
  - right. right. exists L, pre, evs3, evs4. auto.
Qed.

Lemma previewed_app a b : previewed (a ++ b) = previewed a ++ previewed b.
Proof. apply omap_app. Qed.

Lemma around_previewed evs : forallb is_around evs = true -> previewed evs = [].
Proof. apply omap_none_forallb. intros e. destruct e as [| |[]| |? []|]; simpl; congruence. Qed.

Lemma around_not_query evs :
  forallb is_around evs = true -> ~ In (ERun OsaLinks) evs.
Proof.
  intros H Hin. rewrite forallb_forall in H. apply H in Hin. discriminate.
Qed.

Lemma previews_quiet P : forallb is_quiet (previews P) = true.
Proof.
  unfold previews. rewrite forallb_app. simpl. rewrite andb_true_r.
  induction P as [|l P IH]; [reflexivity|exact IH].
Qed.

Lemma previewed_previews P :
  previewed (previews P) = map (fun l => PyStr.slice_to 70 (title l)) P.
Proof.
  unfold previews. rewrite previewed_app. simpl. rewrite app_nil_r.
  induction P as [|l P IH]; [reflexivity|]. simpl. now rewrite IH.
Qed.

Lemma results_quiet net tr evs :
  forallb is_quiet evs = true ->
  results net tr evs = [] /\ answers net tr evs = [].
Proof.
  intros H. unfold results, calls.
  rewrite calls_from_silent, answers_silent
    by (apply quiet_posts || apply quiet_published; exact H).
  auto.
Qed.

(** The events around the body hold no request and no mark: the calls,
    the answers, the marks and the report of the run are those of its
    body. *)
Lemma around_frame net tr pre body post :
  forallb is_around pre = true -> forallb is_around post = true ->
  calls_from net tr (pre ++ body ++ post) = calls_from net (tr ++ pre) body /\
  answers net tr (pre ++ body ++ post) = answers net (tr ++ pre) body /\
  marks (pre ++ body ++ post) = marks body /\
  reports (pre ++ body ++ post) = reports body.
Proof.
  intros Hpre Hpost. apply around_quiet in Hpre, Hpost.
  rewrite calls_from_silent_l, calls_from_silent_r, answers_silent_l,
    answers_silent_r
    by (apply quiet_posts || apply quiet_published; assumption).
  rewrite !marks_app, !reports_app, !(quiet_marks pre), !(quiet_marks post),
    !(quiet_reports pre), !(quiet_reports post) by assumption.
  rewrite !app_nil_r. auto.
Qed.

(** A run seen from outside: the world it leaves, and either only quiet
    events (the source was not queried, or the query failed) or the shape
    of [run_shape] for the records it fetched. *)
Lemma cmd_sync_run_shape net proc args w :
  let out := cmd_sync net proc args w in
  let evs := events_since w (snd out) in
  snd out = world_after w evs /\
  ((forallb is_quiet evs = true /\
    fst out <> Raise AuthenticationFailed /\
    (In (ERun OsaLinks) evs ->
     exists tr, returncode (proc (tr ++ [ERun OsaLinks])) <> 0%Z))
   \/
   exists L tr, fetched proc tr L /\ run_shape net args L w (fst out) evs).
Proof.
  cbv zeta.
  destruct (spec_events _ _ _ (cmd_sync_shape net proc args w)) as [Hw H].
  split; [exact Hw|].
  set (r := fst (cmd_sync net proc args w)) in *.
  set (evs := events_since w (snd (cmd_sync net proc args w))) in *.
  destruct H as [[Hq Hr]|[(pre & post & -> & Hpre & Hpost & Hrc & Hr)
                         |(L & pre & body & post & HL & -> & Hpre & Hpost & Hb)]].
  - left. split; [now apply around_quiet|]. split; [exact Hr|].
    intros Hin. now destruct (around_not_query _ Hq).
  - left. split.
    { rewrite forallb_app. simpl.
      now rewrite (around_quiet _ Hpre), (around_quiet _ Hpost). }
    split; [exact Hr|]. intros _. exists (trace w ++ pre).
    rewrite <- app_assoc. exact Hrc.
  - right. exists L, (trace w ++ pre). split; [exact HL|].
    destruct (around_frame net (trace w) pre body post Hpre Hpost)
      as (Ec & Ea & Em & Er).
    assert (Hqpre := around_quiet _ Hpre).
    assert (Hqpost := around_quiet _ Hpost).
    unfold body_shape in Hb. cbv zeta in Hb.
    destruct Hb as (rest & -> & Hb).
    unfold run_shape. cbv zeta.
    set (S := synced_of w) in *. set (P := to_sync_of L S) in *.
    split; [rewrite in_app_iff; right; left; reflexivity|].
    split; [rewrite in_app_iff; right; right; left; reflexivity|].
    destruct (dry_run args).
    + destruct Hb as [-> ->]. split; [|split; [|reflexivity]].
      * change (ERun OsaLinks :: ELog INFO ?m :: ?x)
          with ([ERun OsaLinks; ELog INFO m] ++ x).
        rewrite !forallb_app, Hqpre, Hqpost, previews_quiet. reflexivity.
      * rewrite !previewed_app, (around_previewed pre), (around_previewed post)
          by assumption.
        rewrite app_nil_r. simpl. apply previewed_previews.
    + destruct P as [|l0 P'] eqn:EP.
      * destruct Hb as [-> ->]. split; [|reflexivity].
        rewrite !forallb_app, Hqpre, Hqpost. reflexivity.
      * destruct Hb as (oks & Hlen & _ & Hres & Hmarks & Hrest).
        exists oks. split; [exact Hlen|].
        split; [unfold results, calls in *; rewrite Ec; exact Hres|].
        split; [rewrite Em; exact Hmarks|].
        rewrite Er, Ea. exact Hrest.
Qed.

(** ** Outcomes and bookkeeping *)

Lemma outcomes_loop_results items : forall oks,
  length oks <= length items -> omap snd (loop_results items oks) = oks.
Proof.
  induction items as [|[i l] items IH]; intros oks H.
  - destruct oks; [reflexivity|simpl in H; lia].
  - destruct oks as [|ok oks]; [reflexivity|].
    simpl in *. f_equal. apply IH. lia.
Qed.

Lemma accepted_loop_results items x : forall oks,
  x ∈ omap accepted (loop_results items oks) <->
  exists j item, items !! j = Some item /\ id (snd item) = x /\
                 oks !! j = Some true.
Proof.
  induction items as [|[i l] items IH]; intros oks.
  - simpl. split; [intros H; inversion H|intros (j & item & H & _); discriminate].
  - destruct oks as [|ok oks].
    + simpl. split; [intros H; inversion H|intros (j & item & _ & _ & H); discriminate].
    + cbn [loop_results omap]. unfold accepted at 1. cbn [fst snd].
      split.
      * intros H.
        assert (Hcases : (ok = true /\ x = id l)
                         \/ x ∈ omap accepted (loop_results items oks)).
        { destruct ok; [|right; exact H].
          apply elem_of_cons in H as [->|H]; auto. }
        destruct Hcases as [[-> ->]|H'].
        -- exists 0, (i, l). auto.
        -- apply IH in H' as (j & item & H1 & H2 & H3).
           exists (Datatypes.S j), item. auto.
      * intros (j & item & H1 & H2 & H3). destruct j as [|j].
        -- simpl in H1, H3. injection H1 as <-. injection H3 as ->.
           simpl in H2. subst x. left.
        -- assert (x ∈ omap accepted (loop_results items oks))
             by (apply IH; eauto).
           destruct ok; [right|]; assumption.
Qed.

(** The in-memory set holds the loaded ids and the ids the service
    accepted, and nothing else. *)
Lemma loop_synced_accepted items : forall oks (S : gset string),
  loop_synced items oks S
  = list_to_set (omap accepted (loop_results items oks)) ∪ S.
Proof.
  induction items as [|[i l] items IH]; intros oks S.
  - simpl. destruct oks; set_solver.
  - destruct oks as [|ok oks]; [simpl; set_solver|].
    cbn [loop_synced loop_results omap]. rewrite IH.
    unfold accepted at 2. cbn [fst snd]. destruct ok; set_solver.
Qed.

Lemma accepted_take items x oks k :
  x ∈ omap accepted (loop_results items (take k oks)) ->
  x ∈ omap accepted (loop_results items oks).
Proof.
  rewrite !accepted_loop_results. intros (j & item & H1 & H2 & H3).
  exists j, item. split; [exact H1|]. split; [exact H2|].
  apply lookup_take_Some in H3. tauto.
Qed.

(** The outcomes read off the trace of a run of the shape [run_shape]. *)
Lemma shape_outcomes net args L w r evs :
  run_shape net args L w r evs ->
  let S := synced_of w in
  let P := to_sync_of L S in
  let oks := outcomes net (trace w) evs in
  length oks <= length P /\
  (dry_run args = true \/ P = [] ->
   forallb is_quiet evs = true /\ r = Return tt /\ oks = [] /\
   results net (trace w) evs = []) /\
  (dry_run args = false -> P <> [] ->
   results net (trace w) evs = loop_results (enumerate1 P) oks /\
   marks evs = run_marks P oks S /\
   if Nat.eqb (length oks) (length P)
   then reports evs = [(count_true oks, count_false oks)] /\ r = Return tt /\
        answers_fit false (answers net (trace w) evs)
   else reports evs = [] /\ r = Raise AuthenticationFailed /\
        answers_fit true (answers net (trace w) evs)).
Proof.
  unfold run_shape. cbv zeta.
  set (S := synced_of w). set (P := to_sync_of L S).
  intros (_ & _ & H).
  assert (Hq : forallb is_quiet evs = true -> r = Return tt ->
               length (outcomes net (trace w) evs) <= length P /\
               (dry_run args = true \/ P = [] ->
                forallb is_quiet evs = true /\ r = Return tt /\
                outcomes net (trace w) evs = [] /\
                results net (trace w) evs = [])).
  { intros Hq Hr. unfold outcomes.
    rewrite (proj1 (results_quiet net (trace w) evs Hq)). simpl.
    split; [lia|]. auto. }
  destruct (dry_run args) eqn:Hdry.
  { destruct H as (Hq' & _ & Hr). destruct (Hq Hq' Hr) as (H1 & H2).
    split; [exact H1|]. split; [exact H2|]. discriminate. }
  destruct P as [|l0 P'] eqn:EP.
  { destruct H as (Hq' & Hr). destruct (Hq Hq' Hr) as (H1 & H2).
    split; [exact H1|]. split; [exact H2|]. congruence. }
  rewrite <- EP in *. destruct H as (oks & Hlen & Hres & Hmarks & Hrest).
  assert (Eo : outcomes net (trace w) evs = oks).
  { unfold outcomes. rewrite Hres. apply outcomes_loop_results.
    now rewrite enumerate1_length. }
  rewrite Eo. split; [exact Hlen|].
  split; [intros [?|?]; [discriminate|congruence]|].
  intros _ _. auto.
Qed.

(** The state file a run of that shape leaves: the bookkeeping of its last
    flush. *)
Lemma shape_state net args L w r evs :
  run_shape net args L w r evs ->
  let S := synced_of w in
  let P := to_sync_of L S in
  let oks := outcomes net (trace w) evs in
  let flushed := match reports evs with
                 | [] => 10 * (length oks / 10)
                 | _ => length oks
                 end in
  synced_of (world_after w evs)
  = loop_synced (enumerate1 P) (take flushed oks) S.
Proof.
  intros H. cbv zeta.
  destruct (shape_outcomes net args L w r evs H) as (Hlen & Hquiet & Hloop).
  cbv zeta in *.
  set (S := synced_of w) in *. set (P := to_sync_of L S) in *.
  set (oks := outcomes net (trace w) evs) in *.
  destruct (dry_run args) eqn:Hdry;
    [|destruct (decide (P = [])) as [HP|HP]].
  1,2: destruct Hquiet as (Hq & _ & -> & _); auto;
       rewrite synced_of_quiet by exact Hq;
       rewrite take_nil; now rewrite loop_synced_nil.
  destruct (Hloop eq_refl HP) as (_ & Hmarks & Hrest).
  rewrite synced_of_after, <- saves_marks, Hmarks, saves_run_marks.
  pose proof (Nat.div_mod_eq (length oks) 10) as Dk.
  pose proof (Nat.mod_upper_bound (length oks) 10 ltac:(lia)) as Mk.
  destruct (Nat.eqb (length oks) (length P)) eqn:E.
  - destruct Hrest as (-> & _). rewrite last_snoc, take_ge by lia. reflexivity.
  - destruct Hrest as (-> & _).
    rewrite app_nil_r, last_save_enumerate by exact Hlen.
    destruct (Nat.leb_spec 10 (length oks)) as [Hge|Hlt]; [reflexivity|].
    replace (length oks / 10) with 0 by (symmetry; apply Nat.div_small; lia).
    simpl. rewrite loop_synced_nil. reflexivity.
Qed.

Section SourceRuns.

Variable net : list Event -> Response.
Variable proc : list Event -> Completed.

(** A run on a source that yields [L]: either it never queries the source
    and stays quiet, or it has the shape of [run_shape] for [L]. *)
Lemma run_of_source args w L :
  source_yields proc L ->
  let out := cmd_sync net proc args w in
  let evs := events_since w (snd out) in
  snd out = world_after w evs /\
  ((~ In (ERun OsaLinks) evs /\ forallb is_quiet evs = true /\
    fst out <> Raise AuthenticationFailed)
   \/ run_shape net args L w (fst out) evs).
Proof.
  intros HL. cbv zeta.
  destruct (cmd_sync_run_shape net proc args w) as [Hw H]. cbv zeta in H.
  split; [exact Hw|].
  destruct H as [(Hq & Hr & Hin)|(L' & tr & HL' & Hshape)].
  - left. split; [|auto]. intros Hq'. destruct (Hin Hq') as [tr Hrc].
    apply Hrc, (HL (tr ++ [ERun OsaLinks])), last_snoc.
  - right. now rewrite <- (source_yields_fetched proc L tr L' HL HL').
Qed.

End SourceRuns.

Lemma enumerate1_lookup {X} (P : list X) j item :
  enumerate1 P !! j = Some item -> P !! j = Some (snd item).
Proof.
  unfold enumerate1. generalize 1. revert j.
  induction P as [|x P IH]; intros j a H; [discriminate|].
  destruct j as [|j]; simpl in *.
  - now injection H as <-.
  - eapply IH, H.
Qed.

(** A run that has its configuration and finds GoodLinks ready queries the
    source. *)
Lemma ready_queries net proc args w c :
  config_file w = Some c ->
  goodlinks_ready proc w c ->
  In (ERun OsaLinks) (events_since w (snd (cmd_sync net proc args w))).
Proof.
  assert (Hfirst : forall w0,
            exists rest,
              events_since w0 (snd (sync_body net proc (with_defaults c) args w0))
              = ERun OsaLinks :: rest /\
              snd (sync_body net proc (with_defaults c) args w0)
              = world_after w0 (ERun OsaLinks :: rest)).
  { intros w0.
    destruct (spec_events _ _ _
                (sync_body_shape net proc (with_defaults c) args w0))
      as [Hw H].
    destruct H as [(E & _)|(L & _ & rest & E & _)];
      rewrite E in Hw |- *; eauto. }
  intros Hc [Hup|(Hkey & Hproc & Hfresh)].
  - rewrite (cmd_sync_up net proc args w c Hc Hup).
    destruct (Hfirst (world_after w [ELog INFO MsgStarting; ERun Pgrep; ERun Pgrep]))
      as (rest & _ & Hw).
    rewrite Hw, world_after_app, events_since_world_after.
    apply in_or_app. right. left. reflexivity.
  - rewrite (cmd_sync_launched net proc args w c Hc Hkey Hproc Hfresh).
    destruct (finally_closes_goodlinks proc
                (sync_body net proc (with_defaults c) args)
                (world_after w launch_events)) as (tail & Ef & _).
    rewrite Ef. cbn [snd].
    destruct (Hfirst (world_after w launch_events)) as (rest & _ & Hw).
    rewrite Hw, !world_after_app, events_since_world_after.
    apply in_or_app. right. left. reflexivity.
Qed.

(** An id of which no call is accepted in a run is not added to the state
    file by that run. *)
Lemma run_keeps_out net proc args w x :
  let out := cmd_sync net proc args w in
  let evs := events_since w (snd out) in
  x ∉ synced_of w ->
  x ∉ accepted_ids net (trace w) evs ->
  x ∉ synced_of (snd out).
Proof.
  cbv zeta. intros Hx Hacc.
  destruct (cmd_sync_run_shape net proc args w) as [Hw H]. cbv zeta in H.
  rewrite Hw.
  destruct H as [(Hq & _)|(L & tr & _ & Hshape)].
  { now rewrite synced_of_quiet. }
  rewrite (shape_state net args L w _ _ Hshape).
  destruct (shape_outcomes net args L w _ _ Hshape) as (_ & Hquiet & Hloop).
  cbv zeta in *.
  rewrite loop_synced_accepted. intros Hin.
  apply elem_of_union in Hin as [Hin|Hin]; [|contradiction].
  apply elem_of_list_to_set, accepted_take in Hin.
  destruct (dry_run args) eqn:Hdry;
    [|destruct (decide (to_sync_of L (synced_of w) = [])) as [HP|HP]].
  1,2: destruct Hquiet as (_ & _ & E & _); auto; rewrite E in Hin;
       destruct (enumerate1 _) as [|[? ?] ?]; inversion Hin.
  destruct (Hloop eq_refl HP) as (Hres & _).
  apply Hacc. unfold accepted_ids. rewrite Hres. exact Hin.
Qed.

(** The pending list in a run that fetches [L] and loads [S]. *)
Lemma run_follows_pending net proc args w L :
  source_yields proc L ->
  let S := synced_of w in
  let P := to_sync_of L S in
  let out := cmd_sync net proc args w in
  let evs := events_since w (snd out) in
  (In (ERun OsaLinks) evs ->
   In (ELog INFO (MsgFound (length P) (length L))) evs /\
   (dry_run args = true ->
    previewed evs = map (fun l => PyStr.slice_to 70 (title l)) P) /\
   (dry_run args = false ->
    published evs
    = take (Datatypes.S (length (outcomes net (trace w) evs))) (map id P) /\
    (fst out = Return tt -> published evs = map id P))) /\
  published evs `prefix_of` map id P /\
  Forall (fun x => exists l, l ∈ P /\ id l = x)
         (accepted_ids net (trace w) evs) /\
  (forall x, x ∈ synced_of (snd out) ->
             x ∈ S \/ exists l, l ∈ P /\ id l = x).
Proof.
  intros HL. cbv zeta.
  destruct (run_of_source net proc args w L HL) as [Hw H]. cbv zeta in H.
  set (out := cmd_sync net proc args w) in *.
  set (evs := events_since w (snd out)) in *.
  set (S := synced_of w) in *.
  destruct H as [(Hno & Hq & _)|Hshape].
  { split; [intros Hin; contradiction|].
    rewrite (quiet_published evs Hq). split; [apply prefix_nil|].
    unfold accepted_ids.
    rewrite (proj1 (results_quiet net (trace w) evs Hq)).
    split; [constructor|].
    intros x. rewrite Hw, synced_of_quiet by exact Hq. auto. }
  pose proof (shape_state net args L w _ _ Hshape) as Hstate.
  destruct (shape_outcomes net args L w _ _ Hshape) as (Hlen & Hquiet & Hloop).
  cbv zeta in Hstate, Hlen, Hquiet, Hloop. fold S in Hstate, Hlen, Hquiet, Hloop.
  set (P := to_sync_of L S) in *.
  set (oks := outcomes net (trace w) evs) in *.
  assert (Hpub : dry_run args = false ->
                 published evs = take (Datatypes.S (length oks)) (map id P)).
  { intros Hdry. destruct (decide (P = [])) as [HP|HP].
    - destruct Hquiet as (Hq & _); [auto|].
      rewrite (quiet_published evs Hq), HP. reflexivity.
    - destruct (Hloop Hdry HP) as (_ & Hmarks & _).
      rewrite <- published_marks, Hmarks. apply published_run_marks. }
  assert (Hacc : forall k x,
            x ∈ omap accepted (loop_results (enumerate1 P) (take k oks)) ->
            exists l, l ∈ P /\ id l = x).
  { intros k x Hin. apply accepted_loop_results in Hin
      as (j & item & Hj & Hid & _).
    exists (snd item). split; [|exact Hid].
    apply enumerate1_lookup in Hj. eapply list_elem_of_lookup_2, Hj. }
  split; [|split; [|split]].
  - intros _. unfold run_shape in Hshape. cbv zeta in Hshape.
    fold S P in Hshape.
    destruct Hshape as (_ & Hfound & Hrest).
    split; [exact Hfound|]. split.
    + intros Hdry. rewrite Hdry in Hrest. tauto.
    + intros Hdry. split; [auto|]. intros Hr.
      rewrite (Hpub Hdry). apply take_ge. rewrite length_map.
      destruct (decide (P = [])) as [HP|HP]; [rewrite HP; simpl; lia|].
      destruct (Hloop Hdry HP) as (_ & _ & Hrest').
      destruct (Nat.eqb (length oks) (length P)) eqn:E.
      * apply Nat.eqb_eq in E. lia.
      * destruct Hrest' as (_ & Hr' & _). congruence.
  - destruct (dry_run args) eqn:Hdry.
    + destruct Hquiet as (Hq & _); [auto|].
      rewrite (quiet_published evs Hq). apply prefix_nil.
    + rewrite Hpub by reflexivity. apply prefix_take.
  - apply List.Forall_forall. intros x Hx. apply list_elem_of_In in Hx.
    unfold accepted_ids in Hx.
    destruct (dry_run args) eqn:Hdry;
      [|destruct (decide (P = [])) as [HP|HP]].
    1,2: destruct Hquiet as (_ & _ & _ & E); auto; rewrite E in Hx;
         inversion Hx.
    destruct (Hloop eq_refl HP) as (Hres & _). rewrite Hres in Hx.
    apply (Hacc (length oks) x). now rewrite take_ge by lia.
  - intros x. rewrite Hw, Hstate, loop_synced_accepted.
    intros Hx. apply elem_of_union in Hx as [Hx|Hx]; [|auto].
    right. apply elem_of_list_to_set in Hx. eapply Hacc, Hx.
Qed.

(** Claim C6.  The pending list is the one the specification describes:
    the records of [L], in the order of [L], whose id is not in [S]; as a
    collection it does not depend on the order of [L].  And it is the list
    the orchestrator works on.  A run that fetches [L] and loads [S], has
    its configuration and finds GoodLinks ready logs the length of that
    list; as a dry run it then lists exactly the titles of the list, in
    order; otherwise it makes its publish calls for exactly these records,
    in order: for all of them when it returns, and up to the call that
    raises otherwise.  In any run that fetches [L] and loads [S], the
    publish calls follow the list, and every id the service accepts, and
    every id found afterwards in the state file that was not in [S], is the
    id of a pending record. *)
Theorem pending_is_source_minus_state (L : list Link) (S : gset string) :
  let P := to_sync_of L S in
  pending_of S L P /\
  (forall P', pending_of S L P' -> P' = P) /\
  P `sublist_of` L /\
  (forall l, l ∈ P <-> l ∈ L /\ id l ∉ S) /\
  (forall L', L' ≡ₚ L -> to_sync_of L' S ≡ₚ P) /\
  (forall net proc args w c,
     source_yields proc L -> synced_of w = S ->
     config_file w = Some c -> goodlinks_ready proc w c ->
     let out := cmd_sync net proc args w in
     let evs := events_since w (snd out) in
     In (ELog INFO (MsgFound (length P) (length L))) evs /\
     (dry_run args = true ->
      previewed evs = map (fun l => PyStr.slice_to 70 (title l)) P) /\
     (dry_run args = false ->
      published evs
      = take (Datatypes.S (length (outcomes net (trace w) evs))) (map id P) /\
      (fst out = Return tt -> published evs = map id P))) /\
  (forall net proc args w,
     source_yields proc L -> synced_of w = S ->
     let out := cmd_sync net proc args w in
     let evs := events_since w (snd out) in
     published evs `prefix_of` map id P /\
     Forall (fun x => exists l, l ∈ P /\ id l = x)
            (accepted_ids net (trace w) evs) /\
     (forall x, x ∈ synced_of (snd out) ->
                x ∈ S \/ exists l, l ∈ P /\ id l = x)).
Proof.
  cbv zeta. split; [apply to_sync_of_pending|].
  split; [apply pending_of_to_sync|].
  split; [apply sublist_filter|].
  split; [intros l; unfold to_sync_of; rewrite list_elem_of_filter; tauto|].
  split; [intros L' HL'; unfold to_sync_of; now rewrite HL'|].
  split.
  - intros net proc args w c HL HS Hc Hready.
    destruct (run_follows_pending net proc args w L HL) as [H _].
    cbv zeta in H. rewrite HS in H.
    apply H, (ready_queries net proc args w c Hc Hready).
  - intros net proc args w HL HS.
    destruct (run_follows_pending net proc args w L HL) as [_ H].
    cbv zeta in H. rewrite HS in H. exact H.
Qed.

Lemma pending_is_source_minus_state_witness :
  let L := samples 3 in
  let S : gset string := {[ "A" ]} in
  let P := to_sync_of L S in
  let net := always (Resp 201) in
  let proc := goodlinks_closed_with L in
  (let out := cmd_sync net proc default_args synced_A in
   let evs := events_since synced_A (snd out) in
   In (ELog INFO (MsgFound (length P) (length L))) evs /\
   published evs
   = take (Datatypes.S (length (outcomes net (trace synced_A) evs))) (map id P) /\
   published evs = map id P) /\
  (let out := cmd_sync net proc dry_args synced_A in
   let evs := events_since synced_A (snd out) in
   previewed evs = map (fun l => PyStr.slice_to 70 (title l)) P) /\
  (let out := cmd_sync net proc default_args synced_A in
   let evs := events_since synced_A (snd out) in
   published evs `prefix_of` map id P /\
   Forall (fun x => exists l, l ∈ P /\ id l = x)
          (accepted_ids net (trace synced_A) evs) /\
   (forall x, x ∈ synced_of (snd out) -> x ∈ S \/ exists l, l ∈ P /\ id l = x)).
Proof.
  cbv zeta.
  destruct (pending_is_source_minus_state (samples 3) {[ "A" ]})
    as (_ & _ & _ & _ & _ & H & H').
  assert (HL : source_yields (goodlinks_closed_with (samples 3)) (samples 3)).
  { intros tr Htr. unfold goodlinks_closed_with. rewrite Htr.
    split; vm_compute; reflexivity. }
  assert (Hready : goodlinks_ready (goodlinks_closed_with (samples 3)) synced_A
                     {| username := "reader@example.com"; password := "secret";
                        launch_goodlinks_key := None; log_file_key := None |}).
  { right. split; [discriminate|]. split; [apply goodlinks_closed_with_opens|].
    simpl. tauto. }
  split; [|split].
  - destruct (H (always (Resp 201)) (goodlinks_closed_with (samples 3))
                default_args synced_A _ HL eq_refl eq_refl Hready)
      as (Ha & _ & Hb).
    destruct (Hb eq_refl) as [Hc Hd].
    split; [exact Ha|]. split; [exact Hc|]. apply Hd. vm_compute. reflexivity.
  - destruct (H (always (Resp 201)) (goodlinks_closed_with (samples 3))
                dry_args synced_A _ HL eq_refl eq_refl Hready)
      as (_ & Ha & _).
    apply Ha. reflexivity.
  - apply (H' (always (Resp 201)) (goodlinks_closed_with (samples 3))
              default_args synced_A HL eq_refl).
Defined.

(** Claim C7.  In a run that reaches the loop (it has its configuration
    and finds GoodLinks ready, it is not a dry run, something is pending),
    the publish calls and the
    flushes are those of [run_marks] for the outcomes of the calls, read
    off the answers of the service: a flush of the in-memory set, the
    loaded ids and the ids accepted so far, follows each item whose
    position is a multiple of 10, whether its call succeeded or failed,
    and one more flush follows the loop when no call raised.  Each flush
    writes the state file: the file the run leaves is the last set
    flushed, and the file it found when nothing was flushed.  When every
    call succeeds, the sets flushed are: after each item [i] with [i] a
    multiple of 10, the loaded set with the ids of the first [i] pending
    records, and at the end the loaded set with the ids of all of them,
    which is what the state file then holds. *)
Theorem flush_after_every_tenth_item_and_at_the_end
    (net : list Event -> Response) (proc : list Event -> Completed)
    (args : Args) (w : World) (c : Config) (L : list Link) :
  config_file w = Some c ->
  goodlinks_ready proc w c ->
  source_yields proc L ->
  dry_run args = false ->
  let out := cmd_sync net proc args w in
  let evs := events_since w (snd out) in
  let S := synced_of w in
  let P := to_sync_of L S in
  let oks := outcomes net (trace w) evs in
  P <> [] ->
  length oks <= length P /\
  marks evs = run_marks P oks S /\
  (fst out = Return tt <-> length oks = length P) /\
  state_file (snd out)
  = match last (saves evs) with
    | Some ids => Some ids
    | None => state_file w
    end /\
  (oks = repeat true (length P) ->
   fst out = Return tt /\
   saves evs
   = map (fun i => list_to_set (map id (take i P)) ∪ S)
       (List.filter (fun i => Nat.eqb (i mod 10) 0) (seq 1 (length P)))
     ++ [list_to_set (map id P) ∪ S] /\
   state_file (snd out) = Some (list_to_set (map id P) ∪ S)).
Proof.
  intros Hc Hready HL Hdry. cbv zeta. intros HP.
  pose proof (ready_queries net proc args w c Hc Hready) as Hin.
  destruct (run_of_source net proc args w L HL) as [Hw H]. cbv zeta in H.
  destruct H as [(Hno & _)|Hshape]; [contradiction|].
  destruct (shape_outcomes net args L w _ _ Hshape) as (Hlen & _ & Hloop).
  cbv zeta in Hlen, Hloop.
  destruct (Hloop Hdry HP) as (_ & Hmarks & Hrest).
  set (out := cmd_sync net proc args w) in *.
  set (evs := events_since w (snd out)) in *.
  set (S := synced_of w) in *. set (P := to_sync_of L S) in *.
  set (oks := outcomes net (trace w) evs) in *.
  assert (Hstate : state_file (snd out)
                   = match last (saves evs) with
                     | Some ids => Some ids
                     | None => state_file w
                     end)
    by (rewrite Hw; reflexivity).
  split; [exact Hlen|]. split; [exact Hmarks|]. split.
  { destruct (Nat.eqb (length oks) (length P)) eqn:E.
    - apply Nat.eqb_eq in E. tauto.
    - apply Nat.eqb_neq in E. destruct Hrest as (_ & Hr & _). rewrite Hr.
      split; [discriminate|contradiction]. }
  split; [exact Hstate|].
  intros Hall.
  assert (E : Nat.eqb (length oks) (length P) = true)
    by (apply Nat.eqb_eq; rewrite Hall; apply repeat_length).
  rewrite E in Hrest. destruct Hrest as (_ & Hr & _).
  assert (Hsaves : saves evs
                   = map (fun i => list_to_set (map id (take i P)) ∪ S)
                       (List.filter (fun i => Nat.eqb (i mod 10) 0)
                          (seq 1 (length P)))
                     ++ [list_to_set (map id P) ∪ S]).
  { rewrite <- saves_marks, Hmarks, Hall. apply saves_run_all_true. }
  split; [exact Hr|]. split; [exact Hsaves|].
  rewrite Hstate, Hsaves, last_snoc. reflexivity.
Qed.

Lemma flush_after_every_tenth_item_and_at_the_end_witness :
  let net := always (Resp 201) in
  let proc := goodlinks_with (samples 25) in
  let out := cmd_sync net proc default_args fresh in
  let evs := events_since fresh (snd out) in
  let S := synced_of fresh in
  let P := to_sync_of (samples 25) S in
  let oks := outcomes net (trace fresh) evs in
  length oks <= length P /\
  marks evs = run_marks P oks S /\
  (fst out = Return tt <-> length oks = length P) /\
  state_file (snd out)
  = match last (saves evs) with
    | Some ids => Some ids
    | None => state_file fresh
    end /\
  fst out = Return tt /\
  saves evs
  = map (fun i => list_to_set (map id (take i P)) ∪ S)
      (List.filter (fun i => Nat.eqb (i mod 10) 0) (seq 1 (length P)))
    ++ [list_to_set (map id P) ∪ S] /\
  state_file (snd out) = Some (list_to_set (map id P) ∪ S).
Proof.
  cbv zeta.
  destruct (flush_after_every_tenth_item_and_at_the_end
              (always (Resp 201)) (goodlinks_with (samples 25))
              default_args fresh
              {| username := "reader@example.com"; password := "secret";
                 launch_goodlinks_key := None; log_file_key := None |}
              (samples 25))
    as (H1 & H2 & H3 & H4 & H5).
  - reflexivity.
  - left. intros tr Htr. unfold goodlinks_with. rewrite Htr. reflexivity.
  - intros tr Htr. unfold goodlinks_with. rewrite Htr.
    split; vm_compute; reflexivity.
  - reflexivity.
  - vm_compute. discriminate.
  - split; [exact H1|]. split; [exact H2|]. split; [exact H3|].
    split; [exact H4|]. apply H5. vm_compute. reflexivity.
Defined.

(** A flush follows the tenth item also when its call failed: twelve
    records are pending and the service rejects the tenth; the flush after
    it holds the nine ids accepted so far, and the final flush holds
    eleven. *)
Example flush_follows_a_failed_tenth_item :
  let net := by_url (fun u => if String.eqb u "https://example.com/J"
                              then Resp 400 else Resp 201) in
  let out := cmd_sync net (goodlinks_with (samples 12)) default_args fresh in
  let evs := events_since fresh (snd out) in
  outcomes net (trace fresh) evs
  = [true; true; true; true; true; true; true; true; true; false; true; true] /\
  map (fun e => match e with
                | EPublish i => inl i
                | ESave ids => inr (size ids)
                | _ => inl ""
                end) (marks evs)
  = [inl "A"; inl "B"; inl "C"; inl "D"; inl "E";
     inl "F"; inl "G"; inl "H"; inl "I"; inl "J"; inr 9;
     inl "K"; inl "L"; inr 11].
Proof. vm_compute. split; reflexivity. Qed.

(** Claim C9, as amended.  A call that returns [False] does not stop the
    loop: in a run that has its configuration, finds GoodLinks ready and is
    not a dry run, every call that returned, with
    [True] or with [False], is followed by the call for the next pending
    record; the run returns normally exactly when every call returned, and
    raises the authentication failure otherwise.  A run that returns
    reports the number of calls that returned [True] and the number that
    returned [False].  A failed call adds nothing to the state file:
    after such a run the file holds the loaded ids and the ids the service
    accepted in the run.  So a record whose call failed is pending again in
    the next run, unless the service accepted, in the same run, another
    record with the same id.  And over any sequence of runs, an id of which
    no call is accepted in these runs never enters the state file, and its
    records stay pending. *)
Theorem failed_item_is_counted_and_stays_pending :
  (forall net proc args w c L,
     config_file w = Some c ->
     goodlinks_ready proc w c ->
     source_yields proc L ->
     dry_run args = false ->
     let out := cmd_sync net proc args w in
     let evs := events_since w (snd out) in
     let S := synced_of w in
     let P := to_sync_of L S in
     let oks := outcomes net (trace w) evs in
     published evs = take (Datatypes.S (length oks)) (map id P) /\
     (fst out = Return tt <-> length oks = length P) /\
     (length oks <> length P -> fst out = Raise AuthenticationFailed) /\
     (P <> [] -> length oks = length P ->
      reports evs = [(count_true oks, count_false oks)]) /\
     (length oks = length P ->
      synced_of (snd out)
      = list_to_set (accepted_ids net (trace w) evs) ∪ S) /\
     (forall i l,
        P !! i = Some l -> oks !! i = Some false ->
        (forall j l', P !! j = Some l' -> id l' = id l ->
                      oks !! j <> Some true) ->
        (id l ∉ synced_of (snd out)) /\
        l ∈ to_sync_of L (synced_of (snd out)))) /\
  (forall runs w x,
     never_accepted_in x runs w ->
     x ∉ synced_of w ->
     (x ∉ synced_of (sync_runs runs w)) /\
     forall L l, l ∈ L -> id l = x ->
                 l ∈ to_sync_of L (synced_of (sync_runs runs w))).
Proof.
  split.
  - intros net proc args w c L Hc Hready HL Hdry. cbv zeta.
    pose proof (ready_queries net proc args w c Hc Hready) as Hin.
    destruct (run_of_source net proc args w L HL) as [Hw H]. cbv zeta in H.
    destruct H as [(Hno & _)|Hshape]; [contradiction|].
    pose proof (shape_state net args L w _ _ Hshape) as Hstate.
    destruct (shape_outcomes net args L w _ _ Hshape) as (Hlen & Hquiet & Hloop).
    cbv zeta in Hstate, Hlen, Hquiet, Hloop.
    set (out := cmd_sync net proc args w) in *.
    set (evs := events_since w (snd out)) in *.
    set (S := synced_of w) in *. set (P := to_sync_of L S) in *.
    set (oks := outcomes net (trace w) evs) in *.
    rewrite <- Hw in Hstate.
    destruct (decide (P = [])) as [HP|HP].
    { destruct Hquiet as (Hq & Hr & Eo & Er); [auto|].
      rewrite (quiet_published evs Hq), Eo, HP.
      split; [reflexivity|]. split; [tauto|].
      split; [intros E; now destruct E|]. split; [contradiction|].
      split.
      - intros _. unfold accepted_ids. rewrite Er, Hw, synced_of_quiet by exact Hq.
        fold S. set_solver.
      - intros i l Hl. discriminate. }
    destruct (Hloop Hdry HP) as (Hres & Hmarks & Hrest).
    assert (Hacc : accepted_ids net (trace w) evs
                   = omap accepted (loop_results (enumerate1 P) oks))
      by (unfold accepted_ids; now rewrite Hres).
    split; [rewrite <- published_marks, Hmarks; apply published_run_marks|].
    split.
    { destruct (Nat.eqb (length oks) (length P)) eqn:E.
      - apply Nat.eqb_eq in E. tauto.
      - apply Nat.eqb_neq in E. destruct Hrest as (_ & Hr & _). rewrite Hr.
        split; [discriminate|contradiction]. }
    split.
    { intros E. apply Nat.eqb_neq in E. rewrite E in Hrest. tauto. }
    split.
    { intros _ E. apply Nat.eqb_eq in E. rewrite E in Hrest. tauto. }
    split.
    { intros E. rewrite Hstate, Hacc. apply Nat.eqb_eq in E. rewrite E in Hrest.
      destruct Hrest as (-> & _). rewrite take_ge by lia.
      apply loop_synced_accepted. }
    intros i l Hl Hfalse Hothers.
    assert (HlP : l ∈ P) by (eapply list_elem_of_lookup_2, Hl).
    assert (HlS : l ∈ L /\ id l ∉ S)
      by (unfold P, to_sync_of in HlP; now apply list_elem_of_filter in HlP).
    assert (Hout : id l ∉ synced_of (snd out)).
    { pose proof (run_keeps_out net proc args w (id l)) as Hk.
      cbv zeta in Hk. apply Hk; [tauto|].
      change (id l ∉ accepted_ids net (trace w) evs).
      rewrite Hacc. intros Hx.
      apply accepted_loop_results in Hx as (j & item & Hj & Hid & Hok).
      apply enumerate1_lookup in Hj. exact (Hothers j (snd item) Hj Hid Hok). }
    split; [exact Hout|].
    unfold to_sync_of. apply list_elem_of_filter. tauto.
  - intros runs w x Hruns Hx.
    assert (H : x ∉ synced_of (sync_runs runs w)).
    { revert w Hruns Hx. induction runs as [|run rest IH]; intros w Hruns Hx;
        [exact Hx|].
      destruct Hruns as [Hrun Hrest]. simpl. apply IH; [exact Hrest|].
      unfold sync_run in *. now apply run_keeps_out. }
    split; [exact H|]. intros L l Hl Hid. unfold to_sync_of.
    apply list_elem_of_filter. rewrite Hid. auto.
Qed.

Lemma failed_item_is_counted_and_stays_pending_witness :
  (let net := by_url (fun u => if String.eqb u "https://example.com/B"
                               then Resp 400 else Resp 201) in
   let out := cmd_sync net (goodlinks_with (samples 3)) default_args fresh in
   let evs := events_since fresh (snd out) in
   let S := synced_of fresh in
   let P := to_sync_of (samples 3) S in
   let oks := outcomes net (trace fresh) evs in
   published evs = take (Datatypes.S (length oks)) (map id P) /\
   (fst out = Return tt <-> length oks = length P) /\
   reports evs = [(count_true oks, count_false oks)] /\
   synced_of (snd out) = list_to_set (accepted_ids net (trace fresh) evs) ∪ S /\
   ("B" ∉ synced_of (snd out)) /\
   sample 2 ∈ to_sync_of (samples 3) (synced_of (snd out))) /\
  (("A" ∉ synced_of (sync_runs [rejecting_run; rejecting_run] fresh)) /\
   forall L l, l ∈ L -> id l = "A" ->
     l ∈ to_sync_of L (synced_of (sync_runs [rejecting_run; rejecting_run] fresh))).
Proof.
  destruct failed_item_is_counted_and_stays_pending as [H1 H2]. split.
  - cbv zeta.
    destruct (H1 (by_url (fun u => if String.eqb u "https://example.com/B"
                                   then Resp 400 else Resp 201))
                (goodlinks_with (samples 3)) default_args fresh
                {| username := "reader@example.com"; password := "secret";
                   launch_goodlinks_key := None; log_file_key := None |}
                (samples 3))
      as (Ha & Hb & _ & Hc & Hd & He).
    + reflexivity.
    + left. intros tr Htr. unfold goodlinks_with. rewrite Htr. reflexivity.
    + intros tr Htr. unfold goodlinks_with. rewrite Htr.
      split; vm_compute; reflexivity.
    + reflexivity.
    + split; [exact Ha|]. split; [exact Hb|].
      split; [apply Hc; [vm_compute; discriminate|vm_compute; reflexivity]|].
      split; [apply Hd; vm_compute; reflexivity|].
      apply (He 1 (sample 2)).
      * vm_compute. reflexivity.
      * vm_compute. reflexivity.
      * intros j l' Hj Hid.
        destruct j as [|[|[|j]]]; vm_compute in Hj; try discriminate;
          injection Hj as <-; vm_compute in Hid; try discriminate;
          vm_compute; discriminate.
  - apply H2; [|vm_compute; set_solver].
    cbn [never_accepted_in].
    assert (E1 : accepted_ids (run_net rejecting_run) (trace fresh)
                   (events_since fresh (sync_run rejecting_run fresh)) = [])
      by (vm_compute; reflexivity).
    assert (E2 : accepted_ids (run_net rejecting_run)
                   (trace (sync_run rejecting_run fresh))
                   (events_since (sync_run rejecting_run fresh)
                      (sync_run rejecting_run (sync_run rejecting_run fresh)))
                 = [])
      by (vm_compute; reflexivity).
    rewrite E1, E2. repeat split; apply not_elem_of_nil.
Defined.

(** Claim C9 as stated fails when the source lists an id twice: the service
    rejects the first record and accepts the second; the first item has
    failed and is counted as failed, yet its id is in the state file, and
    the next run finds nothing pending and publishes nothing. *)
Lemma failed_duplicate_is_not_pending_again :
  let net := recovering 1 (Resp 400) in
  let proc := goodlinks_with twice in
  let out := cmd_sync net proc default_args fresh in
  let evs := events_since fresh (snd out) in
  let w1 := snd out in
  map id (to_sync_of twice (synced_of fresh)) = ["A"; "A"] /\
  outcomes net (trace fresh) evs = [false; true] /\
  reports evs = [(1, 1)] /\
  fst out = Return tt /\
  synced_of w1 = {[ "A" ]} /\
  to_sync_of twice (synced_of w1) = [] /\
  published (events_since w1 (snd (cmd_sync net proc default_args w1))) = [].
Proof. vm_compute. repeat split; reflexivity. Qed.

(** * Further properties of the code *)

(** ** The publisher: attempts and pauses *)

Lemma sleeps_app a b : sleeps (a ++ b) = sleeps a ++ sleeps b.
Proof. apply omap_app. Qed.

Lemma filter_is_post_app a b :
  List.filter is_post (a ++ b) = List.filter is_post a ++ List.filter is_post b.
Proof. apply List.filter_app. Qed.

(** The loop over the attempts [a, a+1, ..., a+n-1], the last of which is
    [max_retries]: it sends between one and [n] requests, all the same, and
    pauses [2 ** attempt] seconds after each request but the last. *)
Lemma attempt_loop_paced net u t user pw mr : forall n a w,
  n = 0 \/ Z.of_nat (a + n) = (mr + 1)%Z ->
  spec (attempt_loop net u t user pw mr (map Z.of_nat (seq a n))) w
    (fun r evs =>
       exists k,
         (1 <= n -> 1 <= k) /\ k <= n /\
         List.filter is_post evs = repeat (EPost u t user pw) k /\
         sleeps evs = map (fun b => 2 ^ Z.of_nat b)%Z (seq a (k - 1)) /\
         saves evs = [] /\ published evs = []).
Proof.
  induction n as [|n IH]; intros a w Hn.
  - simpl. apply spec_ret. exists 0. repeat split; auto; lia.
  - destruct Hn as [Hn|Hn]; [discriminate|].
    cbn [seq map attempt_loop]. apply spec_bind, spec_post.
    assert (Hstop : forall (m : M bool),
              (forall w', spec m w' (fun _ evs =>
                 List.filter is_post evs = [] /\ sleeps evs = [] /\
                 saves evs = [] /\ published evs = [])) ->
              spec m (world_after w [EPost u t user pw])
                (fun r' evs' =>
                   exists k,
                     (1 <= Datatypes.S n -> 1 <= k) /\ k <= Datatypes.S n /\
                     List.filter is_post ([EPost u t user pw] ++ evs')
                     = repeat (EPost u t user pw) k /\
                     sleeps ([EPost u t user pw] ++ evs')
                     = map (fun b => 2 ^ Z.of_nat b)%Z (seq a (k - 1)) /\
                     saves ([EPost u t user pw] ++ evs') = [] /\
                     published ([EPost u t user pw] ++ evs') = [])).
    { intros m Hq. eapply spec_mono; [apply Hq|]. cbv beta.
      intros _ evs' (Hp & Hs & Hsv & Hpb). exists 1.
      rewrite filter_is_post_app, sleeps_app, saves_app, published_app,
        Hp, Hs, Hsv, Hpb.
      repeat split; auto; lia. }
    assert (Hretry : forall lvl msg,
              (Z.of_nat a <? mr)%Z = true ->
              spec (log lvl msg;; sleep (2 ^ Z.of_nat a);;
                    attempt_loop net u t user pw mr
                      (map Z.of_nat (seq (Datatypes.S a) n)))
                (world_after w [EPost u t user pw])
                (fun r' evs' =>
                   exists k,
                     (1 <= Datatypes.S n -> 1 <= k) /\ k <= Datatypes.S n /\
                     List.filter is_post ([EPost u t user pw] ++ evs')
                     = repeat (EPost u t user pw) k /\
                     sleeps ([EPost u t user pw] ++ evs')
                     = map (fun b => 2 ^ Z.of_nat b)%Z (seq a (k - 1)) /\
                     saves ([EPost u t user pw] ++ evs') = [] /\
                     published ([EPost u t user pw] ++ evs') = [])).
    { intros lvl msg Hlt. apply Z.ltb_lt in Hlt.
      apply spec_bind, spec_log. apply spec_bind, spec_sleep.
      eapply spec_mono; [apply (IH (Datatypes.S a)); right; lia|]. cbv beta.
      intros r' evs' (k & Hk1 & Hk2 & Hp & Hs & Hsv & Hpb).
      exists (Datatypes.S k).
      assert (1 <= n) by lia. specialize (Hk1 H).
      rewrite !filter_is_post_app, !sleeps_app, !saves_app, !published_app,
        Hp, Hs, Hsv, Hpb.
      split; [lia|]. split; [lia|]. split; [reflexivity|].
      split; [|auto]. simpl.
      destruct k as [|k]; [lia|]. simpl. rewrite Nat.sub_0_r. reflexivity. }
    assert (Hq_ret : forall b w', spec (ret b) w'
              (fun (_ : Result bool) evs =>
                 List.filter is_post evs = [] /\ sleeps evs = [] /\
                 saves evs = [] /\ published evs = []))
      by (intros; apply spec_ret; auto).
    assert (Hq_raise : forall e w', spec (@raise bool e) w'
              (fun _ evs =>
                 List.filter is_post evs = [] /\ sleeps evs = [] /\
                 saves evs = [] /\ published evs = []))
      by (intros; apply spec_raise; auto).
    assert (Hq_log : forall lvl msg b w', spec (log lvl msg;; ret b) w'
              (fun (_ : Result bool) evs =>
                 List.filter is_post evs = [] /\ sleeps evs = [] /\
                 saves evs = [] /\ published evs = []))
      by (intros; apply spec_bind, spec_log; apply spec_ret; auto).
    destruct (net _) as [status_code| | |].
    + destruct (status_code =? 201)%Z; [apply Hstop, Hq_ret|].
      destruct (status_code =? 403)%Z; [apply Hstop, Hq_raise|].
      destruct (status_code =? 400)%Z; [apply Hstop, Hq_ret|].
      destruct (status_code >=? 500)%Z; [|apply Hstop, Hq_log].
      destruct (Z.of_nat a <? mr)%Z eqn:Hlt; [apply Hretry; reflexivity|].
      apply Hstop, Hq_log.
    + destruct (Z.of_nat a <? mr)%Z eqn:Hlt; [apply Hretry; reflexivity|].
      apply Hstop, Hq_log.
    + destruct (Z.of_nat a <? mr)%Z eqn:Hlt; [apply Hretry; reflexivity|].
      apply Hstop, Hq_log.
    + apply Hstop, Hq_log.
Qed.

(** X1.  Whatever the service answers, one call of the publisher sends at
    most [max_retries + 1] requests (and at least one when [max_retries] is
    not negative), every one of them with the url, title and credentials it
    was given; it pauses [1, 2, 4, ...] seconds between consecutive
    requests and never after the last one; and it leaves the state file
    and the configuration alone. *)
Theorem attempts_are_bounded_and_paced
    (net : list Event -> Response) (u t user pw : string) (mr : Z) (w : World) :
  let out := add_to_instapaper net u t user pw mr w in
  let evs := events_since w (snd out) in
  exists k,
    k <= Z.to_nat (mr + 1) /\
    ((0 <= mr)%Z -> 1 <= k) /\
    List.filter is_post evs = repeat (EPost u t user pw) k /\
    sleeps evs = pauses (k - 1) /\
    state_file (snd out) = state_file w /\
    config_file (snd out) = config_file w.
Proof.
  cbv zeta. unfold add_to_instapaper, range.
  set (n := Z.to_nat (mr + 1)).
  assert (Hn : n = 0 \/ Z.of_nat (0 + n) = (mr + 1)%Z) by lia.
  destruct (spec_events _ _ _ (attempt_loop_paced net u t user pw mr n 0 w Hn))
    as [Hw (k & Hk1 & Hk2 & Hp & Hs & Hsv & _)].
  exists k. split; [exact Hk2|]. split; [intros; apply Hk1; lia|].
  split; [exact Hp|]. split; [exact Hs|].
  rewrite Hw. unfold world_after, final_state. simpl. rewrite Hsv. auto.
Qed.

(** How a call of the publisher ends: with [True] only right after a request
    answered 201, with an exception only right after a request answered
    403, and that exception is the authentication failure. *)
Lemma attempt_loop_last net u t user pw mr attempts : forall w,
  spec (attempt_loop net u t user pw mr attempts) w (fun r evs =>
    match r with
    | Return true =>
        exists pre, evs = pre ++ [EPost u t user pw] /\
                    net (trace w ++ evs) = Resp 201
    | Return false => True
    | Raise e =>
        e = AuthenticationFailed /\
        exists pre, evs = pre ++ [EPost u t user pw] /\
                    net (trace w ++ evs) = Resp 403
    end).
Proof.
  induction attempts as [|attempt rest IH]; intros w; cbn [attempt_loop].
  - apply spec_ret. exact I.
  - apply spec_bind, spec_post.
    assert (Hretry : forall lvl msg,
              spec (log lvl msg;; sleep (2 ^ attempt);;
                    attempt_loop net u t user pw mr rest)
                (world_after w [EPost u t user pw])
                (fun r' evs' =>
                   match r' with
                   | Return true =>
                       exists pre,
                         [EPost u t user pw] ++ evs' = pre ++ [EPost u t user pw] /\
                         net (trace w ++ [EPost u t user pw] ++ evs') = Resp 201
                   | Return false => True
                   | Raise e =>
                       e = AuthenticationFailed /\
                       exists pre,
                         [EPost u t user pw] ++ evs' = pre ++ [EPost u t user pw] /\
                         net (trace w ++ [EPost u t user pw] ++ evs') = Resp 403
                   end)).
    { intros lvl msg. apply spec_bind, spec_log. apply spec_bind, spec_sleep.
      eapply spec_mono; [apply IH|]. cbv beta. simpl trace.
      intros [[|]|e] evs' H; [| exact I |].
      - destruct H as (pre & -> & Hnet).
        exists ([EPost u t user pw] ++ [ELog lvl msg] ++ [ESleep (2 ^ attempt)] ++ pre).
        split; [now rewrite <- !app_assoc|].
        rewrite <- Hnet. f_equal. now rewrite <- !app_assoc.
      - destruct H as (-> & pre & -> & Hnet). split; [reflexivity|].
        exists ([EPost u t user pw] ++ [ELog lvl msg] ++ [ESleep (2 ^ attempt)] ++ pre).
        split; [now rewrite <- !app_assoc|].
        rewrite <- Hnet. f_equal. now rewrite <- !app_assoc. }
    destruct (net (trace w ++ [EPost u t user pw])) as [status_code| | |] eqn:Hnet.
    + destruct (status_code =? 201)%Z eqn:E201.
      { apply spec_ret. exists []. apply Z.eqb_eq in E201. subst.
        rewrite app_nil_r. auto. }
      destruct (status_code =? 403)%Z eqn:E403.
      { apply spec_raise. split; [reflexivity|]. exists [].
        apply Z.eqb_eq in E403. subst. rewrite app_nil_r. auto. }
      destruct (status_code =? 400)%Z; [apply spec_ret; exact I|].
      destruct (status_code >=? 500)%Z.
      * destruct (attempt <? mr)%Z; [apply Hretry|].
        apply spec_bind, spec_log. apply spec_ret. exact I.
      * apply spec_bind, spec_log. apply spec_ret. exact I.
    + destruct (attempt <? mr)%Z; [apply Hretry|].
      apply spec_bind, spec_log. apply spec_ret. exact I.
    + destruct (attempt <? mr)%Z; [apply Hretry|].
      apply spec_bind, spec_log. apply spec_ret. exact I.
    + apply spec_bind, spec_log. apply spec_ret. exact I.
Qed.

(** X2.  The publisher reports success only when the last thing it did was
    a request that the service answered with 201, and it raises only when
    the last thing it did was a request answered with 403; the exception is
    then the authentication failure. *)
Theorem result_reflects_the_last_answer
    (net : list Event -> Response) (u t user pw : string) (mr : Z) (w : World) :
  let out := add_to_instapaper net u t user pw mr w in
  let evs := events_since w (snd out) in
  (fst out = Return true ->
   exists pre, evs = pre ++ [EPost u t user pw] /\
               net (trace w ++ evs) = Resp 201) /\
  (forall e, fst out = Raise e ->
   e = AuthenticationFailed /\
   exists pre, evs = pre ++ [EPost u t user pw] /\
               net (trace w ++ evs) = Resp 403).
Proof.
  cbv zeta.
  destruct (spec_events _ _ _
              (attempt_loop_last net u t user pw mr (range (mr + 1)) w))
    as [_ H].
  fold (add_to_instapaper net u t user pw mr) in H.
  split.
  - intros E. rewrite E in H. exact H.
  - intros e E. rewrite E in H. exact H.
Qed.

Lemma result_reflects_the_last_answer_witness :
  (let out := add_to_instapaper (always (Resp 201)) "https://example.com/A"
                "Article A" "reader@example.com" "secret" 3 fresh in
   let evs := events_since fresh (snd out) in
   exists pre,
     evs = pre ++ [EPost "https://example.com/A" "Article A"
                     "reader@example.com" "secret"] /\
     always (Resp 201) (trace fresh ++ evs) = Resp 201) /\
  (let out := add_to_instapaper (always (Resp 403)) "https://example.com/A"
                "Article A" "reader@example.com" "secret" 3 fresh in
   let evs := events_since fresh (snd out) in
   AuthenticationFailed = AuthenticationFailed /\
   exists pre,
     evs = pre ++ [EPost "https://example.com/A" "Article A"
                     "reader@example.com" "secret"] /\
     always (Resp 403) (trace fresh ++ evs) = Resp 403).
Proof.
  split.
  - apply (proj1 (result_reflects_the_last_answer (always (Resp 201))
                    "https://example.com/A" "Article A"
                    "reader@example.com" "secret" 3 fresh)).
    reflexivity.
  - apply (proj2 (result_reflects_the_last_answer (always (Resp 403))
                    "https://example.com/A" "Article A"
                    "reader@example.com" "secret" 3 fresh)
             AuthenticationFailed).
    reflexivity.
Defined.

Lemma count_posts_app a b : count_posts (a ++ b) = count_posts a + count_posts b.
Proof. unfold count_posts. rewrite filter_is_post_app, length_app. reflexivity. Qed.

Ltac count_posts_lia :=
  repeat rewrite count_posts_app in *;
  change (count_posts [EPost _ _ _ _]) with 1 in *;
  change (count_posts [ELog _ _]) with 0 in *;
  change (count_posts [ESleep _]) with 0 in *;
  lia.

Lemma attempt_loop_recovers net u t user pw mr : forall j n a w,
  (Z.of_nat (a + j) <= mr)%Z ->
  j < n ->
  (forall tr, count_posts tr <= count_posts (trace w) + j ->
              is_transient (net tr) = true) ->
  (forall tr, count_posts tr = count_posts (trace w) + j + 1 ->
              net tr = Resp 201) ->
  spec (attempt_loop net u t user pw mr (map Z.of_nat (seq a n))) w
    (fun r evs =>
       r = Return true /\
       List.filter is_post evs = repeat (EPost u t user pw) (Datatypes.S j) /\
       sleeps evs = map (fun b => 2 ^ Z.of_nat b)%Z (seq a j)).
Proof.
  induction j as [|j IH]; intros n a w Ha Hn Hfail Hok;
    (destruct n as [|n]; [lia|]); cbn [seq map attempt_loop];
    apply spec_bind, spec_post.
  - rewrite Hok by count_posts_lia.
    simpl. apply spec_ret. auto.
  - assert (Hretry : forall lvl msg,
              spec (log lvl msg;; sleep (2 ^ Z.of_nat a);;
                    attempt_loop net u t user pw mr
                      (map Z.of_nat (seq (Datatypes.S a) n)))
                (world_after w [EPost u t user pw])
                (fun r' evs' =>
                   r' = Return true /\
                   List.filter is_post ([EPost u t user pw] ++ evs')
                   = repeat (EPost u t user pw) (Datatypes.S (Datatypes.S j)) /\
                   sleeps ([EPost u t user pw] ++ evs')
                   = map (fun b => 2 ^ Z.of_nat b)%Z (seq a (Datatypes.S j)))).
    { intros lvl msg. apply spec_bind, spec_log. apply spec_bind, spec_sleep.
      eapply spec_mono; [apply (IH n (Datatypes.S a))|]; simpl trace.
      - lia.
      - lia.
      - intros tr Htr. apply Hfail. count_posts_lia.
      - intros tr Htr. apply Hok. count_posts_lia.
      - cbv beta. intros r' evs' (-> & Hp & Hs).
        rewrite !filter_is_post_app, !sleeps_app, Hp, Hs. auto. }
    assert (Hlt : (Z.of_nat a <? mr)%Z = true) by (apply Z.ltb_lt; lia).
    pose proof (Hfail (trace w ++ [EPost u t user pw])) as Htrans.
    specialize (Htrans ltac:(count_posts_lia)).
    destruct (net (trace w ++ [EPost u t user pw])) as [code| | |];
      simpl in Htrans; try discriminate; rewrite ?Hlt; try apply Hretry.
    apply Z.geb_le in Htrans.
    replace (code =? 201)%Z with false by (symmetry; apply Z.eqb_neq; lia).
    replace (code =? 403)%Z with false by (symmetry; apply Z.eqb_neq; lia).
    replace (code =? 400)%Z with false by (symmetry; apply Z.eqb_neq; lia).
    replace (code >=? 500)%Z with true by (symmetry; apply Z.geb_le; lia).
    cbv iota. apply Hretry.
Qed.

(** X3.  Retrying works: when the service fails transiently (5xx, timeout
    or refused connection) for the next [k] requests and accepts the one
    after, and [k] does not exceed [max_retries], the publisher returns
    [True] after exactly [k + 1] requests and the pauses 1, 2, ...,
    [2 ** (k - 1)]. *)
Theorem publisher_recovers_from_transient_failures
    (net : list Event -> Response) (u t user pw : string) (mr : Z) (w : World)
    (k : nat) :
  (Z.of_nat k <= mr)%Z ->
  (forall tr, count_posts tr <= count_posts (trace w) + k ->
              is_transient (net tr) = true) ->
  (forall tr, count_posts tr = count_posts (trace w) + k + 1 ->
              net tr = Resp 201) ->
  let out := add_to_instapaper net u t user pw mr w in
  let evs := events_since w (snd out) in
  fst out = Return true /\
  List.filter is_post evs = repeat (EPost u t user pw) (k + 1) /\
  sleeps evs = pauses k.
Proof.
  intros Hk Hfail Hok. cbv zeta. unfold add_to_instapaper, range.
  destruct (spec_events _ _ _
              (attempt_loop_recovers net u t user pw mr k
                 (Z.to_nat (mr + 1)) 0 w ltac:(lia) ltac:(lia) Hfail Hok))
    as [_ (Hr & Hp & Hs)].
  rewrite Nat.add_1_r. auto.
Qed.

Lemma publisher_recovers_from_transient_failures_witness :
  let out := add_to_instapaper (recovering 2 (Resp 503)) "https://example.com/A"
               "Article A" "reader@example.com" "secret" 3 fresh in
  let evs := events_since fresh (snd out) in
  fst out = Return true /\
  List.filter is_post evs
  = repeat (EPost "https://example.com/A" "Article A"
              "reader@example.com" "secret") (2 + 1) /\
  sleeps evs = pauses 2.
Proof.
  apply (publisher_recovers_from_transient_failures (recovering 2 (Resp 503))
           "https://example.com/A" "Article A" "reader@example.com" "secret"
           3 fresh 2).
  - lia.
  - intros tr Htr. unfold recovering. simpl in Htr.
    destruct (Nat.leb_spec (count_posts tr) 2); [reflexivity|lia].
  - intros tr Htr. unfold recovering. simpl in Htr.
    destruct (Nat.leb_spec (count_posts tr) 2); [lia|reflexivity].
Defined.

(** ** The link source: what the parser keeps *)

Lemma has_char_app c a b : has_char c (a ++ b) = has_char c a || has_char c b.
Proof.
  induction a as [|x a IH]; [reflexivity|].
  change (String x a ++ b)%string with (String x (a ++ b)%string).
  cbn [has_char]. rewrite IH, orb_assoc. reflexivity.
Qed.

Lemma split_not_nil sep s : PyStr.split sep s <> [].
Proof.
  destruct s as [|c s]; simpl; [discriminate|].
  destruct (Ascii.eqb c sep); [discriminate|].
  destruct (PyStr.split sep s); discriminate.
Qed.

(** The pieces of a split hold no separator, and no character the whole
    string did not hold. *)
Lemma split_pieces sep s : forall x,
  In x (PyStr.split sep s) ->
  has_char sep x = false /\
  forall c, has_char c s = false -> has_char c x = false.
Proof.
  induction s as [|a s IH]; intros x Hx.
  - destruct Hx as [<-|[]]. auto.
  - cbn [PyStr.split] in Hx. destruct (Ascii.eqb a sep) eqn:E.
    + destruct Hx as [<-|Hx]; [split; [reflexivity|reflexivity]|].
      destruct (IH x Hx) as [H1 H2]. split; [exact H1|].
      intros c Hc. simpl in Hc. apply orb_false_elim in Hc as [_ Hc]. auto.
    + destruct (PyStr.split sep s) as [|h t] eqn:Es;
        [now destruct (split_not_nil sep s)|].
      destruct Hx as [<-|Hx].
      * destruct (IH h (or_introl eq_refl)) as [H1 H2]. split.
        -- simpl. rewrite E, H1. reflexivity.
        -- intros c Hc. simpl in *. apply orb_false_elim in Hc as [-> Hc].
           simpl. auto.
      * destruct (IH x (or_intror Hx)) as [H1 H2]. split; [exact H1|].
        intros c Hc. simpl in Hc. apply orb_false_elim in Hc as [_ Hc]. auto.
Qed.

Lemma split_length sep s :
  length (PyStr.split sep s) = Datatypes.S (count_char sep s).
Proof.
  induction s as [|a s IH]; [reflexivity|].
  cbn [PyStr.split count_char]. destruct (Ascii.eqb a sep).
  - simpl. rewrite IH. reflexivity.
  - destruct (PyStr.split sep s) as [|h t] eqn:Es;
      [now destruct (split_not_nil sep s)|].
    simpl in *. exact IH.
Qed.

Lemma parse_lines_clean lines :
  Forall (fun line => has_char PyStr.newline line = false) lines ->
  Forall (fun l => clean (id l) = true /\ clean (url l) = true /\
                   clean (title l) = true) (parse_lines lines).
Proof.
  induction 1 as [|line lines Hline _ IH]; [constructor|].
  cbn [parse_lines]. destruct line as [|c line]; [exact IH|].
  remember (String c line) as ln.
  destruct (PyStr.split PyStr.tab ln) as [|p0 [|p1 [|p2 rest]]] eqn:Es;
    try exact IH.
  assert (Hp : forall x, In x [p0; p1; p2] -> clean x = true).
  { intros x Hx.
    destruct (split_pieces PyStr.tab ln x) as [H1 H2].
    { rewrite Es. simpl in *. tauto. }
    unfold clean. rewrite H1, (H2 _ Hline). reflexivity. }
  constructor; [|exact IH]. simpl.
  repeat split; apply Hp; simpl; auto.
Qed.

(** X4.  Whatever [osascript] prints, no field of a link that
    [get_goodlinks] returns holds a tab or a newline. *)
Theorem fetched_fields_hold_no_separator
    (proc : list Event -> Completed) (w : World) (L : list Link) :
  fst (get_goodlinks proc w) = Return L ->
  Forall (fun l => clean (id l) = true /\ clean (url l) = true /\
                   clean (title l) = true) L.
Proof.
  unfold get_goodlinks, bind, run. cbv zeta.
  destruct (negb _); [destruct (_ || _); discriminate|].
  simpl. intros E. injection E as <-.
  apply parse_lines_clean, List.Forall_forall. intros line Hline.
  exact (proj1 (split_pieces PyStr.newline _ line Hline)).
Qed.

Lemma fetched_fields_hold_no_separator_witness :
  Forall (fun l => clean (id l) = true /\ clean (url l) = true /\
                   clean (title l) = true) (samples 3).
Proof.
  apply (fetched_fields_hold_no_separator (goodlinks_with (samples 3)) fresh).
  vm_compute. reflexivity.
Defined.

(** X5.  The parser yields exactly one link per line that holds at least
    two tabs; every other line is dropped and the lines after it are still
    read. *)
Theorem one_link_per_line_with_two_tabs (lines : list string) :
  length (parse_lines lines)
  = length (List.filter (fun line => Nat.leb 2 (count_char PyStr.tab line)) lines).
Proof.
  induction lines as [|line lines IH]; [reflexivity|].
  cbn [parse_lines List.filter]. destruct line as [|c line]; [exact IH|].
  remember (String c line) as ln.
  pose proof (split_length PyStr.tab ln) as Hlen.
  destruct (PyStr.split PyStr.tab ln) as [|p0 [|p1 [|p2 rest]]];
    simpl in Hlen; [discriminate| | |]; injection Hlen as Hlen;
    rewrite <- Hlen; simpl; [exact IH|exact IH|].
  f_equal. exact IH.
Qed.

(** ** The link source: the round trip through the transport *)

Lemma app_String (a : string) c b x :
  ((a ++ String c b) ++ x = a ++ String c (b ++ x))%string.
Proof.
  induction a as [|y a IH]; [reflexivity|].
  change ((String y ((a ++ String c b) ++ x)) = String y (a ++ String c (b ++ x)))%string.
  now rewrite IH.
Qed.

Lemma app_not_empty (a r : string) : r <> "" -> (a ++ r)%string <> "".
Proof. destruct a; [auto|discriminate]. Qed.

Lemma rstrip_app_keep (a b : string) :
  PyStr.rstrip b <> "" -> PyStr.rstrip (a ++ b) = (a ++ PyStr.rstrip b)%string.
Proof.
  intros Hb. induction a as [|c a IH]; [reflexivity|].
  change (PyStr.rstrip (String c (a ++ b)) = String c (a ++ PyStr.rstrip b)).
  cbn [PyStr.rstrip]. rewrite IH.
  destruct (a ++ PyStr.rstrip b)%string eqn:E; [|reflexivity].
  now destruct (app_not_empty a _ Hb).
Qed.

Lemma rstrip_app_drop (a b : string) :
  PyStr.rstrip b = "" -> PyStr.rstrip (a ++ b) = PyStr.rstrip a.
Proof.
  intros Hb. induction a as [|c a IH]; [exact Hb|].
  change (PyStr.rstrip (String c (a ++ b)) = PyStr.rstrip (String c a)).
  cbn [PyStr.rstrip]. rewrite IH. reflexivity.
Qed.

Lemma split_app_sep sep (a b : string) :
  has_char sep a = false ->
  PyStr.split sep (a ++ String sep b) = a :: PyStr.split sep b.
Proof.
  induction a as [|c a IH]; intros Ha.
  - change (PyStr.split sep (String sep b) = "" :: PyStr.split sep b).
    cbn [PyStr.split]. rewrite Ascii.eqb_refl. reflexivity.
  - change (PyStr.split sep (String c (a ++ String sep b))
            = String c a :: PyStr.split sep b).
    simpl in Ha. apply orb_false_elim in Ha as [Hc Ha].
    cbn [PyStr.split]. rewrite Hc, (IH Ha). reflexivity.
Qed.

Lemma split_none sep (a : string) :
  has_char sep a = false -> PyStr.split sep a = [a].
Proof.
  induction a as [|c a IH]; intros Ha; [reflexivity|].
  simpl in Ha. apply orb_false_elim in Ha as [Hc Ha].
  cbn [PyStr.split]. rewrite Hc, (IH Ha). reflexivity.
Qed.

Lemma script_output_cons l L :
  script_output (l :: L)
  = (line_of l ++ String PyStr.newline (script_output L))%string.
Proof.
  cbn [script_output]. unfold line_of.
  rewrite app_String. f_equal. f_equal. rewrite app_String. reflexivity.
Qed.

Lemma line_of_not_empty l : line_of l <> "".
Proof. unfold line_of. apply app_not_empty. discriminate. Qed.

Lemma joined_not_empty l L : joined (l :: L) <> "".
Proof.
  destruct L as [|l' L]; cbn [joined]; [apply line_of_not_empty|].
  intros E. destruct (line_of l) eqn:El; [now destruct (line_of_not_empty l)|].
  discriminate.
Qed.

Lemma rstrip_line_of l :
  PyStr.rstrip (title l) = title l -> title l <> "" ->
  PyStr.rstrip (line_of l) = line_of l.
Proof.
  intros Hr Hne. unfold line_of.
  replace (id l ++ String PyStr.tab (url l ++ String PyStr.tab (title l)))%string
    with ((id l ++ String PyStr.tab (url l ++ String PyStr.tab "")) ++ title l)%string
    by (rewrite app_String; f_equal; f_equal; rewrite app_String; reflexivity).
  rewrite rstrip_app_keep by (rewrite Hr; exact Hne). rewrite Hr. reflexivity.
Qed.

Lemma last_title_kept_tail l l' L :
  last_title_kept (l :: l' :: L) -> last_title_kept (l' :: L).
Proof. unfold last_title_kept. now rewrite last_cons_cons. Qed.

Lemma rstrip_script_output l L :
  last_title_kept (l :: L) ->
  PyStr.rstrip (script_output (l :: L)) = joined (l :: L).
Proof.
  revert l. induction L as [|l' L IH]; intros l Hlast.
  - rewrite script_output_cons. cbn [script_output joined].
    rewrite rstrip_app_drop by reflexivity.
    destruct Hlast as [Hr Hne]. apply rstrip_line_of; assumption.
  - rewrite script_output_cons.
    replace (line_of l ++ String PyStr.newline (script_output (l' :: L)))%string
      with ((line_of l ++ String PyStr.newline "") ++ script_output (l' :: L))%string
      by (rewrite app_String; reflexivity).
    specialize (IH l' (last_title_kept_tail l l' L Hlast)).
    rewrite rstrip_app_keep by (rewrite IH; apply joined_not_empty).
    rewrite IH, app_String. reflexivity.
Qed.

Lemma clean_no_tab s : clean s = true -> has_char PyStr.tab s = false.
Proof. unfold clean. intros H. apply andb_prop in H as [H _]. now destruct (has_char _ s). Qed.

Lemma clean_no_newline s : clean s = true -> has_char PyStr.newline s = false.
Proof. unfold clean. intros H. apply andb_prop in H as [_ H]. now destruct (has_char _ s). Qed.

Lemma line_of_no_newline l :
  clean (id l) = true -> clean (url l) = true -> clean (title l) = true ->
  has_char PyStr.newline (line_of l) = false.
Proof.
  intros H1 H2 H3. unfold line_of.
  rewrite has_char_app. cbn [has_char]. rewrite has_char_app. cbn [has_char].
  rewrite !clean_no_newline by assumption. reflexivity.
Qed.

Lemma split_line_of l :
  clean (id l) = true -> clean (url l) = true -> clean (title l) = true ->
  PyStr.split PyStr.tab (line_of l) = [id l; url l; title l].
Proof.
  intros H1 H2 H3. unfold line_of.
  rewrite !split_app_sep, split_none by (apply clean_no_tab; assumption).
  reflexivity.
Qed.

Lemma split_joined l L :
  Forall (fun l => clean (id l) = true /\ clean (url l) = true /\
                   clean (title l) = true) (l :: L) ->
  PyStr.split PyStr.newline (joined (l :: L)) = map line_of (l :: L).
Proof.
  revert l. induction L as [|l' L IH]; intros l H.
  - cbn [joined map]. apply split_none.
    inversion H as [|? ? (H1 & H2 & H3) _]; subst.
    now apply line_of_no_newline.
  - inversion H as [|? ? (H1 & H2 & H3) H']; subst.
    change (joined (l :: l' :: L))
      with (line_of l ++ String PyStr.newline (joined (l' :: L)))%string.
    rewrite split_app_sep by (now apply line_of_no_newline).
    rewrite (IH l' H'). reflexivity.
Qed.

Lemma parse_lines_line_of L :
  Forall (fun l => clean (id l) = true /\ clean (url l) = true /\
                   clean (title l) = true) L ->
  parse_lines (map line_of L) = L.
Proof.
  induction 1 as [|l L (H1 & H2 & H3) _ IH]; [reflexivity|].
  cbn [map parse_lines].
  destruct (line_of l) eqn:El; [now destruct (line_of_not_empty l)|].
  rewrite <- El, (split_line_of l H1 H2 H3), IH. destruct l; reflexivity.
Qed.

Lemma plain_clean s : plain s = true -> clean s = true.
Proof. unfold plain. intros H. now apply andb_prop in H as [H _]. Qed.

Lemma plain_no_cr s : plain s = true -> has_char PyStr.cr s = false.
Proof.
  unfold plain. intros H. apply andb_prop in H as [_ H].
  now destruct (has_char _ s).
Qed.

(** Text mode changes nothing in an output without carriage return. *)
Lemma universal_newlines_none s :
  has_char PyStr.cr s = false -> PyStr.universal_newlines s = s.
Proof.
  induction s as [|c s IH]; intros H; [reflexivity|].
  cbn [has_char] in H. apply orb_false_elim in H as [Hc H].
  cbn [PyStr.universal_newlines]. rewrite Hc, (IH H). reflexivity.
Qed.

Lemma script_output_no_cr L :
  Forall (fun l => plain (id l) = true /\ plain (url l) = true /\
                   plain (title l) = true) L ->
  has_char PyStr.cr (script_output L) = false.
Proof.
  induction 1 as [|l L (H1 & H2 & H3) _ IH]; [reflexivity|].
  cbn [script_output].
  rewrite has_char_app. cbn [has_char]. rewrite has_char_app. cbn [has_char].
  rewrite has_char_app. cbn [has_char].
  rewrite !plain_no_cr, IH by assumption. reflexivity.
Qed.

Lemma links_of_script_output L :
  transportable L ->
  links_of_output (PyStr.universal_newlines (script_output L)) = L.
Proof.
  intros (Hplain & Hfirst & Hlast).
  rewrite (universal_newlines_none _ (script_output_no_cr L Hplain)).
  assert (Hclean : Forall (fun l => clean (id l) = true /\ clean (url l) = true /\
                                    clean (title l) = true) L).
  { eapply Forall_impl; [exact Hplain|]. simpl.
    intros l (H1 & H2 & H3). auto using plain_clean. }
  unfold links_of_output.
  destruct L as [|l L]; [reflexivity|].
  assert (Hl : PyStr.lstrip (script_output (l :: L)) = script_output (l :: L)).
  { cbn [script_output]. simpl in Hfirst.
    destruct (id l) as [|c i]; [contradiction|].
    change (String c i ++ ?x)%string with (String c (i ++ x)%string).
    cbn [PyStr.lstrip]. rewrite Hfirst. reflexivity. }
  unfold PyStr.strip. rewrite Hl, (rstrip_script_output l L Hlast).
  rewrite (split_joined l L Hclean). apply parse_lines_line_of, Hclean.
Qed.

(** X6.  The transport is faithful.  When [osascript] succeeds and writes,
    as the script of lines 115-122 does, each record as id, tab, url, tab,
    title, newline, and the script reads that output in text mode,
    [get_goodlinks] returns exactly those records, in that order, provided
    no field holds a tab, a newline or a carriage return (which text mode
    turns into a newline), the first id is not empty and has no leading
    whitespace, and the last title is not empty and has no trailing
    whitespace (both would be eaten by [strip]). *)
Theorem get_goodlinks_reads_back_the_records
    (proc : list Event -> Completed) (w : World) (L : list Link) :
  returncode (proc (trace w ++ [ERun OsaLinks])) = 0%Z ->
  stdout (proc (trace w ++ [ERun OsaLinks]))
  = PyStr.universal_newlines (script_output L) ->
  transportable L ->
  get_goodlinks proc w = (Return L, world_after w [ERun OsaLinks]).
Proof.
  intros Hrc Hout HL.
  unfold get_goodlinks. rewrite bind_run, Hrc, Hout. cbn [Z.eqb negb].
  fold (links_of_output (PyStr.universal_newlines (script_output L))).
  rewrite (links_of_script_output L HL). reflexivity.
Qed.

Lemma get_goodlinks_reads_back_the_records_witness :
  get_goodlinks (goodlinks_with (samples 3)) fresh
  = (Return (samples 3), world_after fresh [ERun OsaLinks]).
Proof.
  apply get_goodlinks_reads_back_the_records; [reflexivity|reflexivity|].
  split; [|split].
  - repeat (constructor; [repeat split; reflexivity|]). constructor.
  - vm_compute. reflexivity.
  - vm_compute. split; [reflexivity|discriminate].
Defined.

(** Why the carriage return is excluded: a title that holds one is cut
    there, and what follows it is read as a line of its own and dropped. *)
Example carriage_return_cuts_a_title :
  let l := {| id := "A"; url := "https://example.com/A";
              title := "one" ++ String PyStr.cr "two" |} in
  links_of_output (PyStr.universal_newlines (script_output [l]))
  = [{| id := "A"; url := "https://example.com/A"; title := "one" |}].
Proof. vm_compute. reflexivity. Qed.

(** ** Runs that do not reach the loop *)

(** X7.  When the query of the source fails, the run ends with the error
    of [get_goodlinks] (the first one when the error output says that the
    application is not running, the second one otherwise) right after the
    query: no publish call, no request, and the state file as it was. *)
Theorem source_failure_aborts_the_run
    (net : list Event -> Response) (proc : list Event -> Completed)
    (args : Args) (w : World) (c : Config) :
  config_file w = Some c ->
  goodlinks_up proc ->
  source_fails proc ->
  let out := cmd_sync net proc args w in
  let evs := events_since w (snd out) in
  let err := stderr (proc (trace w ++ [ELog INFO MsgStarting; ERun Pgrep;
                                       ERun Pgrep; ERun OsaLinks])) in
  fst out
  = Raise (if PyStr.contains "No such process" err
              || PyStr.contains "not running" err
           then CannotConnect else AppleScriptFailed err) /\
  evs = [ELog INFO MsgStarting; ERun Pgrep; ERun Pgrep; ERun OsaLinks] /\
  state_file (snd out) = state_file w.
Proof.
  intros Hc Hup Hfail. cbv zeta.
  rewrite (cmd_sync_up net proc args w c Hc Hup).
  unfold sync_body, get_goodlinks. rewrite !bind_assoc, bind_run.
  simpl trace. rewrite <- app_assoc. simpl app.
  set (tr := trace w ++ _).
  assert (E : (returncode (proc tr) =? 0)%Z = false).
  { apply Z.eqb_neq, Hfail. subst tr.
    change [ELog INFO MsgStarting; ERun Pgrep; ERun Pgrep; ERun OsaLinks]
      with ([ELog INFO MsgStarting; ERun Pgrep; ERun Pgrep] ++ [ERun OsaLinks]).
    rewrite app_assoc. apply last_snoc. }
  rewrite E. cbn [negb].
  destruct (_ || _); rewrite bind_raise, world_after_app; cbn [fst snd];
    rewrite events_since_world_after; auto.
Qed.

Lemma source_failure_aborts_the_run_witness :
  let out := cmd_sync (always (Resp 201)) goodlinks_mute default_args fresh in
  let evs := events_since fresh (snd out) in
  let err := stderr (goodlinks_mute
                       (trace fresh ++ [ELog INFO MsgStarting; ERun Pgrep;
                                        ERun Pgrep; ERun OsaLinks])) in
  fst out
  = Raise (if PyStr.contains "No such process" err
              || PyStr.contains "not running" err
           then CannotConnect else AppleScriptFailed err) /\
  evs = [ELog INFO MsgStarting; ERun Pgrep; ERun Pgrep; ERun OsaLinks] /\
  state_file (snd out) = state_file fresh.
Proof.
  apply (source_failure_aborts_the_run (always (Resp 201)) goodlinks_mute
           default_args fresh
           {| username := "reader@example.com"; password := "secret";
              launch_goodlinks_key := None; log_file_key := None |}).
  - reflexivity.
  - intros tr Htr. unfold goodlinks_mute. rewrite Htr. reflexivity.
  - intros tr Htr. unfold goodlinks_mute. rewrite Htr. discriminate.
Defined.

(** ** The lifecycle of GoodLinks around a run *)

Lemma emits_mono {A} (Q Q' : Event -> bool) (m : M A) :
  (forall e, Q e = true -> Q' e = true) -> emits Q m -> emits Q' m.
Proof.
  intros HQ Hm w. eapply spec_mono; [apply Hm|]. cbv beta.
  intros _ evs. apply forallb_weaken, HQ.
Qed.

Lemma net_body e : is_net e = true -> is_body e = true.
Proof. destruct e as [| |[]| |? []|]; simpl; congruence. Qed.

Lemma emits_sync_loop_body net config args n items :
  forall synced new_count failed_count,
    emits is_body (sync_loop net config args n items synced new_count failed_count).
Proof.
  induction items as [|[i link] rest IH]; intros synced new_count failed_count.
  - apply emits_ret.
  - cbn [sync_loop].
    apply emits_bind;
      [apply (emits_event _ _ (EPublish (id link)) tt);
         [intros; now apply spec_mark_publish|reflexivity]|intros _].
    apply emits_bind;
      [eapply emits_mono; [apply net_body|apply emits_add_to_instapaper]|].
    intros ok. apply emits_bind.
    { destruct ok; repeat emits_step; reflexivity. }
    intros [[synced' new_count'] failed_count'].
    apply emits_bind; [|intros _; apply IH].
    destruct (Nat.eqb (i mod 10) 0); [|apply emits_ret].
    apply (emits_event _ _ (ESave synced') tt);
      [intros; now apply spec_save|reflexivity].
Qed.

Lemma emits_sync_body net proc config args :
  emits is_body (sync_body net proc config args).
Proof.
  unfold sync_body. apply emits_bind.
  { unfold get_goodlinks. apply emits_bind; [now apply emits_run|intros r].
    repeat emits_step; reflexivity. }
  intros links. apply emits_bind.
  { intros w. apply spec_load. reflexivity. }
  intros synced. cbv zeta.
  apply emits_bind; [emits_step; reflexivity|intros _].
  destruct (dry_run args).
  - apply emits_bind; [|intros _; emits_step; reflexivity].
    induction (to_sync_of links synced) as [|l rest IHl]; simpl;
      [apply emits_ret|].
    apply emits_bind; [emits_step; reflexivity|intros _; exact IHl].
  - destruct (to_sync_of links synced) as [|l0 P] eqn:EP;
      [emits_step; reflexivity|].
    apply emits_bind; [apply emits_sync_loop_body|].
    intros [[synced' new_count] failed_count].
    apply emits_bind; [|intros _; emits_step; reflexivity].
    apply (emits_event _ _ (ESave synced') tt);
      [intros; now apply spec_save|reflexivity].
Qed.

Lemma events_since_self w : events_since w w = [].
Proof. unfold events_since. apply drop_all. Qed.

(** X8.  When GoodLinks is running, a run neither opens it nor asks it to
    quit, however the run ends. *)
Theorem running_goodlinks_is_left_alone
    (net : list Event -> Response) (proc : list Event -> Completed)
    (args : Args) (w : World) :
  goodlinks_up proc ->
  let evs := events_since w (snd (cmd_sync net proc args w)) in
  ~ In (ERun OpenApp) evs /\ ~ In (ERun OsaQuit) evs.
Proof.
  intros Hup. cbv zeta.
  destruct (config_file w) as [c|] eqn:Hc.
  - rewrite (cmd_sync_up net proc args w c Hc Hup).
    destruct (spec_events _ _ _
                (emits_sync_body net proc (with_defaults c) args
                   (world_after w [ELog INFO MsgStarting; ERun Pgrep; ERun Pgrep])))
      as [Hw Hq].
    rewrite Hw, world_after_app, events_since_world_after.
    rewrite forallb_forall in Hq.
    split; intros Hin; apply in_app_or in Hin as [Hin|Hin];
      try (simpl in Hin; intuition discriminate);
      apply Hq in Hin; discriminate.
  - unfold cmd_sync, bind, load_config. rewrite Hc. cbn [snd].
    rewrite events_since_self. simpl. tauto.
Qed.

Lemma running_goodlinks_is_left_alone_witness :
  let evs := events_since fresh
               (snd (cmd_sync (always (Resp 201)) (goodlinks_with (samples 3))
                       default_args fresh)) in
  ~ In (ERun OpenApp) evs /\ ~ In (ERun OsaQuit) evs.
Proof.
  apply (running_goodlinks_is_left_alone (always (Resp 201))
           (goodlinks_with (samples 3)) default_args fresh).
  intros tr Htr. unfold goodlinks_with. rewrite Htr. reflexivity.
Defined.





(** X10.  When GoodLinks is not running, launching is allowed and the
    application comes up, the run opens it, waits two seconds, runs its
    body, and then asks GoodLinks to quit, also when the body raised; the
    result of the run is the result of the body. *)
Theorem opened_goodlinks_is_closed_after_the_run
    (net : list Event -> Response) (proc : list Event -> Completed)
    (args : Args) (w : World) (c : Config) :
  config_file w = Some c ->
  launch_goodlinks_key c <> Some false ->
  opens_on_request proc ->
  ~ In (ERun OpenApp) (trace w) ->
  let out := cmd_sync net proc args w in
  let evs := events_since w (snd out) in
  let w1 := world_after w launch_events in
  let body := sync_body net proc (with_defaults c) args w1 in
  fst out = fst body /\
  exists tail,
    evs = launch_events ++ events_since w1 (snd body)
          ++ ELog INFO MsgClosing :: ERun OsaQuit :: tail /\
    (tail = [] \/ tail = [ELog DEBUG MsgQuitFailed]).
Proof.
  intros Hc Hkey Hproc Hfresh. cbv zeta.
  rewrite (cmd_sync_launched net proc args w c Hc Hkey Hproc Hfresh).
  destruct (finally_closes_goodlinks proc
              (sync_body net proc (with_defaults c) args)
              (world_after w launch_events)) as (tail & Ef & Htail).
  rewrite Ef. cbn [fst snd]. split; [reflexivity|].
  exists tail. split; [|exact Htail].
  destruct (spec_events _ _ _
              (emits_sync_body net proc (with_defaults c) args
                 (world_after w launch_events))) as [Hw _].
  rewrite Hw at 1. rewrite !world_after_app, events_since_world_after.
  reflexivity.
Qed.

Lemma opened_goodlinks_is_closed_after_the_run_witness :
  let net := by_url (fun u => if String.eqb u "https://example.com/B"
                              then Resp 403 else Resp 201) in
  let proc := goodlinks_closed_with (samples 3) in
  let out := cmd_sync net proc default_args fresh in
  let evs := events_since fresh (snd out) in
  let w1 := world_after fresh launch_events in
  let body := sync_body net proc
                (with_defaults
                   {| username := "reader@example.com"; password := "secret";
                      launch_goodlinks_key := None; log_file_key := None |})
                default_args w1 in
  fst out = fst body /\
  exists tail,
    evs = launch_events ++ events_since w1 (snd body)
          ++ ELog INFO MsgClosing :: ERun OsaQuit :: tail /\
    (tail = [] \/ tail = [ELog DEBUG MsgQuitFailed]).
Proof.
  apply (opened_goodlinks_is_closed_after_the_run
           (by_url (fun u => if String.eqb u "https://example.com/B"
                             then Resp 403 else Resp 201))
           (goodlinks_closed_with (samples 3)) default_args fresh).
  - reflexivity.
  - discriminate.
  - apply goodlinks_closed_with_opens.
  - simpl. tauto.
Defined.

(** ** Status, reset and init *)

Lemma get_goodlinks_yields proc w L :
  source_yields proc L ->
  get_goodlinks proc w = (Return L, world_after w [ERun OsaLinks]).
Proof.
  intros HL. destruct (HL (trace w ++ [ERun OsaLinks]) (last_snoc _ _)) as [Hrc HP].
  unfold get_goodlinks. rewrite bind_run, Hrc. cbn [Z.eqb negb].
  rewrite HP. reflexivity.
Qed.

Lemma cmd_status_yields proc w L :
  source_yields proc L ->
  cmd_status proc w
  = (Return ([LineLinks (length L); LineSynced (size (synced_of w));
              LinePending (length (to_sync_of L (synced_of w)))]
             ++ match to_sync_of L (synced_of w) with
                | [] => []
                | _ =>
                    LineHeader
                    :: map (fun link => LineTitle (PyStr.slice_to 60 (title link)))
                         (take 10 (to_sync_of L (synced_of w)))
                    ++ (if Nat.ltb 10 (length (to_sync_of L (synced_of w)))
                        then [LineMore (length (to_sync_of L (synced_of w)) - 10)]
                        else [])
                end),
     world_after w [ERun OsaLinks]).
Proof.
  intros HL. unfold cmd_status, bind at 1.
  rewrite (get_goodlinks_yields proc w L HL), bind_load.
  rewrite synced_of_quiet by reflexivity. reflexivity.
Qed.

Lemma to_sync_complement L (S : gset string) :
  length (to_sync_of L S) + length (filter (fun l => id l ∈ S) L) = length L.
Proof.
  unfold to_sync_of. induction L as [|l L IH]; [reflexivity|].
  rewrite !filter_cons.
  destruct (decide (id l ∉ S)) as [H|H]; destruct (decide (id l ∈ S)) as [H'|H'];
    simpl; try lia; contradiction.
Qed.

Lemma filter_is_title_titles (f : Link -> string) U :
  List.filter is_title (map (fun link => LineTitle (f link)) U)
  = map (fun link => LineTitle (f link)) U.
Proof. induction U as [|l U IH]; [reflexivity|]. simpl. now rewrite IH. Qed.

(** X11.  [status] only reads: its one effect is the query of the source,
    and the state file and the configuration stay as they were.  It prints
    the number of links, the number of synced ids and the number of pending
    links; the pending links and the links whose id is synced add up to
    all links; at most 10 titles are listed, and a last line tells how many
    more there are exactly when more than 10 are pending. *)
Theorem status_reads_and_counts
    (proc : list Event -> Completed) (w : World) (L : list Link) :
  source_yields proc L ->
  let out := cmd_status proc w in
  let S := synced_of w in
  let p := length (to_sync_of L S) in
  events_since w (snd out) = [ERun OsaLinks] /\
  state_file (snd out) = state_file w /\
  config_file (snd out) = config_file w /\
  exists rest,
    fst out = Return ([LineLinks (length L); LineSynced (size S); LinePending p]
                      ++ rest) /\
    p + length (filter (fun l => id l ∈ S) L) = length L /\
    length (List.filter is_title rest) = Nat.min 10 p /\
    (forall k, In (LineMore k) rest <-> 10 < p /\ k = p - 10).
Proof.
  intros HL. cbv zeta. rewrite (cmd_status_yields proc w L HL). cbn [fst snd].
  rewrite events_since_world_after.
  split; [reflexivity|]. split; [reflexivity|]. split; [reflexivity|].
  eexists. split; [reflexivity|]. split; [apply to_sync_complement|].
  set (U := to_sync_of L (synced_of w)).
  destruct U as [|l0 U'] eqn:EU.
  { simpl. split; [reflexivity|]. intros k. split; [tauto|lia]. }
  rewrite <- EU. clear EU.
  cbn [List.filter is_title]. rewrite List.filter_app, filter_is_title_titles.
  split.
  - rewrite length_app, length_map, length_take.
    destruct (Nat.ltb 10 (length U)); simpl; lia.
  - intros k. cbn [In]. rewrite in_app_iff, in_map_iff.
    destruct (Nat.ltb_spec 10 (length U)) as [Hlt|Hge]; simpl.
    + split.
      * intros [H|[(x & H & _)|[H|[]]]]; try discriminate.
        injection H as <-. auto.
      * intros [_ ->]. auto.
    + split.
      * intros [H|[(x & H & _)|[]]]; discriminate.
      * lia.
Qed.

Lemma status_reads_and_counts_witness :
  let proc := goodlinks_with (samples 12) in
  let out := cmd_status proc synced_A in
  let S := synced_of synced_A in
  let p := length (to_sync_of (samples 12) S) in
  events_since synced_A (snd out) = [ERun OsaLinks] /\
  state_file (snd out) = state_file synced_A /\
  config_file (snd out) = config_file synced_A /\
  exists rest,
    fst out = Return ([LineLinks (length (samples 12)); LineSynced (size S);
                       LinePending p] ++ rest) /\
    p + length (filter (fun l => id l ∈ S) (samples 12)) = length (samples 12) /\
    length (List.filter is_title rest) = Nat.min 10 p /\
    (forall k, In (LineMore k) rest <-> 10 < p /\ k = p - 10).
Proof.
  apply (status_reads_and_counts (goodlinks_with (samples 12)) synced_A
           (samples 12)).
  intros tr Htr. unfold goodlinks_with. rewrite Htr.
  split; vm_compute; reflexivity.
Defined.

Lemma to_sync_of_empty L : to_sync_of L ∅ = L.
Proof.
  unfold to_sync_of. induction L as [|l L IH]; [reflexivity|].
  rewrite filter_cons_True by set_solver. now f_equal.
Qed.

Lemma synced_of_reset w : synced_of (snd (cmd_reset w)) = ∅.
Proof.
  unfold cmd_reset, synced_of. destruct (state_file w) eqn:E; simpl;
    [reflexivity|]. now rewrite E.
Qed.

(** X12.  [reset] deletes the state file and nothing else, and says whether
    there was one; a second [reset] finds nothing to delete.  A [status]
    after [reset] reports 0 synced ids and as many pending links as there
    are links. *)
Theorem reset_then_status
    (proc : list Event -> Completed) (w : World) (L : list Link) :
  source_yields proc L ->
  let w1 := snd (cmd_reset w) in
  state_file w1 = None /\
  config_file w1 = config_file w /\
  trace w1 = trace w /\
  (fst (cmd_reset w) = Return SyncStateReset <-> state_file w <> None) /\
  cmd_reset w1 = (Return NoSyncStateToReset, w1) /\
  exists rest,
    fst (cmd_status proc w1)
    = Return ([LineLinks (length L); LineSynced 0; LinePending (length L)]
              ++ rest).
Proof.
  intros HL. cbv zeta.
  split; [unfold cmd_reset; destruct (state_file w) eqn:E; simpl; auto|].
  split; [unfold cmd_reset; destruct (state_file w); reflexivity|].
  split; [unfold cmd_reset; destruct (state_file w); reflexivity|].
  split.
  { unfold cmd_reset. destruct (state_file w) eqn:E; simpl;
      split; congruence. }
  split.
  { unfold cmd_reset. destruct (state_file w) eqn:E; simpl; [reflexivity|].
    rewrite E. reflexivity. }
  rewrite (cmd_status_yields proc _ L HL). cbn [fst].
  rewrite synced_of_reset, to_sync_of_empty. eexists. reflexivity.
Qed.

Lemma reset_then_status_witness :
  let proc := goodlinks_with (samples 3) in
  let w1 := snd (cmd_reset synced_A) in
  state_file w1 = None /\
  config_file w1 = config_file synced_A /\
  trace w1 = trace synced_A /\
  (fst (cmd_reset synced_A) = Return SyncStateReset
   <-> state_file synced_A <> None) /\
  cmd_reset w1 = (Return NoSyncStateToReset, w1) /\
  exists rest,
    fst (cmd_status proc w1)
    = Return ([LineLinks (length (samples 3)); LineSynced 0;
               LinePending (length (samples 3))] ++ rest).
Proof.
  apply (reset_then_status (goodlinks_with (samples 3)) synced_A (samples 3)).
  intros tr Htr. unfold goodlinks_with. rewrite Htr.
  split; vm_compute; reflexivity.
Defined.

(** X13.  After [reset], every link is pending again: the publish calls of
    the next run follow the whole source, the links synced before
    included, and cover all of it when the run reaches its report. *)
Theorem reset_makes_every_link_pending
    (net : list Event -> Response) (proc : list Event -> Completed)
    (args : Args) (w : World) (L : list Link) :
  source_yields proc L ->
  let w1 := snd (cmd_reset w) in
  let evs := events_since w1 (snd (cmd_sync net proc args w1)) in
  to_sync_of L (synced_of w1) = L /\
  published evs `prefix_of` map id L /\
  (reports evs <> [] -> published evs = map id L).
Proof.
  intros HL. cbv zeta.
  destruct (run_published net proc args (snd (cmd_reset w)) L HL)
    as (k & Hk & Hrep).
  cbv zeta in Hk, Hrep. rewrite synced_of_reset, to_sync_of_empty in *.
  split; [reflexivity|]. rewrite Hk. split; [apply prefix_take|].
  intros Hne. apply take_ge. rewrite length_map. auto.
Qed.

Lemma reset_makes_every_link_pending_witness :
  let net := always (Resp 201) in
  let proc := goodlinks_with (samples 3) in
  let w1 := snd (cmd_reset synced_A) in
  let evs := events_since w1 (snd (cmd_sync net proc default_args w1)) in
  to_sync_of (samples 3) (synced_of w1) = samples 3 /\
  published evs `prefix_of` map id (samples 3) /\
  (reports evs <> [] -> published evs = map id (samples 3)).
Proof.
  apply (reset_makes_every_link_pending (always (Resp 201))
           (goodlinks_with (samples 3)) default_args synced_A (samples 3)).
  intros tr Htr. unfold goodlinks_with. rewrite Htr.
  split; vm_compute; reflexivity.
Defined.

(** X14.  After a run that reports no failed item, [status] on the same
    source reports nothing pending and lists no title. *)
Theorem status_after_a_clean_run
    (net : list Event -> Response) (proc : list Event -> Completed)
    (args : Args) (w : World) (L : list Link) (n : nat) :
  source_yields proc L ->
  let w1 := snd (cmd_sync net proc args w) in
  reports (events_since w w1) = [(n, 0)] ->
  fst (cmd_status proc w1)
  = Return [LineLinks (length L); LineSynced (size (synced_of w1));
            LinePending 0].
Proof.
  intros HL. cbv zeta. intros Hrep.
  rewrite (cmd_status_yields proc _ L HL). cbn [fst].
  pose proof (run_without_failure net proc args w L n HL Hrep) as E.
  cbv zeta in E.
  assert (HP : to_sync_of L (synced_of (snd (cmd_sync net proc args w))) = [])
    by (rewrite E; apply to_sync_of_done).
  rewrite HP. reflexivity.
Qed.

Lemma status_after_a_clean_run_witness :
  let net := always (Resp 201) in
  let proc := goodlinks_with (samples 3) in
  let w1 := snd (cmd_sync net proc default_args fresh) in
  fst (cmd_status proc w1)
  = Return [LineLinks (length (samples 3)); LineSynced (size (synced_of w1));
            LinePending 0].
Proof.
  apply (status_after_a_clean_run (always (Resp 201))
           (goodlinks_with (samples 3)) default_args fresh (samples 3) 3).
  - intros tr Htr. unfold goodlinks_with. rewrite Htr.
    split; vm_compute; reflexivity.
  - vm_compute. reflexivity.
Defined.

(** X15.  [init] writes a configuration exactly when there is none yet or
    [--force] is given, and both the email and the password typed are not
    blank.  What it writes is what [load_config] then returns: the two
    entries stripped of surrounding whitespace, launching enabled and the
    default log file.  In every other case it changes nothing; and it
    never touches the state file. *)
Theorem init_writes_what_load_config_reads
    (force : bool) (typed_email typed_password : string) (w : World) :
  let out := cmd_init force typed_email typed_password w in
  (fst out = ConfigSaved <->
   (config_file w = None \/ force = true) /\
   PyStr.strip typed_email <> "" /\ PyStr.strip typed_password <> "") /\
  (fst out = ConfigSaved ->
   load_config (snd out)
   = (Return {| username := PyStr.strip typed_email;
                password := PyStr.strip typed_password;
                launch_goodlinks_key := Some true;
                log_file_key := Some DEFAULT_LOG_FILE |}, snd out)) /\
  (fst out <> ConfigSaved -> snd out = w) /\
  state_file (snd out) = state_file w /\
  trace (snd out) = trace w.
Proof.
  cbv zeta. unfold cmd_init.
  destruct (config_file w) as [c|] eqn:Hc; destruct force; cbn [andb negb];
    cbv zeta;
    destruct (PyStr.strip typed_email) as [|a e];
    destruct (PyStr.strip typed_password) as [|b q];
    cbn [orb fst snd];
    (split; [split; [intros H; try discriminate; repeat split; auto; discriminate
                    |intros (H1 & H2 & H3); try reflexivity;
                     try (now destruct H2); try (now destruct H3);
                     destruct H1; discriminate]|]);
    (split; [intros H; try discriminate; reflexivity|]);
    (split; [intros H; try reflexivity; now destruct H|]);
    split; reflexivity.
Qed.

Lemma init_writes_what_load_config_reads_witness :
  let out := cmd_init false "  reader@example.com " "secret" blank in
  fst out = ConfigSaved /\
  load_config (snd out)
  = (Return {| username := PyStr.strip "  reader@example.com ";
               password := PyStr.strip "secret";
               launch_goodlinks_key := Some true;
               log_file_key := Some DEFAULT_LOG_FILE |}, snd out).
Proof.
  destruct (init_writes_what_load_config_reads false "  reader@example.com "
              "secret" blank) as (H1 & H2 & _).
  assert (H : fst (cmd_init false "  reader@example.com " "secret" blank)
              = ConfigSaved).
  { apply H1. split; [left; reflexivity|]. split; vm_compute; discriminate. }
  split; [exact H|exact (H2 H)].
Defined.

(** ** The authentication failure of a run *)

Lemma answers_fit_false rs :
  answers_fit false rs -> ~ In (Resp 403) rs.
Proof.
  simpl. rewrite List.Forall_forall. intros H Hin. now apply (H _ Hin).
Qed.

Lemma answers_fit_true rs :
  answers_fit true rs ->
  In (Resp 403) rs /\
  forall pre post, rs = pre ++ Resp 403 :: post -> post = [].
Proof.
  simpl. intros (pre0 & -> & Hpre). split.
  - apply in_or_app. right. left. reflexivity.
  - intros pre post E.
    destruct post as [|z post _] using rev_ind; [reflexivity|].
    exfalso.
    change (pre ++ Resp 403 :: post ++ [z])
      with (pre ++ (Resp 403 :: post) ++ [z]) in E.
    rewrite app_assoc in E. apply app_inj_tail in E as [E _].
    rewrite List.Forall_forall in Hpre.
    apply (Hpre (Resp 403)); [|reflexivity].
    rewrite E. apply in_or_app. right. left. reflexivity.
Qed.

(** X16.  The authentication failure of a run.  A run raises the exception
    of line 213 exactly when the service answers one of its requests with
    status 403; that request is then the last one the run sends. *)
Theorem run_stops_at_the_first_403
    (net : list Event -> Response) (proc : list Event -> Completed)
    (args : Args) (w : World) :
  let out := cmd_sync net proc args w in
  let evs := events_since w (snd out) in
  let rs := answers net (trace w) evs in
  (fst out = Raise AuthenticationFailed <-> In (Resp 403) rs) /\
  (forall pre post, rs = pre ++ Resp 403 :: post -> post = []).
Proof.
  cbv zeta.
  destruct (cmd_sync_run_shape net proc args w) as [_ H]. cbv zeta in H.
  set (out := cmd_sync net proc args w) in *.
  set (evs := events_since w (snd out)) in *.
  assert (Hnone : forallb is_quiet evs = true ->
                  fst out <> Raise AuthenticationFailed ->
                  (fst out = Raise AuthenticationFailed
                   <-> In (Resp 403) (answers net (trace w) evs)) /\
                  (forall pre post,
                     answers net (trace w) evs = pre ++ Resp 403 :: post ->
                     post = [])).
  { intros Hq Hr. rewrite (proj2 (results_quiet net (trace w) evs Hq)).
    split; [simpl; tauto|]. intros [|? ?] post E; discriminate. }
  destruct H as [(Hq & Hr & _)|(L & tr & _ & Hshape)]; [now apply Hnone|].
  destruct (shape_outcomes net args L w _ _ Hshape) as (_ & Hquiet & Hloop).
  cbv zeta in Hquiet, Hloop. fold out evs in Hquiet, Hloop.
  destruct (dry_run args) eqn:Hdry;
    [|destruct (decide (to_sync_of L (synced_of w) = [])) as [HP|HP]].
  1,2: destruct Hquiet as (Hq & Hr & _); auto; apply Hnone;
       [exact Hq|rewrite Hr; discriminate].
  destruct (Hloop eq_refl HP) as (_ & _ & Hrest).
  destruct (Nat.eqb _ _); destruct Hrest as (_ & Hr & Hfit).
  - pose proof (answers_fit_false _ Hfit) as Hno. split.
    + rewrite Hr. split; [discriminate|contradiction].
    + intros pre post E. exfalso. apply Hno. rewrite E.
      apply in_or_app. right. left. reflexivity.
  - destruct (answers_fit_true _ Hfit) as [Hin Hlast].
    split; [tauto|exact Hlast].
Qed.

(** ** The report of a run *)

Lemma count_true_false oks : count_true oks + count_false oks = length oks.
Proof.
  induction oks as [|[] oks IH]; [reflexivity| |];
    rewrite count_true_cons, count_false_cons; simpl; lia.
Qed.

Lemma loop_synced_size items : forall oks (S : gset string),
  size (loop_synced items oks S) <= size S + count_true oks.
Proof.
  induction items as [|[i l] items IH]; intros oks S.
  - simpl. destruct oks; lia.
  - destruct oks as [|ok oks]; [simpl; lia|].
    cbn [loop_synced]. rewrite count_true_cons.
    destruct ok.
    + specialize (IH oks ({[id l]} ∪ S)).
      assert (size ({[id l]} ∪ S) <= 1 + size S).
      { rewrite size_union_alt, size_singleton.
        assert (size (S ∖ {[id l]}) <= size S)
          by (apply subseteq_size; set_solver).
        lia. }
      lia.
    + specialize (IH oks S). lia.
Qed.

(** A run that reports: every call returned, and the state file holds the
    bookkeeping of all outcomes. *)
Lemma run_reported net proc args w L n m :
  source_yields proc L ->
  let out := cmd_sync net proc args w in
  reports (events_since w (snd out)) = [(n, m)] ->
  exists oks,
    length oks = length (to_sync_of L (synced_of w)) /\
    n = count_true oks /\ m = count_false oks /\
    fst out = Return tt /\
    synced_of (snd out)
    = loop_synced (enumerate1 (to_sync_of L (synced_of w))) oks (synced_of w).
Proof.
  intros HL. cbv zeta. intros Hrep.
  destruct (cmd_sync_run net proc args w) as [Hw H]. cbv zeta in H.
  destruct H as [H|(c & tr & L' & body & _ & HL' & Hm & Hr & _ & Hout)].
  { rewrite quiet_reports in Hrep by exact H. discriminate. }
  rewrite (source_yields_fetched proc L tr L' HL HL') in Hout.
  apply run_outcome_marks in Hout. cbv zeta in Hout.
  rewrite Hr in Hrep.
  destruct Hout as [[_ E]|(oks & _ & _ & Hmarks & Hreports & Hres)];
    [rewrite E in Hrep; discriminate|].
  rewrite Hreports in Hrep.
  destruct (Nat.eqb (length oks) _) eqn:E; [|discriminate].
  injection Hrep as <- <-. exists oks.
  split; [now apply Nat.eqb_eq|]. split; [reflexivity|]. split; [reflexivity|].
  split; [exact Hres|].
  rewrite Hw, synced_of_after, <- saves_marks, Hm, Hmarks, saves_run_marks, E.
  rewrite last_snoc. reflexivity.
Qed.

(** X17.  The final report accounts for every pending item: the two numbers
    of [Done: n synced, m failed] add up to the number of pending records.
    A run that reports returned normally, kept every id it had loaded, and
    recorded at most [n] new ids. *)
Theorem report_accounts_for_every_pending_item
    (net : list Event -> Response) (proc : list Event -> Completed)
    (args : Args) (w : World) (L : list Link) (n m : nat) :
  source_yields proc L ->
  let out := cmd_sync net proc args w in
  reports (events_since w (snd out)) = [(n, m)] ->
  n + m = length (to_sync_of L (synced_of w)) /\
  fst out = Return tt /\
  synced_of w ⊆ synced_of (snd out) /\
  size (synced_of (snd out)) <= size (synced_of w) + n.
Proof.
  intros HL. cbv zeta. intros Hrep.
  destruct (run_reported net proc args w L n m HL Hrep)
    as (oks & Hlen & -> & -> & Hr & Hs).
  split; [rewrite count_true_false; exact Hlen|]. split; [exact Hr|].
  rewrite Hs. split; [|apply loop_synced_size].
  apply (loop_synced_bounds (enumerate1 (to_sync_of L (synced_of w)))
           (synced_of w ∪ list_to_set (map id (to_sync_of L (synced_of w))))).
  - set_solver.
  - intros item Hin. apply elem_of_union_r, enumerate1_ids, Hin.
Qed.

Lemma report_accounts_for_every_pending_item_witness :
  let out := cmd_sync (by_url (fun u => if String.eqb u "https://example.com/B"
                                        then Resp 400 else Resp 201))
               (goodlinks_with (samples 4)) default_args synced_A in
  2 + 1 = length (to_sync_of (samples 4) (synced_of synced_A)) /\
  fst out = Return tt /\
  synced_of synced_A ⊆ synced_of (snd out) /\
  size (synced_of (snd out)) <= size (synced_of synced_A) + 2.
Proof.
  apply (report_accounts_for_every_pending_item
           (by_url (fun u => if String.eqb u "https://example.com/B"
                             then Resp 400 else Resp 201))
           (goodlinks_with (samples 4)) default_args synced_A (samples 4) 2 1).
  - intros tr Htr. unfold goodlinks_with. rewrite Htr.
    split; vm_compute; reflexivity.
  - vm_compute. reflexivity.
Defined.

(** ** What an interrupted run has flushed *)

(** X18.  The state file after a run is the bookkeeping of its last flush.
    With the outcomes of the calls read off the answers of the service,
    the file holds the ids it held before and the ids of the records
    accepted among the first [flushed] calls, and nothing else: all the
    calls when the run reached its report, and otherwise the calls up to
    the last multiple of 10.  A run cut short by the authentication failure
    thus forgets the ids accepted after its last periodic flush.  The
    outcomes are those of the calls the run made: a run that has its
    configuration, finds GoodLinks ready and is not a dry run makes one
    call more than returned, unless all pending records were processed. *)
Theorem state_after_a_run_is_the_last_flush
    (net : list Event -> Response) (proc : list Event -> Completed)
    (args : Args) (w : World) (L : list Link) :
  source_yields proc L ->
  let out := cmd_sync net proc args w in
  let evs := events_since w (snd out) in
  let S := synced_of w in
  let P := to_sync_of L S in
  let oks := outcomes net (trace w) evs in
  let flushed := match reports evs with
                 | [] => 10 * (length oks / 10)
                 | _ => length oks
                 end in
  length oks <= length P /\
  synced_of (snd out) = loop_synced (enumerate1 P) (take flushed oks) S /\
  (forall x, x ∈ synced_of (snd out) <->
             x ∈ S \/ exists j l, j < flushed /\ P !! j = Some l /\
                                  id l = x /\ oks !! j = Some true) /\
  (forall c, config_file w = Some c -> goodlinks_ready proc w c ->
             dry_run args = false ->
             published evs = take (Datatypes.S (length oks)) (map id P)).
Proof.
  intros HL. cbv zeta.
  destruct (run_of_source net proc args w L HL) as [Hw H]. cbv zeta in H.
  pose proof (run_follows_pending net proc args w L HL) as [Hpub _].
  cbv zeta in Hpub.
  set (out := cmd_sync net proc args w) in *.
  set (evs := events_since w (snd out)) in *.
  set (S := synced_of w) in *. set (P := to_sync_of L S) in *.
  set (oks := outcomes net (trace w) evs) in *.
  set (flushed := match reports evs with
                  | [] => 10 * (length oks / 10)
                  | _ => length oks
                  end).
  assert (Hmain : length oks <= length P /\
                  synced_of (snd out)
                  = loop_synced (enumerate1 P) (take flushed oks) S).
  { destruct H as [(_ & Hq & _)|Hshape].
    - subst oks flushed. unfold outcomes.
      rewrite (proj1 (results_quiet net (trace w) evs Hq)). simpl.
      split; [lia|]. rewrite take_nil, loop_synced_nil, Hw.
      now apply synced_of_quiet.
    - split; [apply (shape_outcomes net args L w _ _ Hshape)|].
      rewrite Hw. apply (shape_state net args L w _ _ Hshape). }
  destruct Hmain as [Hlen Hstate]. split; [exact Hlen|]. split; [exact Hstate|].
  split.
  2:{ intros c Hc Hready Hdry.
      apply Hpub; [exact (ready_queries net proc args w c Hc Hready)|exact Hdry]. }
  intros x. rewrite Hstate, loop_synced_accepted, elem_of_union,
    elem_of_list_to_set, accepted_loop_results.
  split.
  - intros [(j & item & Hj & Hid & Hok)|Hx]; [right|left; exact Hx].
    apply lookup_take_Some in Hok as [Hok Hlt].
    exists j, (snd item). split; [exact Hlt|].
    split; [now apply enumerate1_lookup|]. auto.
  - intros [Hx|(j & l & Hlt & Hj & Hid & Hok)]; [right; exact Hx|left].
    destruct (lookup_lt_is_Some_2 (enumerate1 P) j) as [item Hitem].
    { rewrite enumerate1_length. eapply lookup_lt_Some, Hj. }
    exists j, item. split; [exact Hitem|].
    apply enumerate1_lookup in Hitem as Hsnd.
    assert (snd item = l) by congruence. subst l.
    split; [exact Hid|]. apply lookup_take_Some. auto.
Qed.

Lemma state_after_a_run_is_the_last_flush_witness :
  let net := by_url (fun u => if String.eqb u "https://example.com/L"
                              then Resp 403 else Resp 201) in
  let out := cmd_sync net (goodlinks_with (samples 15)) default_args fresh in
  let evs := events_since fresh (snd out) in
  let S := synced_of fresh in
  let P := to_sync_of (samples 15) S in
  let oks := outcomes net (trace fresh) evs in
  let flushed := match reports evs with
                 | [] => 10 * (length oks / 10)
                 | _ => length oks
                 end in
  length oks <= length P /\
  synced_of (snd out) = loop_synced (enumerate1 P) (take flushed oks) S /\
  (forall x, x ∈ synced_of (snd out) <->
             x ∈ S \/ exists j l, j < flushed /\ P !! j = Some l /\
                                  id l = x /\ oks !! j = Some true) /\
  published evs = take (Datatypes.S (length oks)) (map id P).
Proof.
  cbv zeta.
  destruct (state_after_a_run_is_the_last_flush
              (by_url (fun u => if String.eqb u "https://example.com/L"
                                then Resp 403 else Resp 201))
              (goodlinks_with (samples 15)) default_args fresh (samples 15))
    as (H1 & H2 & H3 & H4).
  - intros tr Htr. unfold goodlinks_with. rewrite Htr.
    split; vm_compute; reflexivity.
  - split; [exact H1|]. split; [exact H2|]. split; [exact H3|].
    apply (H4 {| username := "reader@example.com"; password := "secret";
                 launch_goodlinks_key := None; log_file_key := None |}).
    + reflexivity.
    + left. intros tr Htr. unfold goodlinks_with. rewrite Htr. reflexivity.
    + reflexivity.
Defined.

(** The run of that witness, evaluated: the twelfth of fifteen records is
    answered 403; eleven calls succeeded, and the state file holds the ten
    ids of the one flush that took place. *)
Example abort_after_eleven_keeps_ten :
  let net := by_url (fun u => if String.eqb u "https://example.com/L"
                              then Resp 403 else Resp 201) in
  let out := cmd_sync net (goodlinks_with (samples 15)) default_args fresh in
  fst out = Raise AuthenticationFailed /\
  length (published (events_since fresh (snd out))) = 12 /\
  size (synced_of (snd out)) = 10.
Proof. vm_compute. auto. Qed.

(** ** The preview of a dry run *)

Lemma log_would_sync_events P : forall w,
  log_would_sync P w
  = (Return tt,
     world_after w
       (map (fun link => ELog INFO (MsgWouldSync (PyStr.slice_to 70 (title link))))
          P)).
Proof.
  induction P as [|l P IH]; intros w; cbn [log_would_sync map].
  - unfold ret. now rewrite world_after_nil.
  - rewrite bind_log, IH, world_after_app. reflexivity.
Qed.

(** X19.  With a configuration in place and GoodLinks running, a dry run
    does exactly this: the two checks for GoodLinks, the query of the
    source, the count of pending and fetched links, one log record per
    pending record, in source order, with its title cut to 70 characters,
    and the count again.  The records previewed are those a real run from
    the same world would publish. *)
Theorem dry_run_previews_the_pending_list
    (net : list Event -> Response) (proc : list Event -> Completed)
    (args : Args) (w : World) (c : Config) (L : list Link) :
  config_file w = Some c ->
  goodlinks_up proc ->
  source_yields proc L ->
  dry_run args = true ->
  let P := to_sync_of L (synced_of w) in
  cmd_sync net proc args w
  = (Return tt,
     world_after w
       ([ELog INFO MsgStarting; ERun Pgrep; ERun Pgrep; ERun OsaLinks;
         ELog INFO (MsgFound (length P) (length L))]
        ++ map (fun link =>
                  ELog INFO (MsgWouldSync (PyStr.slice_to 70 (title link)))) P
        ++ [ELog INFO (MsgWouldSyncN (length P))])).
Proof.
  intros Hc Hup HL Hdry. cbv zeta.
  rewrite (cmd_sync_up net proc args w c Hc Hup).
  unfold sync_body, bind at 1.
  rewrite (get_goodlinks_yields proc _ L HL), bind_load.
  rewrite !synced_of_quiet by reflexivity. cbv zeta.
  rewrite bind_log, Hdry. unfold bind at 1.
  rewrite log_would_sync_events.
  change (log INFO ?m ?x) with (Return tt, world_after x [ELog INFO m]).
  rewrite !world_after_app. reflexivity.
Qed.

Lemma dry_run_previews_the_pending_list_witness :
  let P := to_sync_of (samples 3) (synced_of synced_A) in
  cmd_sync (always (Resp 201)) (goodlinks_with (samples 3)) dry_args synced_A
  = (Return tt,
     world_after synced_A
       ([ELog INFO MsgStarting; ERun Pgrep; ERun Pgrep; ERun OsaLinks;
         ELog INFO (MsgFound (length P) (length (samples 3)))]
        ++ map (fun link =>
                  ELog INFO (MsgWouldSync (PyStr.slice_to 70 (title link)))) P
        ++ [ELog INFO (MsgWouldSyncN (length P))])).
Proof.
  apply (dry_run_previews_the_pending_list (always (Resp 201))
           (goodlinks_with (samples 3)) dry_args synced_A
           {| username := "reader@example.com"; password := "secret";
              launch_goodlinks_key := None; log_file_key := None |}
           (samples 3)).
  - reflexivity.
  - intros tr Htr. unfold goodlinks_with. rewrite Htr. reflexivity.
  - intros tr Htr. unfold goodlinks_with. rewrite Htr.
    split; vm_compute; reflexivity.
  - reflexivity.
Defined.
